(** * Log-to-knowledge-base correlation and reporting engine

    A shallow embedding of the core modules of the platform

      - [processing/knowledge_base.py]   (text generaliser, KB loader)
      - [processing/log_parser.py]       (line parser, directory scan)
      - [processing/report_generator.py] (impact metrics, predictive and
                                          novel-anomaly alerts)
      - [processing/orchestrator.py]     (assembly of the primary report)

    followed by the properties the specification states about them.

    Conventions of the embedding.
      - A Python [str] is a list of code points.  The code points are
        restricted to U+0000..U+00FF and represented by [ascii]; the
        character classes [\d], [\w], [\s] and [str.lower] are the ones
        Python 3 uses on that range.
      - A pandas frame is the list of its rows, in index order; a row is
        a record with the columns the code reads.
      - [Timestamp] is an instant in seconds, an integer.  Identifiers,
        line numbers and counts are integers; frames are far smaller
        than the range of int64, whose arithmetic on them is exact.
      - [DataFrame.sort_values] is library code whose default algorithm
        (quicksort) fixes no order among equal keys; it is a parameter
        of the development, known only by its contract. *)

From Stdlib Require Import ZArith NArith String Ascii Bool Lia Arith.
From Stdlib Require Import List Permutation Sorted.
From Stdlib Require DecimalString.
Import ListNotations.

Open Scope bool_scope.

(* ===================================================================== *)
(** ** Python strings and the [re] patterns of the code                   *)
(* ===================================================================== *)

Module Text.

Definition str := list ascii.

Definition code (c : ascii) : N := N_of_ascii c.

Definition in_range (lo hi : N) (c : ascii) : bool :=
  (lo <=? code c)%N && (code c <=? hi)%N.

Definition is_code (n : N) (c : ascii) : bool := (code c =? n)%N.

(** [\d] : the decimal digits. *)
Definition is_digit (c : ascii) : bool := in_range 48 57 c.

(** [\s] and [str.isspace]: TAB..CR, FS..US, SPACE, NEL, NBSP. *)
Definition is_space (c : ascii) : bool :=
  in_range 9 13 c || in_range 28 32 c || is_code 133 c || is_code 160 c.

(** [str.isalpha] below U+0100. *)
Definition is_alpha (c : ascii) : bool :=
  in_range 65 90 c || in_range 97 122 c
  || is_code 170 c || is_code 181 c || is_code 186 c
  || in_range 192 214 c || in_range 216 246 c || in_range 248 255 c.

(** [str.isnumeric] below U+0100: digits, superscripts, fractions. *)
Definition is_numeric (c : ascii) : bool :=
  is_digit c || is_code 178 c || is_code 179 c || is_code 185 c
  || in_range 188 190 c.

(** [\w] : alphanumeric or underscore. *)
Definition is_word (c : ascii) : bool :=
  is_alpha c || is_numeric c || is_code 95 c.

(** [[0-9a-f]] *)
Definition is_hex (c : ascii) : bool := is_digit c || in_range 97 102 c.

(** [str.lower] on one code point. *)
Definition lower_char (c : ascii) : ascii :=
  if in_range 65 90 c || in_range 192 214 c || in_range 216 222 c
  then ascii_of_N (code c + 32)
  else c.

Definition lower (s : str) : str := map lower_char s.

(** Word-ness of the character on one side of a position; the edge of
    the string counts as a non-word. *)
Definition opt_word (o : option ascii) : bool :=
  match o with Some c => is_word c | None => false end.

(** [\b] between [before] and [after]. *)
Definition word_boundary (before after : option ascii) : bool :=
  xorb (opt_word before) (opt_word after).

(** Length of the longest prefix whose characters satisfy [p]. *)
Fixpoint span_len (p : ascii -> bool) (s : str) : nat :=
  match s with
  | c :: s' => if p c then S (span_len p s') else 0
  | [] => 0
  end.

(** A pattern anchored at a position: given the character before the
    position and the text from the position on, the length of the match
    Python finds there, if any.  None of the patterns of the code
    matches the empty string. *)
Definition matcher := option ascii -> str -> option nat.

(** [re.sub(pattern, repl, text)]: scan left to right; at a position
    where the pattern matches, emit [repl] and resume after the match,
    otherwise copy the character.  [skip] counts the characters of the
    current match still to be dropped, [prev] is the character before
    the position in the original text. *)
Fixpoint re_sub_from (m : matcher) (repl : str)
         (prev : option ascii) (skip : nat) (s : str) : str :=
  match s with
  | [] => []
  | c :: s' =>
      match skip with
      | S k => re_sub_from m repl (Some c) k s'
      | O =>
          match m prev s with
          | Some (S k) => repl ++ re_sub_from m repl (Some c) k s'
          | _ => c :: re_sub_from m repl (Some c) 0 s'
          end
      end
  end.

Definition re_sub (m : matcher) (repl : str) (s : str) : str :=
  re_sub_from m repl None 0 s.

(** [\d{1,3}] followed by a literal dot ([k] more times) and closed by
    [\d{1,3}\b].  A run of more than three digits cannot match: after
    any shorter prefix the next character is a digit, neither a dot nor
    a boundary. *)
Fixpoint match_octets (k : nat) (s : str) : option nat :=
  let n := span_len is_digit s in
  if (1 <=? n) && (n <=? 3) then
    match k with
    | O =>
        if word_boundary (nth_error s (n - 1)) (nth_error s n)
        then Some n else None
    | S k' =>
        match skipn n s with
        | "."%char :: s' =>
            match match_octets k' s' with
            | Some r => Some (n + 1 + r)
            | None => None
            end
        | _ => None
        end
    end
  else None.

(** [\b\d{1,3}\.\d{1,3}\.\d{1,3}\.\d{1,3}\b] *)
Definition match_ip : matcher := fun prev s =>
  if word_boundary prev (hd_error s) then match_octets 3 s else None.

(** [0x[0-9a-f]+] *)
Definition match_hex : matcher := fun _ s =>
  match s with
  | "0"%char :: "x"%char :: s' =>
      let n := span_len is_hex s' in
      if 1 <=? n then Some (2 + n) else None
  | _ => None
  end.

Definition not_blank (c : ascii) : bool := negb (Ascii.eqb c " ").

(** The path pattern: one or more groups, each a slash followed by any
    number of characters other than slash and blank, then an optional
    slash.  The groups repeat as long as a slash follows, so the match
    runs from the slash to the first blank (or the end of the text). *)
Definition match_path : matcher := fun _ s =>
  match s with
  | "/"%char :: _ => Some (span_len not_blank s)
  | _ => None
  end.

(** [\b\d+\b] *)
Definition match_number : matcher := fun prev s =>
  let n := span_len is_digit s in
  if (1 <=? n) && word_boundary prev (hd_error s)
     && word_boundary (nth_error s (n - 1)) (nth_error s n)
  then Some n else None.

(** [[^\w\s]] *)
Definition is_punct (c : ascii) : bool := negb (is_word c || is_space c).

Definition match_punct : matcher := fun _ s =>
  match s with
  | c :: _ => if is_punct c then Some 1 else None
  | [] => None
  end.

(** [\s+] *)
Definition match_ws : matcher := fun _ s =>
  let n := span_len is_space s in
  if 1 <=? n then Some n else None.

Fixpoint lstrip (s : str) : str :=
  match s with
  | c :: s' => if is_space c then lstrip s' else s
  | [] => []
  end.

(** [str.strip()] *)
Definition strip (s : str) : str := rev (lstrip (rev (lstrip s))).

Definition tok (s : string) : str := list_ascii_of_string s.

Fixpoint starts_with (p s : str) : bool :=
  match p, s with
  | [], _ => true
  | a :: p', c :: s' => Ascii.eqb a c && starts_with p' s'
  | _ :: _, [] => false
  end.

(** [p in s] for strings. *)
Fixpoint contains (p s : str) : bool :=
  starts_with p s ||
  match s with
  | [] => false
  | _ :: s' => contains p s'
  end.

(** [generalize_message] on the code points of its argument. *)
Definition generalize (text : str) : str :=
  let text := lower text in
  let text := re_sub match_ip (tok "ip address") text in
  let text := re_sub match_hex (tok "hex value") text in
  let text := re_sub match_path (tok "file path") text in
  let text := re_sub match_number (tok "number") text in
  let text := re_sub match_punct (tok " ") text in
  let text := strip (re_sub match_ws (tok " ") text) in
  text.

(** [knowledge_base.generalize_message].  The argument is a [str]; the
    guard for other objects has no counterpart at this type. *)
Definition generalize_message (text : string) : string :=
  string_of_list_ascii (generalize (list_ascii_of_string text)).

End Text.

(* ===================================================================== *)
(** ** The pandas operations the code relies on                          *)
(* ===================================================================== *)

(** Order of two sort keys; a missing key (NaN, NaT) goes last whatever
    the direction, as [na_position='last'] has it. *)
Definition key_le (ascending : bool) (k1 k2 : option Z) : bool :=
  match k1, k2 with
  | Some a, Some b => if ascending then (a <=? b)%Z else (b <=? a)%Z
  | _, None => true
  | None, Some _ => false
  end.

(** What the code takes from pandas.  [sort_values by ascending] is
    [DataFrame.sort_values(by=..., ascending=...)] as the code calls it,
    without a [kind]: the default algorithm is quicksort, which pandas
    documents as not stable (only mergesort and stable are).  The rows
    come back rearranged and in key order, and nothing more is promised
    about rows with equal keys.
    [to_datetime] is [pd.to_datetime] of one text: the instant, or
    [None] when the call raises.
    [to_datetime_coerce] is [pd.to_datetime(column, errors='coerce')]:
    the column converted as a whole, with a missing value ([None], NaT)
    where pandas finds no date.  Which texts it takes for dates can
    depend on the other entries of the column, and nothing relates it
    to the conversion of one text.
    [sub_timedelta t d] is [Timestamp - timedelta] for an instant and a
    duration in seconds: the difference, or [None] when pandas raises
    because the duration or the result is out of its range. *)
Class Pandas : Type := {
  sort_values : forall A : Type, (A -> option Z) -> bool -> list A -> list A;
  sort_values_perm :
    forall A by_ asc (l : list A), Permutation l (sort_values A by_ asc l);
  sort_values_sorted :
    forall A by_ asc (l : list A),
      StronglySorted (fun x y => key_le asc (by_ x) (by_ y) = true)
                     (sort_values A by_ asc l);
  to_datetime : string -> option Z;
  to_datetime_coerce : list (option string) -> list (option Z);
  to_datetime_coerce_length :
    forall column, length (to_datetime_coerce column) = length column;
  sub_timedelta : Z -> Z -> option Z;
  sub_timedelta_eq :
    forall t d r, sub_timedelta t d = Some r -> r = (t - d)%Z
}.

Arguments sort_values {_} {A} by_ ascending l : rename.

(** [DataFrame.drop_duplicates(subset=..., keep='first')]: a row stays
    when no earlier row has its key. *)
Fixpoint drop_duplicates_from {A K : Type} (eqb : K -> K -> bool)
         (key : A -> K) (seen : list K) (l : list A) : list A :=
  match l with
  | [] => []
  | x :: l' =>
      if existsb (eqb (key x)) seen
      then drop_duplicates_from eqb key seen l'
      else x :: drop_duplicates_from eqb key (key x :: seen) l'
  end.

Definition drop_duplicates {A K : Type} (eqb : K -> K -> bool)
           (key : A -> K) (l : list A) : list A :=
  drop_duplicates_from eqb key [] l.

(** [Series.unique()]: the distinct values in order of first appearance. *)
Definition unique (l : list Z) : list Z :=
  drop_duplicates Z.eqb (fun x => x) l.

Definition pair_eqb {A B : Type} (ea : A -> A -> bool) (eb : B -> B -> bool)
           (p q : A * B) : bool :=
  ea (fst p) (fst q) && eb (snd p) (snd q).

(** [re.search(r'\d+', case_name)]: the first run of digits, else the
    name itself. *)
Fixpoint first_digits (s : Text.str) : option Text.str :=
  match s with
  | [] => None
  | c :: s' =>
      if Text.is_digit c
      then Some (firstn (Text.span_len Text.is_digit s) s)
      else first_digits s'
  end.

Definition scenario_id (case_name : string) : string :=
  match first_digits (list_ascii_of_string case_name) with
  | Some d => string_of_list_ascii d
  | None => case_name
  end.

(* ===================================================================== *)
(** ** processing/log_parser.py                                          *)
(* ===================================================================== *)

Module LogParser.

Import Text.

(** One element of the fixed-width timestamp pattern: a digit or a
    literal character. *)
Inductive shape_item := Dg | Lit (c : ascii).

(** [\d{4}-\d{2}-\d{2}T\d{2}:\d{2}:\d{2}] *)
Definition timestamp_shape : list shape_item :=
  [Dg; Dg; Dg; Dg; Lit "-"; Dg; Dg; Lit "-"; Dg; Dg; Lit "T";
   Dg; Dg; Lit ":"; Dg; Dg; Lit ":"; Dg; Dg]%char.

(** Match a fixed shape at the head of [s]; the rest of [s] on success. *)
Fixpoint match_shape (sh : list shape_item) (s : str) : option str :=
  match sh, s with
  | [], _ => Some s
  | Dg :: sh', c :: s' => if is_digit c then match_shape sh' s' else None
  | Lit a :: sh', c :: s' => if Ascii.eqb a c then match_shape sh' s' else None
  | _ :: _, [] => None
  end.

Definition is_colon (c : ascii) : bool := Ascii.eqb c ":".
Definition not_colon (c : ascii) : bool := negb (is_colon c).
Definition not_newline (c : ascii) : bool := negb (is_code 10 c).

(** The four groups of the line pattern
      timestamp, blanks, word, blanks, text without colon, colon,
      blanks, rest of the line
    matched at the start of [line] as [re.match] does.  The blanks
    before the category give one character back when the colon follows
    them at once, so that the category is not empty. *)
Definition match_line (line : str) : option (str * str * str * str) :=
  match match_shape timestamp_shape line with
  | None => None
  | Some r1 =>
      let timestamp := firstn 19 line in
      let n1 := span_len is_space r1 in
      let r2 := skipn n1 r1 in
      let n2 := span_len is_word r2 in
      let level := firstn n2 r2 in
      let r3 := skipn n2 r2 in
      let n3 := span_len is_space r3 in
      let r4 := skipn n3 r3 in
      let n4 := span_len not_colon r4 in
      if (1 <=? n1) && (1 <=? n2) && (1 <=? n3) then
        (* category and what follows its colon *)
        let cat_rest :=
          if 1 <=? n4 then
            match skipn n4 r4 with
            | _ :: r5 => Some (firstn n4 r4, r5)
            | [] => None
            end
          else
            match r4 with
            | _ :: r5 =>
                if 2 <=? n3 then Some (skipn (n3 - 1) (firstn n3 r3), r5)
                else None
            | [] => None
            end in
        match cat_rest with
        | Some (category, r5) =>
            let n5 := span_len is_space r5 in
            let r6 := skipn n5 r5 in
            if 1 <=? n5
            then Some (timestamp, level, category,
                       firstn (span_len not_newline r6) r6)
            else None
        | None => None
        end
      else None
  end.

(** [parse_log_line]: (timestamp, level, category, message). *)
Definition parse_log_line (line : string)
  : option string * string * string * string :=
  match match_line (list_ascii_of_string line) with
  | Some (t, l, c, m) =>
      (Some (string_of_list_ascii t), string_of_list_ascii l,
       string_of_list_ascii c, string_of_list_ascii m)
  | None => (None, "UNKNOWN", "UNKNOWN", line)
  end%string.

(** A dictionary appended to [all_logs]. *)
Record RawLog := {
  raw_Timestamp : option string;
  raw_Level : string;
  raw_Message : string;
  raw_file_name : string;
  raw_line_number : Z;
  raw_log : string
}.

(** A row of the frame the parser returns. *)
Record LogRecord := {
  Timestamp : Z;
  Level : string;
  Message : string;
  file_name : string;
  line_number : Z;
  log : string;
  Generalized_Message : string
}.

Definition str_strip (s : string) : string :=
  string_of_list_ascii (strip (list_ascii_of_string s)).

Definition is_warning_or_error (level : string) : bool :=
  (String.eqb level "WARNING" || String.eqb level "ERROR")%string.

(** The body of the loop over the lines of one file: [i] is the index
    [enumerate] gives, [line] the line as read. *)
Definition scan_line (filename : string) (i : Z) (line : string)
  : option RawLog :=
  let line := str_strip line in
  if String.eqb line ""
     || contains (tok " INFO ") (list_ascii_of_string line)
  then None
  else
    let '(timestamp, level, category, message) := parse_log_line line in
    if is_warning_or_error level
    then Some {| raw_Timestamp := timestamp;
                 raw_Level := level;
                 raw_Message := message;
                 raw_file_name := filename;
                 raw_line_number := i + 1;
                 raw_log := line |}
    else None.

Fixpoint scan_lines (filename : string) (i : Z) (lines : list string)
  : list RawLog :=
  match lines with
  | [] => []
  | line :: rest =>
      match scan_line filename i line with
      | Some r => r :: scan_lines filename (i + 1) rest
      | None => scan_lines filename (i + 1) rest
      end
  end.

(** A text file of the directory: its base name and the lines read from
    it (those read before a failure, for a file that cannot be read to
    its end). *)
Definition log_file : Type := string * list string.

Definition collect (files : list log_file) : list RawLog :=
  flat_map (fun f => scan_lines (fst f) 0 (snd f)) files.

(** [dropna(subset=['Timestamp'])] on the collected records beside
    their converted timestamps: a record whose timestamp came out
    missing is dropped. *)
Fixpoint dropna_timestamp (stamps : list (option Z)) (l : list RawLog)
  : list (Z * RawLog) :=
  match stamps, l with
  | Some z :: stamps', r :: l' => (z, r) :: dropna_timestamp stamps' l'
  | None :: stamps', _ :: l' => dropna_timestamp stamps' l'
  | _, _ => []
  end.

Definition to_record (d : Z * RawLog) : LogRecord :=
  let r := snd d in
  {| Timestamp := fst d;
     Level := raw_Level r;
     Message := raw_Message r;
     file_name := raw_file_name r;
     line_number := raw_line_number r;
     log := raw_log r;
     Generalized_Message := generalize_message (raw_Message r) |}.

(** [process_all_logs_for_case], on the text files of the directory in
    the order [glob] lists them. *)
Definition process_all_logs_for_case `{Pandas} (files : list log_file)
  : list LogRecord :=
  let all_logs := collect files in
  match all_logs with
  | [] => []
  | _ =>
      let stamps := to_datetime_coerce (map raw_Timestamp all_logs) in
      let logs_df := dropna_timestamp stamps all_logs in
      let logs_df := sort_values (fun d => Some (fst d)) true logs_df in
      map to_record logs_df
  end.

End LogParser.

(* ===================================================================== *)
(** ** processing/knowledge_base.py : the loader                         *)
(* ===================================================================== *)

Module KnowledgeBase.

Import Text.

(** A cell of a text column of the catalogue as pandas reads it: a
    string, or a value that is not one (a number, or the NaN of an
    empty cell).  A value that is not a string is named by a number: two
    of them carry the same number exactly when [drop_duplicates] takes
    them for the same value. *)
Inductive cell :=
| TextCell (s : string)
| OtherCell (value : Z).

(** [generalize_message] as [Series.apply] calls it on a cell: anything
    that is not a string yields the empty string. *)
Definition generalize_cell (text : cell) : string :=
  match text with
  | TextCell s => generalize_message s
  | OtherCell _ => ""%string
  end.

(** A row of [kb_df] as read from the file. *)
Record KbRow := {
  kb_anomaly_id : Z;
  kb_Anomaly_Text : cell;
  kb_problem_id : Z;
  kb_Problem_Text : cell
}.

(** A row of [anomalies_kb]. *)
Record AnomalyEntry := {
  anomaly_id : Z;
  a_problem_id : Z;
  Generalized_Anomaly : string;
  Anomaly_Text : cell
}.

(** A row of [problems_kb]. *)
Record ProblemEntry := {
  problem_id : Z;
  Generalized_Problem : string;
  Problem_Text : cell
}.

Inductive kb_error :=
| FileNotFoundError (kb_path : string)
| UnsupportedFormat (file_extension : string)   (* the ValueError of the loader *)
| ReaderError.                                   (* raised inside a pandas reader *)

Inductive result (A : Type) :=
| Ok (a : A)
| Raise (e : kb_error).

Arguments Ok {A} a.
Arguments Raise {A} e.

(** The file system and the pandas readers, as the loader sees them:
    whether a path exists, and the rows a reader returns for a path
    ([None] when the reader raises). *)
Class FileSystem : Type := {
  path_exists : string -> bool;
  read_csv : string -> option (list KbRow);
  read_excel : string -> option string -> option (list KbRow)
}.

(** [str.rfind] of one character: the last index, or -1. *)
Fixpoint rfind_from (c : ascii) (s : str) (i last : Z) : Z :=
  match s with
  | [] => last
  | a :: s' => rfind_from c s' (i + 1) (if Ascii.eqb a c then i else last)
  end.

Definition rfind (c : ascii) (s : str) : Z := rfind_from c s 0 (-1).

(** The second component of [os.path.splitext] (POSIX): the text from
    the last dot of the last path component, unless only dots precede
    it there. *)
Definition splitext_ext (p : str) : str :=
  let sepIndex := rfind "/" p in
  let dotIndex := rfind "." p in
  if (sepIndex <? dotIndex)%Z then
    let leading :=
      firstn (Z.to_nat (dotIndex - (sepIndex + 1)))
             (skipn (Z.to_nat (sepIndex + 1)) p) in
    if existsb (fun c => negb (Ascii.eqb c ".")) leading
    then skipn (Z.to_nat dotIndex) p
    else []
  else [].

Definition file_extension_of (kb_path : string) : string :=
  string_of_list_ascii (lower (splitext_ext (list_ascii_of_string kb_path))).

Definition cell_eqb (a b : cell) : bool :=
  match a, b with
  | TextCell x, TextCell y => String.eqb x y
  | OtherCell x, OtherCell y => (x =? y)%Z
  | _, _ => false
  end.

Definition problem_entry_eqb (a b : ProblemEntry) : bool :=
  (problem_id a =? problem_id b)%Z
  && String.eqb (Generalized_Problem a) (Generalized_Problem b)
  && cell_eqb (Problem_Text a) (Problem_Text b).

Definition to_anomaly_entry (r : KbRow) : AnomalyEntry :=
  {| anomaly_id := kb_anomaly_id r;
     a_problem_id := kb_problem_id r;
     Generalized_Anomaly := generalize_cell (kb_Anomaly_Text r);
     Anomaly_Text := kb_Anomaly_Text r |}.

Definition to_problem_entry (r : KbRow) : ProblemEntry :=
  {| problem_id := kb_problem_id r;
     Generalized_Problem := generalize_cell (kb_Problem_Text r);
     Problem_Text := kb_Problem_Text r |}.

(** The two tables built from the rows of the file: every row in the
    anomaly table, the distinct rows in the problem table. *)
Definition split_tables (kb_df : list KbRow)
  : list AnomalyEntry * list ProblemEntry :=
  (map to_anomaly_entry kb_df,
   drop_duplicates problem_entry_eqb (fun e => e) (map to_problem_entry kb_df)).

(** [load_knowledge_base] *)
Definition load_knowledge_base `{FileSystem} (kb_path : string)
  : result (list AnomalyEntry * list ProblemEntry) :=
  if negb (path_exists kb_path) then Raise (FileNotFoundError kb_path)
  else
    let file_extension := file_extension_of kb_path in
    let read :=
      if String.eqb file_extension ".csv" then Some (read_csv kb_path)
      else if String.eqb file_extension ".xlsx"
              || String.eqb file_extension ".xls"
      then Some (read_excel kb_path
                   (if String.eqb file_extension ".xlsx"
                    then Some "openpyxl"%string else None))
      else None in
    match read with
    | None => Raise (UnsupportedFormat file_extension)
    | Some None => Raise ReaderError
    | Some (Some kb_df) => Ok (split_tables kb_df)
    end.

End KnowledgeBase.

(* ===================================================================== *)
(** ** processing/report_generator.py                                    *)
(* ===================================================================== *)

(** [config.NOVEL_ANOMALY_WINDOW_MINUTES] *)
Class Config : Type := { NOVEL_ANOMALY_WINDOW_MINUTES : Z }.

Module Report.

Import KnowledgeBase.

(** A row of [classified_logs]. *)
Record ClassifiedLog := {
  Timestamp : Z;
  Level : string;
  Message : string;
  file_name : string;
  line_number : Z;
  log : string;
  Generalized_Message : string;
  final_anomaly_id : Z;
  final_problem_id : Z
}.

Definition frame := list ClassifiedLog.

Definition by_Timestamp (r : ClassifiedLog) : option Z := Some (Timestamp r).

(** [(Level == 'WARNING') & (final_problem_id != 0)] *)
Definition is_reportable_warning (r : ClassifiedLog) : bool :=
  String.eqb (Level r) "WARNING" && negb (final_problem_id r =? 0)%Z.

(** [(Level == 'ERROR') & (final_problem_id != 0)] *)
Definition is_known_error (r : ClassifiedLog) : bool :=
  String.eqb (Level r) "ERROR" && negb (final_problem_id r =? 0)%Z.

(** [(Level == 'WARNING') & (final_problem_id == 0)] *)
Definition is_novel_warning (r : ClassifiedLog) : bool :=
  String.eqb (Level r) "WARNING" && (final_problem_id r =? 0)%Z.

(** [(Level == 'WARNING') & (final_problem_id == problem_id)] *)
Definition is_warning_of (problem : Z) (r : ClassifiedLog) : bool :=
  String.eqb (Level r) "WARNING" && (final_problem_id r =? problem)%Z.

Definition pair_key (r : ClassifiedLog) : Z * Z :=
  (final_anomaly_id r, final_problem_id r).

(** [drop_duplicates(subset=['final_anomaly_id', 'final_problem_id'],
    keep='first')] *)
Definition dedup_pairs (l : frame) : frame :=
  drop_duplicates (pair_eqb Z.eqb Z.eqb) pair_key l.

(** Ascending order of the group keys, as [groupby] lists its groups. *)
Fixpoint insert_key (k : Z) (l : list Z) : list Z :=
  match l with
  | [] => [k]
  | x :: l' => if (k <=? x)%Z then k :: l else x :: insert_key k l'
  end.

Definition sort_keys (l : list Z) : list Z := fold_right insert_key [] l.

(** [nunique] of a text column. *)
Definition nunique (l : list string) : Z :=
  Z.of_nat (List.length (drop_duplicates String.eqb (fun x => x) l)).

(** A row of [groupby('final_problem_id').agg(...)], indexed by the
    problem id. *)
Record GroupAgg := {
  g_problem_id : Z;
  g_anomaly_count : Z;
  g_unique_systems_affected : Z
}.

(** A row of the frame [calculate_impact_metrics] returns. *)
Record ImpactRow := {
  impact_problem_id : Z;
  anomaly_count : Z;
  unique_systems_affected : Z;
  Impact_Score : Z
}.

Definition group_of (problem : Z) (l : frame) : frame :=
  filter (fun r => (final_problem_id r =? problem)%Z) l.

Definition groupby_agg (l : frame) : list GroupAgg :=
  map (fun problem =>
         let g := group_of problem l in
         {| g_problem_id := problem;
            g_anomaly_count := Z.of_nat (List.length g);
            g_unique_systems_affected := nunique (map file_name g) |})
      (sort_keys (unique (map final_problem_id l))).

Definition with_impact_score (g : GroupAgg) : ImpactRow :=
  {| impact_problem_id := g_problem_id g;
     anomaly_count := g_anomaly_count g;
     unique_systems_affected := g_unique_systems_affected g;
     Impact_Score := g_anomaly_count g * g_unique_systems_affected g |}.

(** [calculate_impact_metrics] *)
Definition calculate_impact_metrics `{Pandas} (classified_logs : frame)
  : list ImpactRow :=
  let reportable_warnings := filter is_reportable_warning classified_logs in
  match reportable_warnings with
  | [] => []
  | _ =>
      let reportable_warnings := dedup_pairs reportable_warnings in
      let impact_data := map with_impact_score (groupby_agg reportable_warnings) in
      sort_values (fun r => Some (Impact_Score r)) false impact_data
  end.

(** The description column of an alert: the text of the knowledge base,
    or the fixed sentence that names the id when there is none. *)
Inductive description :=
| KbText (text : cell)
| NotFoundFor (problem : Z).

Definition problem_text_of (problems_kb : list ProblemEntry) (problem : Z)
  : description :=
  match filter (fun e => (problem_id e =? problem)%Z) problems_kb with
  | e :: _ => KbText (Problem_Text e)
  | [] => NotFoundFor problem
  end.

(** A row of the predictive-alert table.  The alert-type column is a
    constant and the rationale column is a fixed sentence around the
    trigger id; neither is stored. *)
Record PredictiveAlert := {
  pa_scenario_id : string;
  pa_trigger_problem_id : Z;
  pa_problem_description : description;
  pa_trigger_time : Z;
  pa_trigger_log : string;
  pa_predicted_anomaly_id : Z;
  pa_predicted_text : cell
}.

Definition occurred_anomalies (classified_logs : frame) (problem : Z)
  : list Z :=
  unique (map final_anomaly_id
              (dedup_pairs (filter (is_warning_of problem) classified_logs))).

(** The body of the loop over [unique_problem_ids]; [None] stands for
    the [IndexError] of [iloc[0]] on an empty selection. *)
Definition alerts_for_problem `{Pandas} (classified_logs detected_errors : frame)
           (anomalies_kb : list AnomalyEntry) (problems_kb : list ProblemEntry)
           (scenario : string) (problem : Z)
  : option (list PredictiveAlert) :=
  let potential_warnings_kb :=
    filter (fun a => (a_problem_id a =? problem)%Z) anomalies_kb in
  let already_occurred_anomalies := occurred_anomalies classified_logs problem in
  match sort_values by_Timestamp true (group_of problem detected_errors) with
  | [] => None
  | trigger_error_log :: _ =>
      let problem_text := problem_text_of problems_kb problem in
      Some (flat_map
              (fun anomaly_row =>
                 if negb (existsb (Z.eqb (anomaly_id anomaly_row))
                                  already_occurred_anomalies)
                 then [ {| pa_scenario_id := scenario;
                           pa_trigger_problem_id := problem;
                           pa_problem_description := problem_text;
                           pa_trigger_time := Timestamp trigger_error_log;
                           pa_trigger_log := log trigger_error_log;
                           pa_predicted_anomaly_id := anomaly_id anomaly_row;
                           pa_predicted_text := Anomaly_Text anomaly_row |} ]
                 else [])
              potential_warnings_kb)
  end.

(** The loop: the alerts of each problem appended in turn, the run
    aborted by the first exception. *)
Fixpoint predictions_loop (body : Z -> option (list PredictiveAlert))
         (ids : list Z) : option (list PredictiveAlert) :=
  match ids with
  | [] => Some []
  | problem :: rest =>
      match body problem with
      | None => None
      | Some here =>
          match predictions_loop body rest with
          | None => None
          | Some later => Some (here ++ later)
          end
      end
  end.

(** [generate_predictive_alerts] *)
Definition generate_predictive_alerts `{Pandas} (classified_logs : frame)
           (anomalies_kb : list AnomalyEntry) (problems_kb : list ProblemEntry)
           (case_name : string) : option (list PredictiveAlert) :=
  let detected_errors := filter is_known_error classified_logs in
  match detected_errors with
  | [] => Some []
  | _ =>
      let unique_problem_ids := unique (map final_problem_id detected_errors) in
      predictions_loop
        (alerts_for_problem classified_logs detected_errors
                            anomalies_kb problems_kb (scenario_id case_name))
        unique_problem_ids
  end.

(** A row of the novel-anomaly table; its anomaly id column is the
    constant 0. *)
Record NovelAlert := {
  na_scenario_id : string;
  na_anomaly_id : Z;
  na_problem_id : Z;
  na_file_name : string;
  na_line_number : Z;
  na_log : string
}.

Definition novel_key (r : ClassifiedLog) : string * string :=
  (Generalized_Message r, file_name r).

(** [timedelta(minutes=m)], in seconds.  The standard library keeps a
    duration as days, seconds and microseconds and raises
    [OverflowError] ([None]) for more than 999999999 days either way. *)
Definition timedelta_minutes (m : Z) : option Z :=
  let days := (m / 1440)%Z in
  if (-999999999 <=? days)%Z && (days <=? 999999999)%Z
  then Some (60 * m)%Z
  else None.

(** [timedelta(minutes=NOVEL_ANOMALY_WINDOW_MINUTES)] *)
Definition time_window `{Config} : option Z :=
  timedelta_minutes NOVEL_ANOMALY_WINDOW_MINUTES.

(** The classified errors from [time_start] to [time_end]. *)
Definition potential_causes (known_errors : frame) (time_start time_end : Z)
  : frame :=
  filter (fun e => (time_start <=? Timestamp e)%Z
                   && (Timestamp e <=? time_end)%Z)
         known_errors.

(** [iloc[-1]] *)
Definition last_row (l : frame) : option ClassifiedLog :=
  match rev l with
  | x :: _ => Some x
  | [] => None
  end.

(** The body of the loop over the novel warnings: the alert appended,
    if any; [None] when the subtraction of the window raises. *)
Definition novel_alert_for `{Pandas} (known_errors : frame) (scenario : string)
           (time_window : Z) (warning : ClassifiedLog)
  : option (option NovelAlert) :=
  match sub_timedelta (Timestamp warning) time_window with
  | None => None
  | Some time_start =>
      let time_end := Timestamp warning in
      match last_row (potential_causes known_errors time_start time_end) with
      | Some closest_error =>
          Some (Some {| na_scenario_id := scenario;
                        na_anomaly_id := 0;
                        na_problem_id := final_problem_id closest_error;
                        na_file_name := file_name warning;
                        na_line_number := line_number warning;
                        na_log := log warning |})
      | None => Some None
      end
  end.

Fixpoint novel_loop (body : ClassifiedLog -> option (option NovelAlert))
         (warnings : frame) : option (list NovelAlert) :=
  match warnings with
  | [] => Some []
  | w :: rest =>
      match body w with
      | None => None
      | Some found =>
          match novel_loop body rest with
          | None => None
          | Some alerts =>
              Some (match found with
                    | Some a => a :: alerts
                    | None => alerts
                    end)
          end
      end
  end.

(** The novel warnings the loop runs over. *)
Definition novel_warnings (classified_logs : frame) : frame :=
  drop_duplicates (pair_eqb String.eqb String.eqb) novel_key
                  (filter is_novel_warning classified_logs).

(** [identify_novel_anomalies]: the table of alerts, [None] when the
    call raises. *)
Definition identify_novel_anomalies `{Pandas} `{Config}
           (classified_logs : frame) (case_name : string)
  : option (list NovelAlert) :=
  match filter is_novel_warning classified_logs with
  | [] => Some []
  | _ =>
      let known_errors :=
        sort_values by_Timestamp true (filter is_known_error classified_logs) in
      match known_errors with
      | [] => Some []
      | _ =>
          match time_window with
          | None => None
          | Some time_window =>
              novel_loop (novel_alert_for known_errors (scenario_id case_name)
                                          time_window)
                         (novel_warnings classified_logs)
          end
      end
  end.

End Report.

(* ===================================================================== *)
(** ** processing/orchestrator.py : the primary correlation report       *)
(* ===================================================================== *)

Module Orchestrator.

Import Report.

(** A row of [output_df], the table written as the primary report. *)
Record ReportRow := {
  r_scenario_id : string;
  r_anomaly_id : Z;
  r_problem_id : Z;
  r_error_file_name : string;
  r_error_line_number : Z;
  r_error_log : string;
  r_anomaly_log : string
}.

(** The earliest classified error of every problem. *)
Definition error_details `{Pandas} (classified_logs : frame) : frame :=
  drop_duplicates Z.eqb final_problem_id
    (sort_values by_Timestamp true (filter is_known_error classified_logs)).

(** [error_map.get(pid)] *)
Definition error_map_get (error_details : frame) (pid : Z)
  : option ClassifiedLog :=
  find (fun e => (final_problem_id e =? pid)%Z) error_details.

(** The columns added to a warning from the error of its problem, and
    [dropna(subset=['error_log'])]: a warning whose problem has no
    error leaves the table. *)
Definition join_error (error_details : frame) (scenario : string)
           (w : ClassifiedLog) : list ReportRow :=
  match error_map_get error_details (final_problem_id w) with
  | Some e =>
      [ {| r_scenario_id := scenario;
           r_anomaly_id := final_anomaly_id w;
           r_problem_id := final_problem_id w;
           r_error_file_name := file_name e;
           r_error_line_number := line_number e;
           r_error_log := log e;
           r_anomaly_log := log w |} ]
  | None => []
  end.

(** The rows of [output_df] before the final ordering. *)
Definition report_rows `{Pandas} (classified_logs : frame)
           (case_name : string) : list ReportRow :=
  let reportable_warnings :=
    dedup_pairs (filter is_reportable_warning classified_logs) in
  flat_map (join_error (error_details classified_logs) (scenario_id case_name))
           reportable_warnings.

(** [re.search] of the timestamp pattern: its first occurrence. *)
Fixpoint search_timestamp (s : Text.str) : option Text.str :=
  match LogParser.match_shape LogParser.timestamp_shape s with
  | Some _ => Some (firstn 19 s)
  | None =>
      match s with
      | [] => None
      | _ :: s' => search_timestamp s'
      end
  end.

(** [extract_timestamp_for_sort]: the sort key of a row, NaT ([Some
    None]) when the log has no timestamp; [None] when the conversion of
    the matched text raises. *)
Definition extract_timestamp_for_sort `{Pandas} (log_str : string)
  : option (option Z) :=
  match search_timestamp (list_ascii_of_string log_str) with
  | Some t =>
      match to_datetime (string_of_list_ascii t) with
      | Some z => Some (Some z)
      | None => None
      end
  | None => Some None
  end.

Fixpoint sort_keys_of `{Pandas} (rows : list ReportRow)
  : option (list (ReportRow * option Z)) :=
  match rows with
  | [] => Some []
  | r :: rest =>
      match extract_timestamp_for_sort (r_anomaly_log r), sort_keys_of rest with
      | Some k, Some ks => Some ((r, k) :: ks)
      | _, _ => None
      end
  end.

(** The ordering by the timestamp found in the warning's log; an
    exception on the way leaves the rows as they are. *)
Definition order_rows `{Pandas} (rows : list ReportRow) : list ReportRow :=
  match sort_keys_of rows with
  | Some keyed => map fst (sort_values snd true keyed)
  | None => rows
  end.

(** The primary report of [run_full_analysis_from_zip_bytes]: [None]
    when no warning is reportable and no table is written. *)
Definition primary_report `{Pandas} (classified_logs : frame)
           (case_name : string) : option (list ReportRow) :=
  match filter is_reportable_warning classified_logs with
  | [] => None
  | _ => Some (order_rows (report_rows classified_logs case_name))
  end.

End Orchestrator.

(* ===================================================================== *)
(** ** A sort that meets the contract of [sort_values]                    *)
(* ===================================================================== *)

(** Insertion in front of the first row that is not smaller: rows with
    equal keys keep their order. *)
Fixpoint insert_stable {A : Type} (le : A -> A -> bool) (x : A) (l : list A)
  : list A :=
  match l with
  | [] => [x]
  | y :: l' => if le x y then x :: l else y :: insert_stable le x l'
  end.

Definition row_le {A : Type} (by_ : A -> option Z) (asc : bool) (x y : A)
  : bool := key_le asc (by_ x) (by_ y).

Definition stable_sort (A : Type) (by_ : A -> option Z) (asc : bool)
           (l : list A) : list A :=
  fold_right (insert_stable (row_le by_ asc)) [] l.

(** The conversion of the text [YYYY-MM-DDTHH:MM:SS] used in examples:
    the seconds of the time of day, for a text of that shape whose
    fields are in range; the date itself is not looked at. *)
Definition digit_value (c : ascii) : Z := Z.of_N (Text.code c) - 48.

Definition two_digits (s : Text.str) (i : nat) : Z :=
  10 * digit_value (nth i s "0"%char) + digit_value (nth (S i) s "0"%char).

Definition clock_seconds (t : string) : option Z :=
  let s := list_ascii_of_string t in
  match LogParser.match_shape LogParser.timestamp_shape s with
  | Some [] =>
      let h := two_digits s 11 in
      let m := two_digits s 14 in
      let sec := two_digits s 17 in
      if (h <? 24)%Z && (m <? 60)%Z && (sec <? 60)%Z
      then Some (3600 * h + 60 * m + sec)%Z
      else None
  | _ => None
  end.

(* ===================================================================== *)
(** ** Lists: duplicates, counting, sortedness                           *)
(* ===================================================================== *)

Section DropDuplicates.

Context {A K : Type}.
Variable eqb : K -> K -> bool.
Variable key : A -> K.
Hypothesis eqb_eq : forall a b, eqb a b = true <-> a = b.

Lemma existsb_eqb_In (k : K) (seen : list K) :
  existsb (eqb k) seen = true <-> In k seen.
Proof.
  rewrite existsb_exists. split.
  - intros [x [Hin Hx]]. apply eqb_eq in Hx. now subst.
  - intros Hin. exists k. split; [assumption | now apply eqb_eq].
Qed.

Lemma existsb_eqb_not_In (k : K) (seen : list K) :
  existsb (eqb k) seen = false <-> ~ In k seen.
Proof.
  rewrite <- existsb_eqb_In. destruct (existsb (eqb k) seen); intuition congruence.
Qed.

Lemma drop_duplicates_from_In (x : A) (l : list A) :
  forall seen,
    In x (drop_duplicates_from eqb key seen l) -> In x l /\ ~ In (key x) seen.
Proof.
  induction l as [|y l IH]; simpl; intros seen Hin; [contradiction|].
  destruct (existsb (eqb (key y)) seen) eqn:E.
  - apply IH in Hin. tauto.
  - destruct Hin as [-> | Hin].
    + split; [now left | now apply existsb_eqb_not_In].
    + apply IH in Hin. simpl in Hin. tauto.
Qed.

Lemma drop_duplicates_from_keys (l : list A) :
  forall seen x,
    In x l -> ~ In (key x) seen ->
    exists y, In y (drop_duplicates_from eqb key seen l) /\ key y = key x.
Proof.
  induction l as [|z l IH]; simpl; intros seen x Hin Hseen; [contradiction|].
  destruct (existsb (eqb (key z)) seen) eqn:E.
  - destruct Hin as [-> | Hin].
    + apply existsb_eqb_In in E. contradiction.
    + now apply IH.
  - destruct Hin as [-> | Hin].
    + exists x. split; [now left | reflexivity].
    + destruct (existsb (eqb (key x)) [key z]) eqn:Ez.
      * apply existsb_eqb_In in Ez. destruct Ez as [Ez | []].
        exists z. split; [now left | assumption].
      * apply existsb_eqb_not_In in Ez.
        destruct (IH (key z :: seen) x Hin) as [y [Hy Hk]].
        { simpl. simpl in Ez. tauto. }
        exists y. split; [now right | assumption].
Qed.

Lemma drop_duplicates_from_NoDup (l : list A) :
  forall seen, NoDup (map key (drop_duplicates_from eqb key seen l)).
Proof.
  induction l as [|z l IH]; simpl; intros seen; [constructor|].
  destruct (existsb (eqb (key z)) seen) eqn:E; [apply IH|].
  simpl. constructor; [|apply IH].
  intros Hin. apply in_map_iff in Hin. destruct Hin as [y [Hk Hy]].
  apply drop_duplicates_from_In in Hy. destruct Hy as [_ Hy].
  apply Hy. rewrite Hk. now left.
Qed.

(** A kept row is the first row of the frame with its key. *)
Lemma drop_duplicates_from_first (l : list A) :
  forall seen x,
    In x (drop_duplicates_from eqb key seen l) ->
    exists l1 l2, l = l1 ++ x :: l2 /\ forall y, In y l1 -> key y <> key x.
Proof.
  induction l as [|z l IH]; simpl; intros seen x Hin; [contradiction|].
  destruct (existsb (eqb (key z)) seen) eqn:E.
  - destruct (IH _ _ Hin) as [l1 [l2 [-> Hl1]]].
    exists (z :: l1), l2. split; [reflexivity|].
    intros y [<- | Hy]; [|now apply Hl1].
    apply existsb_eqb_In in E. intros Heq.
    apply drop_duplicates_from_In in Hin. destruct Hin as [_ Hin].
    apply Hin. now rewrite <- Heq.
  - destruct Hin as [-> | Hin].
    + exists [], l. split; [reflexivity | intros y []].
    + destruct (IH _ _ Hin) as [l1 [l2 [-> Hl1]]].
      exists (z :: l1), l2. split; [reflexivity|].
      intros y [<- | Hy]; [|now apply Hl1].
      apply drop_duplicates_from_In in Hin. destruct Hin as [_ Hin].
      intros Heq. apply Hin. rewrite <- Heq. now left.
Qed.

Lemma drop_duplicates_In (x : A) (l : list A) :
  In x (drop_duplicates eqb key l) -> In x l.
Proof. intros H. now apply drop_duplicates_from_In in H. Qed.

Lemma drop_duplicates_keys (x : A) (l : list A) :
  In x l -> exists y, In y (drop_duplicates eqb key l) /\ key y = key x.
Proof. intros H. apply drop_duplicates_from_keys; [assumption | intros []]. Qed.

Lemma drop_duplicates_NoDup (l : list A) :
  NoDup (map key (drop_duplicates eqb key l)).
Proof. apply drop_duplicates_from_NoDup. Qed.

Lemma drop_duplicates_first (x : A) (l : list A) :
  In x (drop_duplicates eqb key l) ->
  exists l1 l2, l = l1 ++ x :: l2 /\ forall y, In y l1 -> key y <> key x.
Proof. apply drop_duplicates_from_first. Qed.

(** The rows of a frame with distinct keys that carry a given key. *)
Lemma NoDup_keys_filter_length (p : A -> bool) (k : K) (l : list A) :
  NoDup (map key l) ->
  (forall x, In x l -> (p x = true <-> key x = k)) ->
  (length (filter p l) <= 1)%nat.
Proof.
  induction l as [|z l IH]; simpl; intros Hnd Hp; [lia|].
  inversion Hnd as [|? ? Hnotin Hnd']; subst.
  destruct (p z) eqn:Ez.
  - assert (Hnone : filter p l = []).
    { destruct (filter p l) as [|w ws] eqn:Ef; [reflexivity|].
      assert (Hw : In w (filter p l)) by (rewrite Ef; now left).
      apply filter_In in Hw. destruct Hw as [Hw Hpw].
      exfalso. apply Hnotin.
      apply (Hp w (or_intror Hw)) in Hpw.
      apply (Hp z (or_introl eq_refl)) in Ez.
      rewrite Ez, <- Hpw. now apply in_map. }
    rewrite Hnone. simpl. lia.
  - apply IH; [assumption | intros x Hx; apply Hp; now right].
Qed.

Lemma filter_length_one (p : A -> bool) (l : list A) (x : A) :
  In x l -> p x = true -> (length (filter p l) <= 1)%nat ->
  filter p l = [x].
Proof.
  intros Hin Hp Hlen.
  assert (Hx : In x (filter p l)) by (apply filter_In; tauto).
  destruct (filter p l) as [|a [|b r]]; simpl in *; try lia; try tauto.
  destruct Hx as [-> | []]. reflexivity.
Qed.

End DropDuplicates.

Section SortInstances.

Context {A : Type}.
Variable le : A -> A -> bool.
Hypothesis le_total : forall x y, le x y = true \/ le y x = true.
Hypothesis le_trans : forall x y z, le x y = true -> le y z = true -> le x z = true.

Let leP (x y : A) : Prop := le x y = true.

Lemma insert_stable_perm (x : A) (l : list A) :
  Permutation (x :: l) (insert_stable le x l).
Proof.
  induction l as [|y l IH]; simpl; [reflexivity|].
  destruct (le x y); [reflexivity|].
  rewrite perm_swap. now constructor.
Qed.

Lemma insert_stable_sorted (x : A) (l : list A) :
  StronglySorted leP l -> StronglySorted leP (insert_stable le x l).
Proof.
  induction 1 as [|y l Hs IH Hall]; simpl.
  - repeat constructor.
  - destruct (le x y) eqn:E.
    + constructor; [now constructor|].
      constructor; [exact E|].
      eapply Forall_impl; [|exact Hall]. intros z Hz. now apply (le_trans x y z).
    + constructor; [exact IH|].
      apply (Permutation_Forall (insert_stable_perm x l)).
      constructor; [|exact Hall].
      destruct (le_total x y) as [H | H]; [congruence | exact H].
Qed.

End SortInstances.

Lemma key_le_total (asc : bool) (a b : option Z) :
  key_le asc a b = true \/ key_le asc b a = true.
Proof.
  destruct a as [a|], b as [b|], asc; simpl; auto;
    destruct (Z.leb_spec a b), (Z.leb_spec b a); auto; lia.
Qed.

Lemma key_le_trans (asc : bool) (a b c : option Z) :
  key_le asc a b = true -> key_le asc b c = true -> key_le asc a c = true.
Proof.
  destruct a as [a|], b as [b|], c as [c|], asc; simpl; auto; try discriminate;
    rewrite ?Z.leb_le; lia.
Qed.

Lemma stable_sort_perm (A : Type) (by_ : A -> option Z) (asc : bool) (l : list A) :
  Permutation l (stable_sort A by_ asc l).
Proof.
  induction l as [|x l IH]; simpl; [reflexivity|].
  etransitivity; [|apply insert_stable_perm]. now constructor.
Qed.

Lemma stable_sort_sorted (A : Type) (by_ : A -> option Z) (asc : bool) (l : list A) :
  StronglySorted (fun x y => key_le asc (by_ x) (by_ y) = true)
                 (stable_sort A by_ asc l).
Proof.
  induction l as [|x l IH]; simpl; [constructor|].
  apply (insert_stable_sorted (row_le by_ asc)); [| |exact IH].
  - intros a b. apply key_le_total.
  - intros a b c. apply key_le_trans.
Qed.

(** The conversion of a column used in examples: each text on its own. *)
Definition clock_column (column : list (option string)) : list (option Z) :=
  map (fun o => match o with
                | Some t => clock_seconds t
                | None => None
                end) column.

Lemma clock_column_length (column : list (option string)) :
  length (clock_column column) = length column.
Proof. apply length_map. Qed.

Lemma exact_difference (t d r : Z) : Some (t - d)%Z = Some r -> r = (t - d)%Z.
Proof. congruence. Qed.

(** pandas with a stable sort, the conversions above, and a
    subtraction that never overflows. *)
Definition stable_pandas : Pandas :=
  {| sort_values := stable_sort;
     sort_values_perm := stable_sort_perm;
     sort_values_sorted := stable_sort_sorted;
     to_datetime := clock_seconds;
     to_datetime_coerce := clock_column;
     to_datetime_coerce_length := clock_column_length;
     sub_timedelta := fun t d => Some (t - d)%Z;
     sub_timedelta_eq := exact_difference |}.

Lemma pair_eqb_eq {A B : Type} (ea : A -> A -> bool) (eb : B -> B -> bool) :
  (forall a b, ea a b = true <-> a = b) ->
  (forall a b, eb a b = true <-> a = b) ->
  forall p q, pair_eqb ea eb p q = true <-> p = q.
Proof.
  intros Ha Hb [a1 b1] [a2 b2]. unfold pair_eqb. simpl.
  rewrite andb_true_iff, Ha, Hb. split.
  - intros [-> ->]. reflexivity.
  - intros H. inversion H. auto.
Qed.

Lemma zz_eqb_eq (p q : Z * Z) : pair_eqb Z.eqb Z.eqb p q = true <-> p = q.
Proof. apply pair_eqb_eq; apply Z.eqb_eq. Qed.

Lemma ss_eqb_eq (p q : string * string) :
  pair_eqb String.eqb String.eqb p q = true <-> p = q.
Proof. apply pair_eqb_eq; apply String.eqb_eq. Qed.

Lemma unique_In (x : Z) (l : list Z) : In x (unique l) <-> In x l.
Proof.
  unfold unique. split.
  - apply drop_duplicates_In. apply Z.eqb_eq.
  - intros H.
    destruct (drop_duplicates_keys Z.eqb (fun x => x) Z.eqb_eq x l H) as [y [Hy ->]].
    exact Hy.
Qed.

Lemma unique_NoDup (l : list Z) : NoDup (unique l).
Proof.
  unfold unique.
  rewrite <- (map_id (drop_duplicates Z.eqb (fun x => x) l)).
  apply (drop_duplicates_NoDup Z.eqb (fun x => x) Z.eqb_eq).
Qed.

Lemma sort_values_In `{Pandas} {A : Type} (by_ : A -> option Z) (asc : bool)
      (l : list A) (x : A) :
  In x (sort_values by_ asc l) <-> In x l.
Proof.
  split; apply Permutation_in;
    [symmetry|]; apply sort_values_perm.
Qed.

Lemma sort_values_nil `{Pandas} {A : Type} (by_ : A -> option Z) (asc : bool) :
  sort_values by_ asc (@nil A) = [].
Proof.
  apply Permutation_nil. apply sort_values_perm.
Qed.

Lemma sort_values_nonempty `{Pandas} {A : Type} (by_ : A -> option Z)
      (asc : bool) (l : list A) :
  l <> [] -> sort_values by_ asc l <> [].
Proof.
  intros Hl Hs. apply Hl. apply Permutation_nil.
  rewrite <- Hs. symmetry. apply sort_values_perm.
Qed.

(** The first row of a sorted frame has the least key. *)
Lemma sort_values_head_least `{Pandas} {A : Type} (col : A -> Z)
      (l : list A) (x : A) (rest : list A) :
  sort_values (fun r => Some (col r)) true l = x :: rest ->
  In x l /\ forall y, In y l -> (col x <= col y)%Z.
Proof.
  intros Hs. split.
  - apply (sort_values_In (fun r => Some (col r)) true). rewrite Hs. now left.
  - intros y Hy.
    apply (sort_values_In (fun r => Some (col r)) true) in Hy.
    pose proof (sort_values_sorted A (fun r => Some (col r)) true l) as Hsorted.
    rewrite Hs in Hsorted, Hy. inversion Hsorted as [|? ? _ Hall]; subst.
    destruct Hy as [<- | Hy]; [lia|].
    rewrite Forall_forall in Hall. specialize (Hall y Hy). simpl in Hall.
    now apply Z.leb_le.
Qed.

(** [l] is [names] with some of its elements left out. *)
Inductive chosen_from {A : Type} : list A -> list A -> Prop :=
| chosen_nil : chosen_from [] []
| chosen_skip x l names : chosen_from l names -> chosen_from l (x :: names)
| chosen_take x l names : chosen_from l names -> chosen_from (x :: l) (x :: names).

Lemma chosen_from_In {A : Type} (l names : list A) (x : A) :
  chosen_from l names -> In x l -> In x names.
Proof.
  induction 1 as [|y l names _ IH|y l names _ IH]; simpl; intros Hx.
  - contradiction.
  - right. now apply IH.
  - destruct Hx as [-> | Hx]; [now left | right; now apply IH].
Qed.

Lemma chosen_from_NoDup {A : Type} (l names : list A) :
  chosen_from l names -> NoDup names -> NoDup l.
Proof.
  induction 1 as [|y l names Hc IH|y l names Hc IH]; intros Hnd.
  - constructor.
  - inversion Hnd; subst. now apply IH.
  - inversion Hnd as [|? ? Hnotin Hnd']; subst. constructor; [|now apply IH].
    intros Hin. apply Hnotin. now apply (chosen_from_In l names).
Qed.

Lemma chosen_from_all {A : Type} (l : list A) : chosen_from l l.
Proof. induction l; constructor; assumption. Qed.




(* ===================================================================== *)
(** ** Properties of the report generator                                *)
(* ===================================================================== *)

Module ReportFacts.

Import KnowledgeBase Report.

Open Scope Z_scope.

Lemma is_known_error_iff (r : ClassifiedLog) :
  is_known_error r = true <-> Level r = "ERROR"%string /\ final_problem_id r <> 0.
Proof.
  unfold is_known_error.
  rewrite andb_true_iff, negb_true_iff, String.eqb_eq, Z.eqb_neq. tauto.
Qed.

Lemma is_reportable_warning_iff (r : ClassifiedLog) :
  is_reportable_warning r = true <->
  Level r = "WARNING"%string /\ final_problem_id r <> 0.
Proof.
  unfold is_reportable_warning.
  rewrite andb_true_iff, negb_true_iff, String.eqb_eq, Z.eqb_neq. tauto.
Qed.

Lemma is_novel_warning_iff (r : ClassifiedLog) :
  is_novel_warning r = true <->
  Level r = "WARNING"%string /\ final_problem_id r = 0.
Proof.
  unfold is_novel_warning.
  rewrite andb_true_iff, String.eqb_eq, Z.eqb_eq. tauto.
Qed.

Lemma is_warning_of_iff (p : Z) (r : ClassifiedLog) :
  is_warning_of p r = true <->
  Level r = "WARNING"%string /\ final_problem_id r = p.
Proof.
  unfold is_warning_of.
  rewrite andb_true_iff, String.eqb_eq, Z.eqb_eq. tauto.
Qed.

Lemma group_of_In (p : Z) (l : frame) (r : ClassifiedLog) :
  In r (group_of p l) <-> In r l /\ final_problem_id r = p.
Proof.
  unfold group_of. rewrite filter_In, Z.eqb_eq. tauto.
Qed.

Lemma dedup_pairs_In (l : frame) (r : ClassifiedLog) :
  In r (dedup_pairs l) -> In r l.
Proof. apply drop_duplicates_In. apply zz_eqb_eq. Qed.

Lemma dedup_pairs_keys (l : frame) (r : ClassifiedLog) :
  In r l -> exists k, In k (dedup_pairs l) /\ pair_key k = pair_key r.
Proof. apply drop_duplicates_keys. apply zz_eqb_eq. Qed.

(** The anomaly ids that already occurred for a problem are those of
    its warnings. *)
Lemma occurred_anomalies_In (logs : frame) (p a : Z) :
  In a (occurred_anomalies logs p) <->
  exists w, In w logs /\ Level w = "WARNING"%string
            /\ final_problem_id w = p /\ final_anomaly_id w = a.
Proof.
  unfold occurred_anomalies. rewrite unique_In, in_map_iff. split.
  - intros [w [Ha Hw]]. apply dedup_pairs_In in Hw.
    apply filter_In in Hw. destruct Hw as [Hw Hp].
    apply is_warning_of_iff in Hp. exists w. tauto.
  - intros [w [Hw [Hl [Hp Ha]]]].
    destruct (dedup_pairs_keys (filter (is_warning_of p) logs) w) as [k [Hk Hkey]].
    { apply filter_In. split; [assumption|]. now apply is_warning_of_iff. }
    exists k. split; [|assumption].
    unfold pair_key in Hkey. inversion Hkey. congruence.
Qed.

(** The trigger of a problem: the first row of its errors in time
    order. *)
Definition trigger_of `{Pandas} (detected_errors : frame) (p : Z)
  : option ClassifiedLog :=
  hd_error (sort_values by_Timestamp true (group_of p detected_errors)).

Definition alert_of (problems_kb : list ProblemEntry) (scenario : string)
           (p : Z) (trigger : ClassifiedLog) (row : AnomalyEntry)
  : PredictiveAlert :=
  {| pa_scenario_id := scenario;
     pa_trigger_problem_id := p;
     pa_problem_description := problem_text_of problems_kb p;
     pa_trigger_time := Timestamp trigger;
     pa_trigger_log := log trigger;
     pa_predicted_anomaly_id := anomaly_id row;
     pa_predicted_text := Anomaly_Text row |}.

(** The rows of the anomaly table that give an alert for a problem. *)
Definition missing_rows (logs : frame) (anomalies_kb : list AnomalyEntry)
           (p : Z) : list AnomalyEntry :=
  filter (fun row => negb (existsb (Z.eqb (anomaly_id row))
                                   (occurred_anomalies logs p)))
         (filter (fun a => a_problem_id a =? p) anomalies_kb).

Lemma flat_map_if_map {A B : Type} (c : A -> bool) (f : A -> B) (l : list A) :
  flat_map (fun x => if c x then [f x] else []) l = map f (filter c l).
Proof.
  induction l as [|x l IH]; simpl; [reflexivity|].
  destruct (c x); simpl; now rewrite IH.
Qed.

Lemma alerts_for_problem_eq `{Pandas} (logs detected : frame)
      (akb : list AnomalyEntry) (pkb : list ProblemEntry)
      (scenario : string) (p : Z) (trigger : ClassifiedLog) :
  trigger_of detected p = Some trigger ->
  alerts_for_problem logs detected akb pkb scenario p
  = Some (map (alert_of pkb scenario p trigger) (missing_rows logs akb p)).
Proof.
  unfold trigger_of, alerts_for_problem. intros Ht.
  destruct (sort_values by_Timestamp true (group_of p detected)) as [|t rest];
    [discriminate|].
  simpl in Ht. inversion Ht; subst. f_equal.
  unfold missing_rows. now rewrite <- flat_map_if_map.
Qed.

Lemma trigger_of_defined `{Pandas} (detected : frame) (p : Z) :
  In p (map final_problem_id detected) ->
  exists trigger, trigger_of detected p = Some trigger.
Proof.
  intros Hin. apply in_map_iff in Hin. destruct Hin as [e [Hp He]].
  unfold trigger_of.
  destruct (sort_values by_Timestamp true (group_of p detected)) as [|t rest] eqn:E.
  - exfalso. apply (sort_values_nonempty by_Timestamp true (group_of p detected));
      [|exact E].
    intros Hnil. assert (Hg : In e (group_of p detected)) by now apply group_of_In.
    rewrite Hnil in Hg. exact Hg.
  - now exists t.
Qed.

(** The trigger is an error of the problem, and none is earlier. *)
Lemma trigger_of_earliest `{Pandas} (logs : frame) (p : Z) (trigger : ClassifiedLog) :
  trigger_of (filter is_known_error logs) p = Some trigger ->
  In trigger logs /\ Level trigger = "ERROR"%string
  /\ final_problem_id trigger = p /\ p <> 0
  /\ forall e, In e logs -> Level e = "ERROR"%string ->
               final_problem_id e = p -> Timestamp trigger <= Timestamp e.
Proof.
  unfold trigger_of. intros Ht.
  destruct (sort_values by_Timestamp true
              (group_of p (filter is_known_error logs))) as [|t rest] eqn:E;
    [discriminate|].
  simpl in Ht. inversion Ht; subst t. clear Ht.
  apply (sort_values_head_least Timestamp) in E. destruct E as [Hin Hleast].
  apply group_of_In in Hin. destruct Hin as [Hin Hp].
  apply filter_In in Hin. destruct Hin as [Hin Hk].
  apply is_known_error_iff in Hk. destruct Hk as [Hl Hnz].
  repeat split; try assumption; try congruence.
  intros e He Hle Hpe. apply Hleast. apply group_of_In. split; [|assumption].
  apply filter_In. split; [assumption|]. apply is_known_error_iff. split; congruence.
Qed.

Lemma predictions_loop_eq (body : Z -> option (list PredictiveAlert))
      (f : Z -> list PredictiveAlert) (ids : list Z) :
  (forall p, In p ids -> body p = Some (f p)) ->
  predictions_loop body ids = Some (flat_map f ids).
Proof.
  induction ids as [|p ids IH]; simpl; intros Hb; [reflexivity|].
  rewrite (Hb p (or_introl eq_refl)).
  rewrite IH; [reflexivity|]. intros q Hq. apply Hb. now right.
Qed.

(** The alerts of a problem, with the trigger looked up (no alert for a
    problem without errors). *)
Definition alerts_of `{Pandas} (logs : frame) (akb : list AnomalyEntry)
           (pkb : list ProblemEntry) (scenario : string) (p : Z)
  : list PredictiveAlert :=
  match trigger_of (filter is_known_error logs) p with
  | Some trigger => map (alert_of pkb scenario p trigger) (missing_rows logs akb p)
  | None => []
  end.

(** The function never raises, and its table is the alerts of the
    problems of the classified errors, problem by problem. *)
Lemma generate_predictive_alerts_eq `{Pandas} (logs : frame)
      (akb : list AnomalyEntry) (pkb : list ProblemEntry) (case_name : string) :
  generate_predictive_alerts logs akb pkb case_name
  = Some (flat_map (alerts_of logs akb pkb (scenario_id case_name))
                   (unique (map final_problem_id (filter is_known_error logs)))).
Proof.
  unfold generate_predictive_alerts.
  destruct (filter is_known_error logs) as [|e0 es] eqn:E; [reflexivity|].
  rewrite <- E. apply predictions_loop_eq.
  intros p Hp. apply (proj1 (unique_In _ _)) in Hp.
  destruct (trigger_of_defined _ _ Hp) as [t Ht].
  unfold alerts_of. rewrite Ht. now apply alerts_for_problem_eq.
Qed.

(** C4.  [generate_predictive_alerts] returns a table, and each alert of
    it names an anomaly id that no WARNING record of the trigger problem
    carries, with the time and raw log of an ERROR record of that
    problem than which none is earlier; without a classified ERROR
    record the table is empty. *)
Theorem predictive_alerts_sound (pd : Pandas) (logs : frame)
        (akb : list AnomalyEntry) (pkb : list ProblemEntry) (case_name : string) :
  exists alerts,
    generate_predictive_alerts logs akb pkb case_name = Some alerts
    /\ (forall al, In al alerts ->
          (forall w, In w logs -> Level w = "WARNING"%string ->
                     final_problem_id w = pa_trigger_problem_id al ->
                     final_anomaly_id w <> pa_predicted_anomaly_id al)
          /\ exists e,
               In e logs /\ Level e = "ERROR"%string
               /\ final_problem_id e = pa_trigger_problem_id al
               /\ pa_trigger_problem_id al <> 0
               /\ (forall e', In e' logs -> Level e' = "ERROR"%string ->
                              final_problem_id e' = pa_trigger_problem_id al ->
                              Timestamp e <= Timestamp e')
               /\ pa_trigger_time al = Timestamp e
               /\ pa_trigger_log al = log e)
    /\ ((forall e, In e logs ->
                   ~ (Level e = "ERROR"%string /\ final_problem_id e <> 0)) ->
        alerts = []).
Proof.
  eexists. split; [apply generate_predictive_alerts_eq|]. split.
  - intros al Hal. apply in_flat_map in Hal. destruct Hal as [p [Hp Hal]].
    unfold alerts_of in Hal.
    destruct (trigger_of (filter is_known_error logs) p) as [t|] eqn:Et;
      [|contradiction].
    apply in_map_iff in Hal. destruct Hal as [row [<- Hrow]]. simpl.
    split.
    + intros w Hw Hl Hpw Ha.
      unfold missing_rows in Hrow. apply filter_In in Hrow.
      destruct Hrow as [_ Hno]. apply negb_true_iff in Hno.
      apply existsb_eqb_not_In in Hno; [|apply Z.eqb_eq].
      apply Hno. apply occurred_anomalies_In. exists w. tauto.
    + exists t. apply trigger_of_earliest in Et. tauto.
  - intros Hnone.
    assert (E : filter is_known_error logs = []).
    { destruct (filter is_known_error logs) as [|e es] eqn:E; [reflexivity|].
      assert (He : In e (filter is_known_error logs)) by (rewrite E; now left).
      apply filter_In in He. destruct He as [He Hk].
      apply is_known_error_iff in Hk. exfalso. now apply (Hnone e). }
    rewrite E. reflexivity.
Qed.


Lemma filter_map_length {A B : Type} (f : A -> B) (p : B -> bool) (l : list A) :
  length (filter p (map f l)) = length (filter (fun x => p (f x)) l).
Proof.
  induction l as [|x l IH]; simpl; [reflexivity|].
  destruct (p (f x)); simpl; now rewrite IH.
Qed.

Lemma filter_none {A : Type} (p : A -> bool) (l : list A) :
  (forall x, In x l -> p x = false) -> filter p l = [].
Proof.
  induction l as [|x l IH]; simpl; intros Hp; [reflexivity|].
  rewrite (Hp x (or_introl eq_refl)). apply IH. intros y Hy. apply Hp. now right.
Qed.

(** In a table built group by group from distinct keys, the rows a test
    selects from one group only are selected from the whole table. *)
Lemma filter_flat_map_single {A B : Type} (f : A -> list B) (p : B -> bool)
      (k : A) (ids : list A) :
  NoDup ids -> In k ids ->
  (forall q, In q ids -> q <> k -> filter p (f q) = []) ->
  filter p (flat_map f ids) = filter p (f k).
Proof.
  induction ids as [|q ids IH]; simpl; intros Hnd Hin Hother; [contradiction|].
  inversion Hnd as [|? ? Hnotin Hnd']; subst.
  rewrite filter_app. destruct Hin as [-> | Hin].
  - rewrite (filter_none p (flat_map f ids)); [apply app_nil_r|].
    intros b Hb. apply in_flat_map in Hb. destruct Hb as [q [Hq Hb]].
    assert (Hne : q <> k) by (intros ->; contradiction).
    pose proof (Hother q (or_intror Hq) Hne) as Hnil.
    destruct (p b) eqn:Ep; [|reflexivity].
    assert (Hf : In b (filter p (f q))) by (apply filter_In; tauto).
    rewrite Hnil in Hf. contradiction.
  - rewrite Hother; [|now left | intros ->; contradiction].
    simpl. apply IH; try assumption.
    intros q' Hq'. apply Hother. now right.
Qed.



Lemma alerts_of_trigger `{Pandas} (logs : frame) (akb : list AnomalyEntry)
      (pkb : list ProblemEntry) (scenario : string) (p : Z) (al : PredictiveAlert) :
  In al (alerts_of logs akb pkb scenario p) -> pa_trigger_problem_id al = p.
Proof.
  unfold alerts_of.
  destruct (trigger_of (filter is_known_error logs) p); [|contradiction].
  intros Hal. apply in_map_iff in Hal. destruct Hal as [row [<- _]]. reflexivity.
Qed.




Lemma last_row_Some (l : frame) (x : ClassifiedLog) :
  last_row l = Some x -> exists l', l = l' ++ [x].
Proof.
  unfold last_row. destruct (rev l) as [|y r] eqn:E; [discriminate|].
  intros Hx. inversion Hx; subst y. exists (rev r).
  rewrite <- (rev_involutive l), E. reflexivity.
Qed.

Lemma StronglySorted_filter_keep {A : Type} (R : A -> A -> Prop)
      (p : A -> bool) (l : list A) :
  StronglySorted R l -> StronglySorted R (filter p l).
Proof.
  induction 1 as [|x l Hs IH Hall]; simpl; [constructor|].
  destruct (p x); [|exact IH].
  constructor; [exact IH|].
  rewrite Forall_forall in *. intros y Hy. apply filter_In in Hy. now apply Hall.
Qed.


(** *** Novel anomalies *)

(** A WARNING record that no entry of the knowledge base matched. *)
Definition novel (w : ClassifiedLog) : Prop :=
  Level w = "WARNING"%string /\ final_problem_id w = 0.




Lemma potential_causes_In `{Pandas} (logs : frame) (lo hi : Z) (e : ClassifiedLog) :
  In e (potential_causes
          (sort_values by_Timestamp true (filter is_known_error logs)) lo hi)
  <-> In e logs /\ Level e = "ERROR"%string /\ final_problem_id e <> 0
      /\ lo <= Timestamp e <= hi.
Proof.
  unfold potential_causes.
  rewrite filter_In, sort_values_In, filter_In, is_known_error_iff,
    andb_true_iff, !Z.leb_le.
  tauto.
Qed.

Lemma timedelta_minutes_Some (m tw : Z) :
  timedelta_minutes m = Some tw <->
  -999999999 <= m / 1440 <= 999999999 /\ tw = 60 * m.
Proof.
  unfold timedelta_minutes. cbv zeta.
  destruct ((-999999999 <=? m / 1440) && (m / 1440 <=? 999999999)) eqn:E.
  - apply andb_true_iff in E. rewrite !Z.leb_le in E.
    split; [intros Ht; inversion Ht; tauto | intros [_ ->]; reflexivity].
  - apply andb_false_iff in E. rewrite !Z.leb_gt in E.
    split; [discriminate | intros [Hb _]; lia].
Qed.












Lemma insert_key_perm (k : Z) (l : list Z) : Permutation (k :: l) (insert_key k l).
Proof.
  induction l as [|x l IH]; simpl; [reflexivity|].
  destruct (k <=? x); [reflexivity|].
  rewrite perm_swap. now constructor.
Qed.

Lemma sort_keys_perm (l : list Z) : Permutation l (sort_keys l).
Proof.
  induction l as [|x l IH]; simpl; [reflexivity|].
  etransitivity; [|apply insert_key_perm]. now constructor.
Qed.

(** The two ways of counting distinct values agree. *)
Lemma drop_duplicates_length_nodup {A : Type} (eqb : A -> A -> bool)
      (dec : forall x y : A, {x = y} + {x <> y}) (l : list A) :
  (forall a b, eqb a b = true <-> a = b) ->
  length (drop_duplicates eqb (fun x => x) l) = length (nodup dec l).
Proof.
  intros Heq. apply Permutation_length. apply NoDup_Permutation.
  - rewrite <- (map_id (drop_duplicates eqb (fun x => x) l)).
    now apply (drop_duplicates_NoDup eqb (fun x => x)).
  - apply NoDup_nodup.
  - intros x. rewrite nodup_In. split.
    + now apply drop_duplicates_In.
    + intros H.
      destruct (drop_duplicates_keys eqb (fun x => x) Heq x l H) as [y [Hy ->]].
      exact Hy.
Qed.

Lemma nunique_nodup (l : list string) :
  nunique l = Z.of_nat (length (nodup string_dec l)).
Proof.
  unfold nunique. f_equal.
  apply drop_duplicates_length_nodup. apply String.eqb_eq.
Qed.

(** Among rows with distinct (anomaly, problem) pairs, those of one
    problem have distinct anomaly ids. *)
Lemma NoDup_pairs_group (p : Z) (l : frame) :
  NoDup (map pair_key l) -> NoDup (map final_anomaly_id (group_of p l)).
Proof.
  induction l as [|x l IH]; simpl; intros Hnd; [constructor|].
  inversion Hnd as [|? ? Hnotin Hnd']; subst.
  destruct (final_problem_id x =? p) eqn:E; simpl; [|now apply IH].
  constructor; [|now apply IH].
  intros Hin. apply in_map_iff in Hin. destruct Hin as [y [Ha Hy]].
  apply group_of_In in Hy. destruct Hy as [Hy Hp].
  apply Hnotin. apply in_map_iff. exists y. split; [|assumption].
  apply Z.eqb_eq in E. unfold pair_key. congruence.
Qed.

Definition deduplicated (logs : frame) : frame :=
  dedup_pairs (filter is_reportable_warning logs).

Lemma deduplicated_In (logs : frame) (r : ClassifiedLog) :
  In r (deduplicated logs) ->
  In r logs /\ Level r = "WARNING"%string /\ final_problem_id r <> 0.
Proof.
  intros H. apply dedup_pairs_In in H. apply filter_In in H.
  destruct H as [H Hr]. apply is_reportable_warning_iff in Hr. tauto.
Qed.

Lemma deduplicated_keys (logs : frame) (w : ClassifiedLog) :
  In w logs -> Level w = "WARNING"%string -> final_problem_id w <> 0 ->
  exists k, In k (deduplicated logs) /\ pair_key k = pair_key w.
Proof.
  intros Hw Hl Hp. apply dedup_pairs_keys. apply filter_In.
  split; [assumption|]. now apply is_reportable_warning_iff.
Qed.

(** The deduplicated rows of a problem are as many as the distinct
    anomaly ids of its warnings. *)
Lemma group_length_distinct_anomalies (logs : frame) (p : Z) :
  p <> 0 ->
  length (group_of p (deduplicated logs))
  = length (nodup Z.eq_dec
              (map final_anomaly_id (filter (is_warning_of p) logs))).
Proof.
  intros Hp.
  rewrite <- (length_map final_anomaly_id).
  apply Permutation_length. apply NoDup_Permutation.
  - apply NoDup_pairs_group. apply drop_duplicates_NoDup. apply zz_eqb_eq.
  - apply NoDup_nodup.
  - intros a. rewrite nodup_In, !in_map_iff. split.
    + intros [r [Ha Hr]]. apply group_of_In in Hr. destruct Hr as [Hr Hpr].
      apply deduplicated_In in Hr. exists r. split; [assumption|].
      apply filter_In. split; [tauto|]. apply is_warning_of_iff. tauto.
    + intros [w [Ha Hw]]. apply filter_In in Hw. destruct Hw as [Hw Hwp].
      apply is_warning_of_iff in Hwp. destruct Hwp as [Hl Hpw].
      destruct (deduplicated_keys logs w Hw Hl) as [k [Hk Hkey]]; [congruence|].
      unfold pair_key in Hkey. inversion Hkey.
      exists k. split; [congruence|]. apply group_of_In. split; [assumption | congruence].
Qed.

Definition impact_data (logs : frame) : list ImpactRow :=
  map with_impact_score (groupby_agg (deduplicated logs)).

Lemma calculate_impact_metrics_perm `{Pandas} (logs : frame) :
  Permutation (impact_data logs) (calculate_impact_metrics logs).
Proof.
  unfold calculate_impact_metrics, impact_data, deduplicated.
  destruct (filter is_reportable_warning logs) as [|w ws] eqn:E.
  - reflexivity.
  - apply sort_values_perm.
Qed.

Lemma calculate_impact_metrics_sorted `{Pandas} (logs : frame) :
  StronglySorted (fun a b => Impact_Score b <= Impact_Score a)
                 (calculate_impact_metrics logs).
Proof.
  unfold calculate_impact_metrics.
  destruct (filter is_reportable_warning logs) as [|w ws] eqn:E; [constructor|].
  pose proof (sort_values_sorted _ (fun r => Some (Impact_Score r)) false
                (map with_impact_score (groupby_agg (dedup_pairs (w :: ws))))) as Hs.
  eapply StronglySorted_ind with (P := fun l => StronglySorted _ l);
    [constructor | | exact Hs].
  intros a l _ IH Hall. constructor; [exact IH|].
  eapply Forall_impl; [|exact Hall]. intros b Hb. simpl in Hb. now apply Z.leb_le.
Qed.

Lemma impact_data_ids (logs : frame) :
  map impact_problem_id (impact_data logs)
  = sort_keys (unique (map final_problem_id (deduplicated logs))).
Proof.
  unfold impact_data, groupby_agg. rewrite !map_map. simpl. apply map_id.
Qed.

Lemma impact_data_row (logs : frame) (row : ImpactRow) :
  In row (impact_data logs) ->
  let g := group_of (impact_problem_id row) (deduplicated logs) in
  In (impact_problem_id row) (map final_problem_id (deduplicated logs))
  /\ anomaly_count row = Z.of_nat (length g)
  /\ unique_systems_affected row = nunique (map file_name g)
  /\ Impact_Score row = anomaly_count row * unique_systems_affected row.
Proof.
  unfold impact_data, groupby_agg. rewrite map_map. intros Hrow.
  apply in_map_iff in Hrow. destruct Hrow as [p [<- Hp]]. simpl.
  repeat split.
  apply (Permutation_in _ (Permutation_sym (sort_keys_perm _))) in Hp.
  now apply (proj1 (unique_In _ _)) in Hp.
Qed.

(** C2, as the code has it.  [calculate_impact_metrics] returns one row
    for each problem id that has a reportable WARNING; its
    [anomaly_count] is the number of deduplicated (anomaly, problem)
    pairs of the problem, which is the number of distinct anomaly ids of
    its warnings; [unique_systems_affected] is the number of distinct
    file names among those deduplicated rows; [Impact_Score] is their
    product and is not negative; and the rows come in descending order
    of [Impact_Score], rows of equal score following each other. *)
Theorem impact_metrics_spec (pd : Pandas) (logs : frame) :
  let out := calculate_impact_metrics logs in
  NoDup (map impact_problem_id out)
  /\ (forall p, In p (map impact_problem_id out) <->
                exists w, In w logs /\ Level w = "WARNING"%string
                          /\ final_problem_id w <> 0 /\ final_problem_id w = p)
  /\ (forall row, In row out ->
        let g := group_of (impact_problem_id row) (deduplicated logs) in
        anomaly_count row = Z.of_nat (length g)
        /\ anomaly_count row
           = Z.of_nat (length (nodup Z.eq_dec
                (map final_anomaly_id
                     (filter (is_warning_of (impact_problem_id row)) logs))))
        /\ unique_systems_affected row
           = Z.of_nat (length (nodup string_dec (map file_name g)))
        /\ Impact_Score row = anomaly_count row * unique_systems_affected row
        /\ 0 <= Impact_Score row)
  /\ StronglySorted (fun a b => Impact_Score b <= Impact_Score a) out.
Proof.
  intros out.
  pose proof (calculate_impact_metrics_perm logs) as Hperm. fold out in Hperm.
  assert (Hids : Permutation (unique (map final_problem_id (deduplicated logs)))
                             (map impact_problem_id out)).
  { etransitivity; [apply sort_keys_perm|].
    rewrite <- impact_data_ids. now apply Permutation_map. }
  split; [|split; [|split]].
  - apply (Permutation_NoDup Hids). apply unique_NoDup.
  - intros p. split.
    + intros Hp. apply (Permutation_in _ (Permutation_sym Hids)) in Hp.
      apply (proj1 (unique_In _ _)) in Hp.
      apply in_map_iff in Hp. destruct Hp as [r [Hr Hin]].
      apply deduplicated_In in Hin. exists r. tauto.
    + intros [w [Hw [Hl [Hnz Hp]]]].
      apply (Permutation_in _ Hids). apply unique_In.
      destruct (deduplicated_keys logs w Hw Hl Hnz) as [k [Hk Hkey]].
      apply in_map_iff. exists k. split; [|assumption].
      unfold pair_key in Hkey. inversion Hkey. congruence.
  - intros row Hrow g.
    apply (Permutation_in _ (Permutation_sym Hperm)) in Hrow.
    destruct (impact_data_row logs row Hrow) as [Hid [Hc [Hu Hs]]].
    fold g in Hc, Hu.
    assert (Hnz : impact_problem_id row <> 0).
    { apply in_map_iff in Hid. destruct Hid as [r [Hr Hin]].
      apply deduplicated_In in Hin. rewrite <- Hr. tauto. }
    split; [exact Hc|]. split.
    { rewrite Hc. f_equal. now apply group_length_distinct_anomalies. }
    split; [rewrite Hu; apply nunique_nodup|]. split; [exact Hs|].
    rewrite Hs, Hc, Hu. unfold nunique. apply Z.mul_nonneg_nonneg; apply Nat2Z.is_nonneg.
  - apply calculate_impact_metrics_sorted.
Qed.

(** Two problems, one warning each, in one file each. *)
Definition tied_logs : frame :=
  [ {| Timestamp := 1; Level := "WARNING"; Message := "disk latency high";
       file_name := "storage.txt"; line_number := 1;
       log := "2024-01-15T10:30:01 WARNING Disk: disk latency high";
       Generalized_Message := "disk latency high";
       final_anomaly_id := 1; final_problem_id := 10 |};
    {| Timestamp := 2; Level := "WARNING"; Message := "queue growing";
       file_name := "broker.txt"; line_number := 1;
       log := "2024-01-15T10:30:02 WARNING Queue: queue growing";
       Generalized_Message := "queue growing";
       final_anomaly_id := 2; final_problem_id := 20 |} ]%string.

(** C2, the counterexample: both incidents of [tied_logs] have impact
    score 1, so whatever order the sort gives them, the scores are not
    strictly descending. *)
Lemma impact_scores_tie :
  map Impact_Score (impact_data tied_logs) = [1; 1]
  /\ ~ exists pd : Pandas,
         StronglySorted (fun a b => Impact_Score a > Impact_Score b)
                        (@calculate_impact_metrics pd tied_logs).
Proof.
  split; [reflexivity|].
  intros [pd Hs].
  pose proof (@calculate_impact_metrics_perm pd tied_logs) as Hperm.
  apply (Permutation_map Impact_Score) in Hperm.
  change (map Impact_Score (impact_data tied_logs)) with [1; 1] in Hperm.
  apply Permutation_length_2_inv in Hperm.
  destruct (@calculate_impact_metrics pd tied_logs) as [|a [|b [|c l]]];
    simpl in Hperm; destruct Hperm as [Hperm | Hperm]; try discriminate.
  - inversion Hperm. inversion Hs as [|? ? _ Hall]; subst.
    inversion Hall; subst. lia.
  - inversion Hperm. inversion Hs as [|? ? _ Hall]; subst.
    inversion Hall; subst. lia.
Qed.

End ReportFacts.

(* ===================================================================== *)
(** ** Properties of the primary correlation report                      *)
(* ===================================================================== *)

Module OrchestratorFacts.

Import Report Orchestrator ReportFacts.

Open Scope Z_scope.

(** The frame is in time order, as the parser returns it. *)
Definition sorted_by_time (logs : frame) : Prop :=
  StronglySorted (fun a b => Timestamp a <= Timestamp b) logs.

Definition has_pair (w : ClassifiedLog) (r : ClassifiedLog) : bool :=
  pair_eqb Z.eqb Z.eqb (pair_key r) (pair_key w).

Definition row_of_pair (w : ClassifiedLog) (r : ReportRow) : bool :=
  (r_anomaly_id r =? final_anomaly_id w) && (r_problem_id r =? final_problem_id w).

Lemma StronglySorted_app_r {A : Type} (R : A -> A -> Prop) (l1 l2 : list A) :
  StronglySorted R (l1 ++ l2) -> StronglySorted R l2.
Proof.
  induction l1 as [|x l1 IH]; simpl; intros Hs; [exact Hs|].
  inversion Hs; subst. now apply IH.
Qed.

Lemma NoDup_map_same_key {A K : Type} (key : A -> K) (l : list A) (x y : A) :
  NoDup (map key l) -> In x l -> In y l -> key x = key y -> x = y.
Proof.
  induction l as [|z l IH]; simpl; intros Hnd Hx Hy Hk; [contradiction|].
  inversion Hnd as [|? ? Hnotin Hnd']; subst.
  destruct Hx as [-> | Hx], Hy as [-> | Hy]; try reflexivity.
  - exfalso. apply Hnotin. rewrite Hk. now apply in_map.
  - exfalso. apply Hnotin. rewrite <- Hk. now apply in_map.
  - now apply IH.
Qed.

Lemma Permutation_filter_keep {A : Type} (p : A -> bool) (l l' : list A) :
  Permutation l l' -> Permutation (filter p l) (filter p l').
Proof.
  induction 1 as [|x l l' _ IH|x y l|l l' l'' _ IH1 _ IH2]; simpl.
  - constructor.
  - destruct (p x); [now constructor | exact IH].
  - destruct (p x), (p y); try reflexivity. apply perm_swap.
  - now transitivity (filter p l').
Qed.

(** The row kept for a pair is its first occurrence, and in a frame in
    time order no occurrence is earlier. *)
Lemma deduplicated_earliest (logs : frame) (k : ClassifiedLog) :
  sorted_by_time logs ->
  In k (deduplicated logs) ->
  forall w', In w' logs -> is_reportable_warning w' = true ->
             pair_key w' = pair_key k -> Timestamp k <= Timestamp w'.
Proof.
  intros Hsorted Hk w' Hw' Hr Hkey.
  unfold deduplicated, dedup_pairs in Hk.
  destruct (drop_duplicates_first _ _ zz_eqb_eq _ _ Hk) as [l1 [l2 [Hl Hl1]]].
  assert (Hin : In w' (filter is_reportable_warning logs))
    by (apply filter_In; tauto).
  assert (Hs : StronglySorted (fun a b => Timestamp a <= Timestamp b)
                              (filter is_reportable_warning logs))
    by now apply StronglySorted_filter_keep.
  rewrite Hl in Hin, Hs. apply in_app_or in Hin.
  destruct Hin as [Hin | [<- | Hin]].
  - exfalso. now apply (Hl1 w').
  - lia.
  - apply StronglySorted_app_r in Hs. inversion Hs as [|? ? _ Hall]; subst.
    rewrite Forall_forall in Hall. now apply Hall.
Qed.

Lemma deduplicated_single (logs : frame) (w k : ClassifiedLog) :
  In k (deduplicated logs) -> pair_key k = pair_key w ->
  filter (has_pair w) (deduplicated logs) = [k].
Proof.
  intros Hk Hkey.
  apply (filter_length_one (has_pair w)); [assumption | |].
  - unfold has_pair. now apply zz_eqb_eq.
  - apply (NoDup_keys_filter_length pair_key (has_pair w) (pair_key w)).
    + apply drop_duplicates_NoDup. apply zz_eqb_eq.
    + intros x _. unfold has_pair. apply zz_eqb_eq.
Qed.

(** Whether the map of the first errors has an entry for a problem. *)
Lemma error_map_get_Some `{Pandas} (logs : frame) (p : Z) (e : ClassifiedLog) :
  In e logs -> Level e = "ERROR"%string -> final_problem_id e = p -> p <> 0 ->
  exists e0, error_map_get (error_details logs) p = Some e0.
Proof.
  intros He Hl Hp Hnz. unfold error_map_get, error_details.
  destruct (find _ _) as [e0|] eqn:E; [now exists e0|]. exfalso.
  assert (Hs : In e (sort_values by_Timestamp true (filter is_known_error logs))).
  { apply sort_values_In. apply filter_In. split; [assumption|].
    apply is_known_error_iff. split; congruence. }
  destruct (drop_duplicates_keys Z.eqb final_problem_id Z.eqb_eq _ _ Hs)
    as [y [Hy Hky]].
  pose proof (find_none _ _ E y Hy) as Hno. simpl in Hno.
  apply Z.eqb_neq in Hno. congruence.
Qed.

Lemma error_map_get_None `{Pandas} (logs : frame) (p : Z) :
  (forall e, In e logs -> Level e = "ERROR"%string -> final_problem_id e <> p) ->
  error_map_get (error_details logs) p = None.
Proof.
  intros Hno. unfold error_map_get, error_details.
  destruct (find _ _) as [e0|] eqn:E; [|reflexivity]. exfalso.
  apply find_some in E. destruct E as [Hin Hp]. apply Z.eqb_eq in Hp.
  apply drop_duplicates_In in Hin; [|apply Z.eqb_eq].
  apply sort_values_In in Hin. apply filter_In in Hin. destruct Hin as [Hin Hk].
  apply is_known_error_iff in Hk. now apply (Hno e0).
Qed.

Lemma sort_keys_of_fst `{Pandas} (rows : list ReportRow)
      (keyed : list (ReportRow * option Z)) :
  sort_keys_of rows = Some keyed -> map fst keyed = rows.
Proof.
  revert keyed. induction rows as [|r rows IH]; simpl; intros keyed Hk.
  - inversion Hk. reflexivity.
  - destruct (extract_timestamp_for_sort (r_anomaly_log r)) as [k|];
      [|discriminate].
    destruct (sort_keys_of rows) as [ks|]; [|discriminate].
    inversion Hk; subst. simpl. f_equal. now apply IH.
Qed.

(** The final ordering rearranges the rows and does nothing else. *)
Lemma order_rows_perm `{Pandas} (rows : list ReportRow) :
  Permutation rows (order_rows rows).
Proof.
  unfold order_rows. destruct (sort_keys_of rows) as [keyed|] eqn:E;
    [|reflexivity].
  rewrite <- (sort_keys_of_fst _ _ E) at 1.
  apply Permutation_map. apply sort_values_perm.
Qed.

Lemma join_error_rows (ed : frame) (scenario : string) (d : ClassifiedLog)
      (r : ReportRow) :
  In r (join_error ed scenario d) ->
  r_anomaly_id r = final_anomaly_id d /\ r_problem_id r = final_problem_id d
  /\ r_anomaly_log r = log d.
Proof.
  unfold join_error. destruct (error_map_get ed (final_problem_id d));
    [|contradiction].
  intros [<- | []]. auto.
Qed.

(** The rows of the report for the pair of [w] are those joined to the
    one row kept for the pair. *)
Lemma report_rows_of_pair `{Pandas} (logs : frame) (case_name : string)
      (w k : ClassifiedLog) :
  In k (deduplicated logs) -> pair_key k = pair_key w ->
  filter (row_of_pair w) (report_rows logs case_name)
  = join_error (error_details logs) (scenario_id case_name) k.
Proof.
  intros Hk Hkey. unfold report_rows. fold (deduplicated logs).
  assert (Hnd : NoDup (map pair_key (deduplicated logs)))
    by (apply drop_duplicates_NoDup; apply zz_eqb_eq).
  rewrite (filter_flat_map_single _ _ k); try assumption.
  - unfold join_error.
    destruct (error_map_get (error_details logs) (final_problem_id k));
      [|reflexivity].
    simpl. unfold row_of_pair. simpl.
    unfold pair_key in Hkey. inversion Hkey as [[Ha Hp]].
    now rewrite !Z.eqb_refl.
  - now apply NoDup_map_inv in Hnd.
  - intros q Hq Hne. apply filter_none. intros r Hr.
    apply join_error_rows in Hr. destruct Hr as [Ha [Hp _]].
    unfold row_of_pair. rewrite Ha, Hp.
    destruct ((final_anomaly_id q =? final_anomaly_id w)
              && (final_problem_id q =? final_problem_id w)) eqn:E; [|reflexivity].
    exfalso. apply Hne. apply andb_true_iff in E. rewrite !Z.eqb_eq in E.
    apply (NoDup_map_same_key pair_key (deduplicated logs)); try assumption.
    rewrite Hkey. unfold pair_key. now f_equal.
Qed.

(** C1, as the code has it.  In a frame in time order, a reportable
    WARNING has exactly one row with its (anomaly, problem) pair among
    the deduplicated warnings, an occurrence of the pair than which none
    is earlier.  The primary report has exactly one row for the pair,
    with the raw log of that occurrence, when the problem has an ERROR
    record, and no row for the pair when it has none. *)
Theorem primary_report_dedup (pd : Pandas) (logs : frame) (case_name : string)
        (w : ClassifiedLog) :
  sorted_by_time logs ->
  In w logs -> Level w = "WARNING"%string -> final_problem_id w <> 0 ->
  exists k rows,
    filter (has_pair w) (deduplicated logs) = [k]
    /\ In k logs /\ Level k = "WARNING"%string /\ pair_key k = pair_key w
    /\ (forall w', In w' logs -> Level w' = "WARNING"%string ->
                   pair_key w' = pair_key w -> Timestamp k <= Timestamp w')
    /\ primary_report logs case_name = Some rows
    /\ ((exists e, In e logs /\ Level e = "ERROR"%string
                   /\ final_problem_id e = final_problem_id w) ->
        exists r, filter (row_of_pair w) rows = [r] /\ r_anomaly_log r = log k)
    /\ ((forall e, In e logs -> Level e = "ERROR"%string ->
                   final_problem_id e <> final_problem_id w) ->
        filter (row_of_pair w) rows = []).
Proof.
  intros Hsorted Hw Hl Hnz.
  destruct (deduplicated_keys logs w Hw Hl Hnz) as [k [Hk Hkey]].
  exists k, (order_rows (report_rows logs case_name)).
  pose proof (deduplicated_In logs k Hk) as [Hkin [Hkl Hknz]].
  split; [now apply deduplicated_single|].
  split; [assumption|]. split; [assumption|]. split; [assumption|].
  split.
  { intros w' Hw' Hl' Hkey'. apply (deduplicated_earliest logs); try assumption.
    - apply is_reportable_warning_iff. split; [assumption|].
      unfold pair_key in Hkey'. inversion Hkey'. congruence.
    - congruence. }
  split.
  { unfold primary_report.
    destruct (filter is_reportable_warning logs) as [|x xs] eqn:E; [|reflexivity].
    exfalso. assert (Hin : In w (filter is_reportable_warning logs)).
    { apply filter_In. split; [assumption|]. now apply is_reportable_warning_iff. }
    rewrite E in Hin. exact Hin. }
  assert (Hp : final_problem_id k = final_problem_id w)
    by (unfold pair_key in Hkey; now inversion Hkey).
  pose proof (Permutation_filter_keep (row_of_pair w) _ _
                (order_rows_perm (report_rows logs case_name))) as Hperm.
  rewrite (report_rows_of_pair logs case_name w k Hk Hkey) in Hperm.
  unfold join_error in Hperm. split.
  - intros [e [He [Hle Hpe]]].
    destruct (error_map_get_Some logs (final_problem_id k) e) as [e0 He0];
      try congruence.
    rewrite He0 in Hperm. apply Permutation_length_1_inv in Hperm.
    eexists. split; [exact Hperm | reflexivity].
  - intros Hno. rewrite error_map_get_None in Hperm.
    + now apply Permutation_nil in Hperm.
    + intros e He Hle. rewrite Hp. now apply Hno.
Qed.

(** The same warning twice, one second apart, and no error. *)
Definition repeated_warning : frame :=
  [ {| Timestamp := 1; Level := "WARNING"; Message := "disk latency high";
       file_name := "storage.txt"; line_number := 1;
       log := "2024-01-15T10:30:01 WARNING Disk: disk latency high";
       Generalized_Message := "disk latency high";
       final_anomaly_id := 1; final_problem_id := 10 |};
    {| Timestamp := 2; Level := "WARNING"; Message := "disk latency high";
       file_name := "storage.txt"; line_number := 2;
       log := "2024-01-15T10:30:02 WARNING Disk: disk latency high";
       Generalized_Message := "disk latency high";
       final_anomaly_id := 1; final_problem_id := 10 |} ]%string.

(** C1, the counterexample: two reportable warnings with the same pair
    and different timestamps, in time order, whose problem has no ERROR
    record; the deduplication keeps the first, and the report is written
    with no row at all. *)
Lemma primary_report_without_error :
  sorted_by_time repeated_warning
  /\ map is_reportable_warning repeated_warning = [true; true]
  /\ map pair_key repeated_warning = [(1, 10); (1, 10)]
  /\ map Timestamp (deduplicated repeated_warning) = [1]
  /\ forall pd : Pandas,
       @primary_report pd repeated_warning "case_1" = Some [].
Proof.
  split.
  { repeat constructor; simpl; lia. }
  split; [reflexivity|]. split; [reflexivity|]. split; [reflexivity|].
  intros pd. unfold primary_report, report_rows, error_details. simpl.
  rewrite sort_values_nil. simpl.
  unfold order_rows. simpl. now rewrite sort_values_nil.
Qed.

End OrchestratorFacts.

(* ===================================================================== *)
(** ** Properties of the knowledge-base loader                           *)
(* ===================================================================== *)

Module LoaderFacts.

Import KnowledgeBase.

Open Scope string_scope.

Definition supported_extensions : list string := [".csv"; ".xlsx"; ".xls"].

(** The rows the reader chosen for a supported extension returns. *)
Definition reader_rows `{FileSystem} (kb_path ext : string)
  : option (list KbRow) :=
  if String.eqb ext ".csv" then read_csv kb_path
  else read_excel kb_path
         (if String.eqb ext ".xlsx" then Some "openpyxl" else None).

Lemma supported_extensions_In (ext : string) :
  In ext supported_extensions <->
  String.eqb ext ".csv" = true
  \/ (String.eqb ext ".xlsx" || String.eqb ext ".xls") = true.
Proof.
  unfold supported_extensions. simpl.
  rewrite orb_true_iff, !String.eqb_eq. intuition congruence.
Qed.

End LoaderFacts.

(* ===================================================================== *)
(** ** Properties of the log parser                                      *)
(* ===================================================================== *)

Module ParserFacts.

Import Text LogParser.

Open Scope Z_scope.

(** The collected records that keep a timestamp, with it. *)
Definition dated_logs `{Pandas} (files : list log_file) : list (Z * RawLog) :=
  dropna_timestamp (to_datetime_coerce (map raw_Timestamp (collect files)))
                   (collect files).

Lemma dropna_timestamp_nil (stamps : list (option Z)) :
  dropna_timestamp stamps [] = [].
Proof. destruct stamps as [|[z|] stamps]; reflexivity. Qed.

Lemma process_all_logs_for_case_eq `{Pandas} (files : list log_file) :
  process_all_logs_for_case files
  = map to_record (sort_values (fun d => Some (fst d)) true (dated_logs files)).
Proof.
  unfold process_all_logs_for_case, dated_logs.
  destruct (collect files) as [|r rs] eqn:E; [|reflexivity].
  rewrite dropna_timestamp_nil. simpl. now rewrite sort_values_nil.
Qed.

Lemma StronglySorted_map {A B : Type} (f : A -> B) (R : B -> B -> Prop)
      (l : list A) :
  StronglySorted (fun x y => R (f x) (f y)) l -> StronglySorted R (map f l).
Proof.
  induction 1 as [|x l Hs IH Hall]; simpl; constructor; [exact IH|].
  rewrite Forall_forall in *. intros y Hy. apply in_map_iff in Hy.
  destruct Hy as [z [<- Hz]]. now apply Hall.
Qed.

(** The frame [process_all_logs_for_case] returns is in ascending
    order of [Timestamp], and its rows are the collected records that
    keep a timestamp, rearranged. *)
Lemma parsed_logs_ascending `{Pandas} (files : list log_file) :
  let out := process_all_logs_for_case files in
  StronglySorted (fun a b => Timestamp a <= Timestamp b) out
  /\ Permutation (map to_record (dated_logs files)) out.
Proof.
  intros out. unfold out. rewrite process_all_logs_for_case_eq. split.
  - apply StronglySorted_map.
    pose proof (sort_values_sorted _ (fun d : Z * RawLog => Some (fst d)) true
                  (dated_logs files)) as Hs.
    induction Hs as [|x l Hs IH Hall]; constructor; [exact IH|].
    eapply Forall_impl; [|exact Hall]. intros y Hy. simpl in *.
    now apply Z.leb_le.
  - apply Permutation_map. apply sort_values_perm.
Qed.

(** Two records of the same second, on lines 1 and 2 of one file. *)
Definition same_second : list log_file :=
  [ ("app.txt",
     [ "2024-01-15T10:30:45 ERROR Database: connection timeout";
       "2024-01-15T10:30:45 WARNING Pool: no free connection" ]) ]%string.

Example parse_log_line_match :
  parse_log_line "2024-01-15T10:30:45 ERROR Database: Connection timeout"
  = (Some "2024-01-15T10:30:45", "ERROR", "Database", "Connection timeout")%string.
Proof. vm_compute. reflexivity. Qed.

Example parse_log_line_no_match :
  parse_log_line "not a log line"
  = (None, "UNKNOWN", "UNKNOWN", "not a log line")%string.
Proof. vm_compute. reflexivity. Qed.

Example info_line_skipped :
  scan_line "app.txt" 0 "2024-01-15T10:30:45 INFO Database: pool resized" = None.
Proof. vm_compute. reflexivity. Qed.

(** An ERROR line whose message mentions INFO between blanks. *)
Definition error_mentioning_info : string :=
  "2024-01-15T10:30:45 ERROR Database: replica sent INFO packet during failover".

(** What decides whether a line is kept. *)
Lemma scan_line_Some_iff (filename : string) (i : Z) (line : string) :
  (exists r, scan_line filename i line = Some r) <->
  str_strip line <> ""%string
  /\ contains (tok " INFO ") (list_ascii_of_string (str_strip line)) = false
  /\ is_warning_or_error (snd (fst (fst (parse_log_line (str_strip line))))) = true.
Proof.
  unfold scan_line.
  destruct (String.eqb (str_strip line) "") eqn:Ee; simpl.
  - apply String.eqb_eq in Ee. split; [intros [r Hr]; discriminate | tauto].
  - apply String.eqb_neq in Ee.
    destruct (contains _ _) eqn:Ec.
    + split; [intros [r Hr]; discriminate | intros [_ [H _]]; discriminate].
    + destruct (parse_log_line (str_strip line)) as [[[t l] c] m]. simpl.
      destruct (is_warning_or_error l).
      * split; [tauto | intros _; eexists; reflexivity].
      * split; [intros [r Hr]; discriminate | intros [_ [_ H]]; discriminate].
Qed.

(** C7, the code on a line it should keep: the line parses with level
    ERROR and a timestamp that is a date, and it is dropped, because the
    text " INFO " occurs in its message. *)
Theorem error_line_mentioning_info_dropped :
  parse_log_line error_mentioning_info
  = (Some "2024-01-15T10:30:45", "ERROR", "Database",
     "replica sent INFO packet during failover")%string
  /\ clock_seconds "2024-01-15T10:30:45" = Some 37845
  /\ scan_line "app.txt" 0 error_mentioning_info = None
  /\ forall pd : Pandas,
       @process_all_logs_for_case pd [("app.txt"%string, [error_mentioning_info])]
       = [].
Proof.
  split; [vm_compute; reflexivity|].
  split; [vm_compute; reflexivity|].
  split; [vm_compute; reflexivity|].
  intros pd. unfold process_all_logs_for_case.
  replace (collect [("app.txt"%string, [error_mentioning_info])]) with (@nil RawLog)
    by (vm_compute; reflexivity).
  reflexivity.
Qed.

End ParserFacts.

(* ===================================================================== *)
(** ** The statements above on a small incident                          *)
(* ===================================================================== *)

Module Incident.

Import KnowledgeBase Report Orchestrator ReportFacts OrchestratorFacts.

Open Scope Z_scope.
Open Scope string_scope.

Definition record (t : Z) (level file : string) (line : Z) (text : string)
           (anomaly problem : Z) : ClassifiedLog :=
  {| Timestamp := t; Level := level; Message := text;
     file_name := file; line_number := line;
     log := "2024-01-15T10:30:0" ++ String (ascii_of_N (48 + Z.to_N t)) ""
            ++ " " ++ level ++ " Db: " ++ text;
     Generalized_Message := text;
     final_anomaly_id := anomaly; final_problem_id := problem |}.

Definition second_occurrence : ClassifiedLog :=
  record 2 "WARNING" "db.txt" 3 "pool exhausted" 1 10.

(** Two errors of problem 10 (the second a repeat) and three warnings
    of it: anomaly 1 twice, anomaly 2 once. *)
Definition incident_logs : frame :=
  [ record 0 "ERROR" "db.txt" 1 "connection timeout" 0 10;
    record 1 "WARNING" "db.txt" 2 "pool exhausted" 1 10;
    second_occurrence;
    record 3 "WARNING" "api.txt" 1 "slow response" 2 10;
    record 5 "ERROR" "db.txt" 4 "connection timeout" 0 10 ].

Definition incident_anomalies : list AnomalyEntry :=
  [ {| anomaly_id := 1; a_problem_id := 10;
       Generalized_Anomaly := "pool exhausted";
       Anomaly_Text := TextCell "Pool exhausted" |};
    {| anomaly_id := 3; a_problem_id := 10;
       Generalized_Anomaly := "replica lag";
       Anomaly_Text := TextCell "Replica lag" |};
    {| anomaly_id := 3; a_problem_id := 10;
       Generalized_Anomaly := "replica lag";
       Anomaly_Text := TextCell "Replica lag" |} ].

Definition incident_problems : list ProblemEntry :=
  [ {| problem_id := 10; Generalized_Problem := "connection timeout";
       Problem_Text := TextCell "Connection timeout" |} ].

Example incident_report :
  option_map (map (fun r => (r_anomaly_id r, r_problem_id r, r_error_line_number r)))
             (@primary_report stable_pandas incident_logs "case_13")
  = Some [(1, 10, 1); (2, 10, 1)].
Proof. vm_compute. reflexivity. Qed.

Example incident_impact :
  @calculate_impact_metrics stable_pandas incident_logs
  = [ {| impact_problem_id := 10; anomaly_count := 2;
         unique_systems_affected := 2; Impact_Score := 4 |} ].
Proof. vm_compute. reflexivity. Qed.

(** C1 on the incident, for the second occurrence of anomaly 1: the
    first occurrence is kept and gives the one row of the pair. *)
Lemma primary_report_dedup_witness :
  sorted_by_time incident_logs
  /\ exists k rows,
       filter (has_pair second_occurrence) (deduplicated incident_logs) = [k]
       /\ (forall w', In w' incident_logs -> Level w' = "WARNING" ->
                      pair_key w' = pair_key second_occurrence ->
                      Timestamp k <= Timestamp w')
       /\ @primary_report stable_pandas incident_logs "case_13" = Some rows
       /\ exists r, filter (row_of_pair second_occurrence) rows = [r]
                    /\ r_anomaly_log r = log k.
Proof.
  assert (Hs : sorted_by_time incident_logs).
  { repeat constructor; simpl; lia. }
  split; [exact Hs|].
  destruct (primary_report_dedup stable_pandas incident_logs "case_13"
              second_occurrence Hs)
    as [k [rows [H1 [_ [_ [_ [H2 [H3 [H4 _]]]]]]]]].
  - simpl. tauto.
  - reflexivity.
  - simpl. discriminate.
  - exists k, rows. repeat split; try assumption.
    apply H4. eexists. split; [left; reflexivity|]. split; reflexivity.
Defined.


End Incident.

(* ===================================================================== *)
(** ** Properties of the text generaliser                                *)
(* ===================================================================== *)

Module TextFacts.

Import Text.

Ltac each_char c :=
  destruct c as [[] [] [] [] [] [] [] []]; vm_compute; try reflexivity;
  try discriminate; auto.

Lemma digit_is_word (c : ascii) : is_digit c = true -> is_word c = true.
Proof. each_char c. Qed.

Lemma space_not_word (c : ascii) : is_space c = true -> is_word c = false.
Proof. each_char c. Qed.

Lemma lower_char_idem (c : ascii) : lower_char (lower_char c) = lower_char c.
Proof. each_char c. Qed.

Lemma blank_is_space (c : ascii) : c = " "%char -> is_space c = true.
Proof. intros ->. reflexivity. Qed.

Lemma not_punct_cases (c : ascii) :
  is_punct c = false -> is_word c = true \/ is_space c = true.
Proof.
  unfold is_punct. rewrite negb_false_iff, orb_true_iff. tauto.
Qed.

(** *** [re.sub] in steps of one match *)

(** The character before the position reached after [k] more
    characters. *)
Definition prev_after (prev : option ascii) (k : nat) (s : str)
  : option ascii :=
  match k with
  | O => prev
  | S k' => nth_error s k'
  end.

Lemma re_sub_from_skip (m : matcher) (repl : str) (s : str) :
  forall prev k,
    re_sub_from m repl prev k s
    = re_sub_from m repl (prev_after prev k s) 0 (skipn k s).
Proof.
  induction s as [|c s IH]; intros prev k.
  - destruct k; reflexivity.
  - destruct k as [|k]; [reflexivity|].
    simpl re_sub_from at 1. rewrite IH. destruct k; reflexivity.
Qed.

Lemma re_sub_copy (m : matcher) (repl : str) (prev : option ascii)
      (c : ascii) (s : str) :
  m prev (c :: s) = None ->
  re_sub_from m repl prev 0 (c :: s) = c :: re_sub_from m repl (Some c) 0 s.
Proof. intros H. simpl. now rewrite H. Qed.

Lemma re_sub_match (m : matcher) (repl : str) (prev : option ascii)
      (s : str) (k : nat) :
  s <> [] -> m prev s = Some (S k) ->
  re_sub_from m repl prev 0 s
  = repl ++ re_sub_from m repl (nth_error s k) 0 (skipn (S k) s).
Proof.
  destruct s as [|c s]; [congruence|]. intros _ H. simpl re_sub_from.
  rewrite H. f_equal. rewrite re_sub_from_skip. destruct k; reflexivity.
Qed.

(** A pattern is quiet on a text when it matches at no position. *)
Fixpoint quiet (m : matcher) (prev : option ascii) (s : str) : Prop :=
  match s with
  | [] => True
  | c :: s' => m prev s = None /\ quiet m (Some c) s'
  end.

Lemma re_sub_from_quiet (m : matcher) (repl : str) (s : str) :
  forall prev, quiet m prev s -> re_sub_from m repl prev 0 s = s.
Proof.
  induction s as [|c s IH]; intros prev Hq; [reflexivity|].
  destruct Hq as [Hm Hq]. rewrite re_sub_copy by assumption.
  f_equal. now apply IH.
Qed.

(** Every character of the result is a character of the text or of the
    replacement. *)
Lemma re_sub_from_Forall (P : ascii -> Prop) (m : matcher) (repl : str)
      (s : str) :
  Forall P repl -> Forall P s ->
  forall prev k, Forall P (re_sub_from m repl prev k s).
Proof.
  intros Hr Hs. induction Hs as [|c s Hc Hs IH]; intros prev k; simpl;
    [constructor|].
  destruct k as [|k]; [|apply IH].
  destruct (m prev (c :: s)) as [[|n]|].
  - constructor; [assumption | apply IH].
  - apply Forall_app. split; [assumption | apply IH].
  - constructor; [assumption | apply IH].
Qed.

(** The patterns never match the empty string. *)
Definition productive (m : matcher) : Prop :=
  forall prev s, m prev s <> Some 0.

Lemma match_hex_productive : productive match_hex.
Proof.
  intros prev s. unfold match_hex.
  destruct s as [|a [|b s]]; try discriminate;
    destruct (Ascii.eqb_spec a "0"); subst; try discriminate;
    try (destruct a as [[] [] [] [] [] [] [] []]; try discriminate; congruence).
  destruct (Ascii.eqb_spec b "x"); subst.
  - destruct (1 <=? span_len is_hex s); discriminate.
  - destruct b as [[] [] [] [] [] [] [] []]; try discriminate; congruence.
Qed.

Lemma match_number_productive : productive match_number.
Proof.
  intros prev s. unfold match_number.
  destruct (1 <=? span_len is_digit s) eqn:E; simpl; [|discriminate].
  apply Nat.leb_le in E.
  destruct (word_boundary prev (hd_error s)
            && word_boundary (nth_error s (span_len is_digit s - 1))
                             (nth_error s (span_len is_digit s)));
    [|discriminate].
  intros H. inversion H. lia.
Qed.

Lemma match_ws_productive : productive match_ws.
Proof.
  intros prev s. unfold match_ws.
  destruct (1 <=? span_len is_space s) eqn:E; [|discriminate].
  apply Nat.leb_le in E. intros H. inversion H. lia.
Qed.

Lemma match_punct_productive : productive match_punct.
Proof.
  intros prev [|c s]; simpl; [discriminate|].
  destruct (is_punct c); discriminate.
Qed.

Lemma match_path_productive : productive match_path.
Proof.
  intros prev s. unfold match_path.
  destruct s as [|a s]; [discriminate|].
  destruct (Ascii.eqb_spec a "/"); subst.
  - simpl. discriminate.
  - destruct a as [[] [] [] [] [] [] [] []]; try discriminate; congruence.
Qed.

Lemma match_octets_eq (k : nat) (s : str) :
  match_octets k s
  = let n := span_len is_digit s in
    if (1 <=? n) && (n <=? 3) then
      match k with
      | O =>
          if word_boundary (nth_error s (n - 1)) (nth_error s n)
          then Some n else None
      | S k' =>
          match skipn n s with
          | "."%char :: s' =>
              match match_octets k' s' with
              | Some r => Some (n + 1 + r)
              | None => None
              end
          | _ => None
          end
      end
    else None.
Proof. destruct k; reflexivity. Qed.

Lemma match_octets_productive (k : nat) (s : str) : match_octets k s <> Some 0.
Proof.
  rewrite match_octets_eq. cbv zeta.
  destruct (1 <=? span_len is_digit s) eqn:E; [|discriminate].
  apply Nat.leb_le in E.
  destruct (span_len is_digit s <=? 3); [|discriminate]. cbn [andb].
  destruct k.
  - destruct (word_boundary _ _); [|discriminate].
    intros H. inversion H. lia.
  - destruct (skipn (span_len is_digit s) s) as [|d r]; [discriminate|].
    destruct (Ascii.eqb_spec d "."); subst.
    + destruct (match_octets k r); [|discriminate]. intros H. inversion H. lia.
    + destruct d as [[] [] [] [] [] [] [] []]; try discriminate; congruence.
Qed.

Lemma match_ip_productive : productive match_ip.
Proof.
  intros prev s. unfold match_ip.
  destruct (word_boundary prev (hd_error s)); [|discriminate].
  apply match_octets_productive.
Qed.

(** The two cases of one step of the scan. *)
Lemma re_sub_cases (m : matcher) (repl : str) (prev : option ascii)
      (c : ascii) (s : str) :
  productive m ->
  (m prev (c :: s) = None
   /\ re_sub_from m repl prev 0 (c :: s)
      = c :: re_sub_from m repl (Some c) 0 s)
  \/ (exists k, m prev (c :: s) = Some (S k)
       /\ re_sub_from m repl prev 0 (c :: s)
          = repl ++ re_sub_from m repl (nth_error (c :: s) k) 0
                                (skipn (S k) (c :: s))).
Proof.
  intros Hp. destruct (m prev (c :: s)) as [[|k]|] eqn:E.
  - exfalso. now apply (Hp prev (c :: s)).
  - right. exists k. split; [reflexivity|]. apply re_sub_match; [discriminate | exact E].
  - left. split; [reflexivity|]. now apply re_sub_copy.
Qed.

(** Stepping through a text by whole matches. *)
Lemma by_matches (P : str -> Prop) :
  (forall s, (forall t, length t < length s -> P t) -> P s) ->
  forall s, P s.
Proof.
  intros Hstep.
  assert (H : forall n s, length s < n -> P s).
  { induction n as [|n IH]; intros s Hs; [lia|].
    apply Hstep. intros t Ht. apply IH. lia. }
  intros s. apply (H (S (length s))). lia.
Qed.

Lemma skipn_S_shorter {A : Type} (k : nat) (c : A) (s : list A) :
  length (skipn (S k) (c :: s)) < length (c :: s).
Proof. rewrite length_skipn. simpl. lia. Qed.

(** *** Occurrences of [0x] followed by a character of a class *)

(** How much of [0x] has just been read. *)
Inductive hstate := H0 | H1 | H2.

Definition hstep (q : hstate) (c : ascii) : hstate :=
  if Ascii.eqb c "0" then H1
  else if Ascii.eqb c "x" then match q with H1 => H2 | _ => H0 end
  else H0.

Definition at_H2 (q : hstate) : bool :=
  match q with H2 => true | _ => false end.

(** No [0x] followed by a character of class [p] ends in [s], for a
    reader in state [q]. *)
Fixpoint safe (p : ascii -> bool) (q : hstate) (s : str) : bool :=
  match s with
  | [] => true
  | c :: s' => negb (at_H2 q && p c) && safe p (hstep q c) s'
  end.

Definition hrun (q : hstate) (s : str) : hstate := fold_left hstep s q.

(** A reader that has seen less. *)
Definition hle (q' q : hstate) : Prop := q' = H0 \/ q' = q.

Lemma hstep_hle (q' q : hstate) (c : ascii) :
  hle q' q -> hle (hstep q' c) (hstep q c).
Proof.
  intros [-> | ->]; [|now right].
  unfold hstep. destruct (Ascii.eqb c "0"); [now right|].
  destruct (Ascii.eqb c "x"); now left.
Qed.

Lemma safe_hle (p : ascii -> bool) (s : str) :
  forall q' q, hle q' q -> safe p q s = true -> safe p q' s = true.
Proof.
  induction s as [|c s IH]; intros q' q Hle Hs; [reflexivity|].
  simpl in *. apply andb_true_iff in Hs. destruct Hs as [Hc Hs].
  apply andb_true_iff. split.
  - destruct Hle as [-> | ->]; [reflexivity | exact Hc].
  - apply (IH _ (hstep q c)); [now apply hstep_hle | exact Hs].
Qed.

Lemma safe_app (p : ascii -> bool) (l1 l2 : str) :
  forall q, safe p q (l1 ++ l2) = safe p q l1 && safe p (hrun q l1) l2.
Proof.
  induction l1 as [|c l1 IH]; intros q; simpl; [reflexivity|].
  rewrite IH. now rewrite andb_assoc.
Qed.

Lemma safe_or (p p' : ascii -> bool) (s : str) :
  forall q, safe p q s = true -> safe p' q s = true ->
            safe (fun c => p c || p' c) q s = true.
Proof.
  induction s as [|c s IH]; intros q H H'; [reflexivity|].
  simpl in *. apply andb_true_iff in H, H'.
  destruct H as [Hc Hs], H' as [Hc' Hs'].
  apply andb_true_iff. split; [|now apply IH].
  destruct (at_H2 q); simpl in *; [|reflexivity].
  apply negb_true_iff in Hc, Hc'. now rewrite Hc, Hc'.
Qed.

Lemma firstn_skipn_S {A : Type} (k : nat) (s : list A) :
  s = firstn (S k) s ++ skipn (S k) s.
Proof. symmetry. apply firstn_skipn. Qed.

(** A substitution keeps a text free of such occurrences when its
    replacement cannot complete or begin one. *)
Lemma re_sub_safe (m : matcher) (repl : str) (p_in p_out : ascii -> bool) :
  productive m ->
  (forall c, p_out c = true -> p_in c = true) ->
  (forall prev s k q, m prev s = Some (S k) -> safe p_in q s = true ->
                      safe p_out q repl = true) ->
  (forall q, hrun q repl = H0) ->
  forall s prev q_in q_out,
    hle q_out q_in -> safe p_in q_in s = true ->
    safe p_out q_out (re_sub_from m repl prev 0 s) = true.
Proof.
  intros Hprod Hsub Htok Hend s.
  induction s as [s IH] using by_matches. intros prev q_in q_out Hle Hs.
  destruct s as [|c s]; [reflexivity|].
  destruct (re_sub_cases m repl prev c s Hprod) as [[_ ->] | [k [Hm ->]]].
  - simpl in *. apply andb_true_iff in Hs. destruct Hs as [Hc Hs].
    apply andb_true_iff. split.
    + destruct Hle as [-> | ->]; [reflexivity|].
      destruct (at_H2 q_in); [|reflexivity]. simpl in *.
      apply negb_true_iff in Hc. apply negb_true_iff.
      destruct (p_out c) eqn:E; [|reflexivity]. apply Hsub in E. congruence.
    + apply (IH s) with (q_in := hstep q_in c); [simpl; lia | | exact Hs].
      now apply hstep_hle.
  - rewrite safe_app. apply andb_true_iff. split.
    + apply (safe_hle _ _ q_out q_in Hle). now apply (Htok prev (c :: s) k).
    + rewrite Hend.
      apply (IH (skipn (S k) (c :: s))) with (q_in := hrun q_in (firstn (S k) (c :: s))).
      * apply skipn_S_shorter.
      * now left.
      * rewrite (firstn_skipn_S k (c :: s)) in Hs at 1.
        rewrite safe_app in Hs. apply andb_true_iff in Hs. apply Hs.
Qed.

Definition is_slash (c : ascii) : bool := Ascii.eqb c "/".

Definition hex_or_slash (c : ascii) : bool := is_hex c || is_slash c.

(** The hexadecimal pattern leaves no hexadecimal literal behind. *)
Definition hex_pending (q : hstate) (s : str) : Prop :=
  match q with
  | H0 => True
  | H1 => match_hex None ("0"%char :: s) = None
  | H2 => match_hex None ("0"%char :: "x"%char :: s) = None
  end.

Lemma match_hex_prev (prev prev' : option ascii) (s : str) :
  match_hex prev s = match_hex prev' s.
Proof. reflexivity. Qed.

Lemma match_hex_None_0x (c : ascii) (s : str) :
  match_hex None ("0"%char :: "x"%char :: c :: s) = None -> is_hex c = false.
Proof.
  simpl. destruct (is_hex c); [discriminate | reflexivity].
Qed.

Lemma hex_pending_step (q : hstate) (c : ascii) (s : str) :
  hex_pending q (c :: s) -> match_hex None (c :: s) = None ->
  hex_pending (hstep q c) s.
Proof.
  intros Hq Hc. unfold hstep.
  destruct (Ascii.eqb_spec c "0"); [subst; exact Hc|].
  destruct (Ascii.eqb_spec c "x"); [subst|exact I].
  destruct q; simpl; try exact I. exact Hq.
Qed.

Lemma hex_token_safe (q : hstate) :
  safe is_hex q (tok "hex value") = true /\ hrun q (tok "hex value") = H0.
Proof. destruct q; split; reflexivity. Qed.

Lemma re_sub_hex_safe (s : str) :
  forall prev q, hex_pending q s ->
                 safe is_hex q (re_sub_from match_hex (tok "hex value") prev 0 s) = true.
Proof.
  induction s as [s IH] using by_matches. intros prev q Hq.
  destruct s as [|c s]; [reflexivity|].
  destruct (re_sub_cases match_hex (tok "hex value") prev c s match_hex_productive)
    as [[Hm ->] | [k [Hm ->]]].
  - simpl. apply andb_true_iff. split.
    + destruct q; try reflexivity. simpl.
      simpl in Hq. apply match_hex_None_0x in Hq. now rewrite Hq.
    + apply IH; [simpl; lia|]. now apply hex_pending_step.
  - rewrite safe_app. apply andb_true_iff. split; [apply hex_token_safe|].
    rewrite (proj2 (hex_token_safe q)).
    apply IH; [apply skipn_S_shorter | exact I].
Qed.

Lemma hrun_tokens (q : hstate) :
  hrun q (tok "ip address") = H0 /\ hrun q (tok "file path") = H0
  /\ hrun q (tok "number") = H0 /\ hrun q (tok " ") = H0.
Proof. destruct q; repeat split; reflexivity. Qed.

Lemma slash_tokens_safe (q : hstate) :
  safe is_slash q (tok "ip address") = true
  /\ safe is_slash q (tok "hex value") = true.
Proof. destruct q; split; reflexivity. Qed.

Lemma hex_tokens_safe (q : hstate) :
  safe is_hex q (tok "number") = true /\ safe is_hex q (tok " ") = true.
Proof. destruct q; split; reflexivity. Qed.

Lemma match_path_slash (prev : option ascii) (s : str) (k : nat) :
  match_path prev s = Some k -> exists s', s = "/"%char :: s'.
Proof.
  unfold match_path. destruct s as [|a s]; [discriminate|].
  destruct (Ascii.eqb_spec a "/"); subst; [intros _; now exists s|].
  destruct a as [[] [] [] [] [] [] [] []]; try discriminate; congruence.
Qed.

Lemma re_sub_ip_slash_safe (s : str) :
  safe is_slash H0 s = true ->
  safe is_slash H0 (re_sub match_ip (tok "ip address") s) = true.
Proof.
  apply (re_sub_safe match_ip (tok "ip address") is_slash is_slash).
  - exact match_ip_productive.
  - auto.
  - intros. apply slash_tokens_safe.
  - intros q. apply hrun_tokens.
  - now left.
Qed.

Lemma re_sub_hex_slash_safe (s : str) :
  safe is_slash H0 s = true ->
  safe is_slash H0 (re_sub match_hex (tok "hex value") s) = true.
Proof.
  apply (re_sub_safe match_hex (tok "hex value") is_slash is_slash).
  - exact match_hex_productive.
  - auto.
  - intros. apply slash_tokens_safe.
  - intros q. apply hex_token_safe.
  - now left.
Qed.

Lemma re_sub_path_hex_safe (s : str) :
  safe hex_or_slash H0 s = true ->
  safe is_hex H0 (re_sub match_path (tok "file path") s) = true.
Proof.
  apply (re_sub_safe match_path (tok "file path") hex_or_slash is_hex).
  - exact match_path_productive.
  - intros c Hc. unfold hex_or_slash. now rewrite Hc.
  - intros prev t k q Hm Hs. apply match_path_slash in Hm.
    destruct Hm as [t' ->]. destruct q; try reflexivity. discriminate.
  - intros q. apply hrun_tokens.
  - now left.
Qed.

Lemma re_sub_number_hex_safe (s : str) :
  safe is_hex H0 s = true ->
  safe is_hex H0 (re_sub match_number (tok "number") s) = true.
Proof.
  apply (re_sub_safe match_number (tok "number") is_hex is_hex).
  - exact match_number_productive.
  - auto.
  - intros. apply hex_tokens_safe.
  - intros q. apply hrun_tokens.
  - now left.
Qed.

Lemma re_sub_punct_hex_safe (s : str) :
  safe is_hex H0 s = true ->
  safe is_hex H0 (re_sub match_punct (tok " ") s) = true.
Proof.
  apply (re_sub_safe match_punct (tok " ") is_hex is_hex).
  - exact match_punct_productive.
  - auto.
  - intros. apply hex_tokens_safe.
  - intros q. apply hrun_tokens.
  - now left.
Qed.

Lemma re_sub_ws_hex_safe (s : str) :
  safe is_hex H0 s = true ->
  safe is_hex H0 (re_sub match_ws (tok " ") s) = true.
Proof.
  apply (re_sub_safe match_ws (tok " ") is_hex is_hex).
  - exact match_ws_productive.
  - auto.
  - intros. apply hex_tokens_safe.
  - intros q. apply hrun_tokens.
  - now left.
Qed.

(** [s in t] for the text [0x/], read by the automaton. *)
Definition slash_pending (q : hstate) (t : str) : Prop :=
  match q with
  | H0 => True
  | H1 => starts_with (tok "x/") t = false
  | H2 => starts_with (tok "/") t = false
  end.

Lemma no_0x_slash_safe (t : str) :
  forall q, contains (tok "0x/") t = false -> slash_pending q t ->
            safe is_slash q t = true.
Proof.
  induction t as [|c t IH]; intros q Hc Hq; [reflexivity|].
  cbn -[Ascii.eqb] in Hc. apply orb_false_iff in Hc. destruct Hc as [Hhere Hc].
  cbn -[Ascii.eqb at_H2 hstep]. apply andb_true_iff. split.
  - destruct q; try reflexivity. cbn -[Ascii.eqb] in *.
    unfold is_slash. rewrite Ascii.eqb_sym.
    rewrite andb_true_r in Hq. now rewrite Hq.
  - apply IH; [exact Hc|]. unfold hstep.
    destruct (Ascii.eqb_spec c "0").
    + subst. cbn -[Ascii.eqb] in Hhere. exact Hhere.
    + destruct (Ascii.eqb_spec c "x"); [subst|exact I].
      destruct q; try exact I. cbn -[Ascii.eqb] in Hq |- *. exact Hq.
Qed.

(** *** Digit runs that stand alone *)

(** Where the reader is: after a non-word character or at the start
    ([NB]), inside a word ([NW]), or inside a digit run that began at a
    word boundary ([ND]). *)
Inductive nstate := NB | NW | ND.

Definition nstep (q : nstate) (c : ascii) : nstate :=
  if is_digit c then match q with NW => NW | _ => ND end
  else if is_word c then NW
  else NB.

Definition at_ND (q : nstate) : bool :=
  match q with ND => true | _ => false end.

(** No digit run of [s] is closed by a word boundary on both sides,
    for a reader in state [q]. *)
Fixpoint nsafe (q : nstate) (s : str) : bool :=
  match s with
  | [] => negb (at_ND q)
  | c :: s' => negb (at_ND q && negb (is_word c)) && nsafe (nstep q c) s'
  end.

(** The same without the test at the end of the text. *)
Fixpoint ncheck (q : nstate) (s : str) : bool :=
  match s with
  | [] => true
  | c :: s' => negb (at_ND q && negb (is_word c)) && ncheck (nstep q c) s'
  end.

Definition nrun (q : nstate) (s : str) : nstate := fold_left nstep s q.

Lemma nsafe_app (l1 l2 : str) :
  forall q, nsafe q (l1 ++ l2) = ncheck q l1 && nsafe (nrun q l1) l2.
Proof.
  induction l1 as [|c l1 IH]; intros q; simpl; [reflexivity|].
  rewrite IH. now rewrite andb_assoc.
Qed.

(** The state of the reader agrees with the character before the
    position; in a digit run that began at a boundary and was not
    replaced, a word character follows the run. *)
Definition number_pending (prev : option ascii) (q : nstate) (s : str) : Prop :=
  match q with
  | NB => opt_word prev = false
  | NW => opt_word prev = true
  | ND => opt_word prev = true
          /\ opt_word (nth_error s (span_len is_digit s)) = true
  end.

Lemma span_len_cons_true (p : ascii -> bool) (c : ascii) (s : str) :
  p c = true -> span_len p (c :: s) = S (span_len p s).
Proof. intros H. simpl. now rewrite H. Qed.

Lemma span_len_cons_false (p : ascii -> bool) (c : ascii) (s : str) :
  p c = false -> span_len p (c :: s) = 0.
Proof. intros H. simpl. now rewrite H. Qed.

Lemma match_number_eq (prev : option ascii) (s : str) :
  match_number prev s
  = if (1 <=? span_len is_digit s) && word_boundary prev (hd_error s)
       && word_boundary (nth_error s (span_len is_digit s - 1))
                        (nth_error s (span_len is_digit s))
    then Some (span_len is_digit s) else None.
Proof. reflexivity. Qed.

Lemma nth_error_span_digit (s : str) (i : nat) :
  i < span_len is_digit s ->
  exists d, nth_error s i = Some d /\ is_digit d = true.
Proof.
  revert i. induction s as [|c s IH]; intros i Hi; [simpl in Hi; lia|].
  simpl in Hi. destruct (is_digit c) eqn:E; [|lia].
  destruct i as [|i]; [now exists c|]. simpl. apply IH. lia.
Qed.

(** At a digit that follows a non-word character, the pattern fails
    only when a word character follows the run of digits. *)
Lemma match_number_None_start (prev : option ascii) (c : ascii) (s : str) :
  opt_word prev = false -> is_digit c = true ->
  match_number prev (c :: s) = None ->
  opt_word (nth_error s (span_len is_digit s)) = true.
Proof.
  intros Hprev Hc. rewrite match_number_eq.
  rewrite (span_len_cons_true _ _ _ Hc).
  cbn [Nat.leb hd_error andb Nat.sub nth_error].
  unfold word_boundary at 1. rewrite Hprev. cbn [opt_word].
  rewrite (digit_is_word c Hc). cbn [xorb andb].
  destruct (nth_error_span_digit (c :: s) (span_len is_digit s)) as [d [Hd Hdd]].
  { rewrite (span_len_cons_true _ _ _ Hc). lia. }
  rewrite Nat.sub_0_r, Hd. unfold word_boundary. cbn [opt_word].
  rewrite (digit_is_word d Hdd).
  destruct (opt_word (nth_error s (span_len is_digit s))); [reflexivity|].
  discriminate.
Qed.

Lemma match_number_Some_boundary (prev : option ascii) (s : str) (n : nat) :
  match_number prev s = Some n -> opt_word prev = false.
Proof.
  rewrite match_number_eq.
  destruct (1 <=? span_len is_digit s) eqn:E; [|discriminate].
  apply Nat.leb_le in E.
  destruct (nth_error_span_digit s 0 E) as [d [Hd Hdd]].
  destruct s as [|c s]; [discriminate|]. simpl in Hd. inversion Hd; subst d.
  cbn [andb hd_error]. unfold word_boundary at 1. cbn [opt_word].
  rewrite (digit_is_word c Hdd).
  destruct (opt_word prev); [discriminate | reflexivity].
Qed.

Lemma number_pending_step (prev : option ascii) (q : nstate) (c : ascii)
      (s : str) :
  number_pending prev q (c :: s) -> match_number prev (c :: s) = None ->
  negb (at_ND q && negb (is_word c)) = true
  /\ number_pending (Some c) (nstep q c) s.
Proof.
  intros Hq Hm. unfold nstep.
  destruct (is_digit c) eqn:Ed.
  - pose proof (digit_is_word c Ed) as Hw. rewrite Hw, andb_false_r.
    split; [reflexivity|].
    destruct q; simpl in *.
    + split; [exact Hw|]. now apply (match_number_None_start prev c s).
    + exact Hw.
    + rewrite Ed in Hq. tauto.
  - destruct (is_word c) eqn:Ew.
    + rewrite andb_false_r. split; [reflexivity | exact Ew].
    + split; [|exact Ew].
      destruct q; try reflexivity. simpl in Hq. rewrite Ed in Hq.
      simpl in Hq. destruct Hq as [_ Hq]. congruence.
Qed.

Lemma number_token_safe (q : nstate) :
  ncheck q (tok "number") = true /\ nrun q (tok "number") = NW.
Proof. destruct q; split; reflexivity. Qed.

(** The number pattern leaves no digit run standing alone. *)
Lemma re_sub_number_nsafe (s : str) :
  forall prev q,
    number_pending prev q s ->
    nsafe q (re_sub_from match_number (tok "number") prev 0 s) = true.
Proof.
  induction s as [s IH] using by_matches. intros prev q Hq.
  destruct s as [|c s].
  - simpl. destruct q; try reflexivity. simpl in Hq. destruct Hq; discriminate.
  - destruct (re_sub_cases match_number (tok "number") prev c s
                           match_number_productive) as [[Hm ->] | [k [Hm ->]]].
    + destruct (number_pending_step prev q c s Hq Hm) as [Hc Hn].
      simpl. rewrite Hc. apply IH; [simpl; lia | exact Hn].
    + rewrite nsafe_app. rewrite (proj1 (number_token_safe q)).
      rewrite (proj2 (number_token_safe q)).
      apply IH; [apply skipn_S_shorter|].
      simpl. pose proof Hm as Hn. rewrite match_number_eq in Hn.
      destruct (_ && _) eqn:E in Hn; [|discriminate].
      assert (Hk : span_len is_digit (c :: s) = S k) by congruence.
      destruct (nth_error_span_digit (c :: s) k) as [d [Hd Hdd]];
        [rewrite Hk; lia|].
      rewrite Hd. simpl. now apply digit_is_word.
Qed.

Lemma nsafe_ncheck (s : str) :
  forall q, nsafe q s = ncheck q s && negb (at_ND (nrun q s)).
Proof.
  intros q. rewrite <- (app_nil_r s) at 1. now rewrite nsafe_app.
Qed.

(** A substitution whose replacement reads like the text it replaces
    keeps digit runs as they are. *)
Lemma re_sub_nsafe (m : matcher) (repl : str) :
  productive m ->
  (forall prev s k q,
      m prev s = Some (S k) -> ncheck q (firstn (S k) s) = true ->
      ncheck q repl = true /\ nrun q repl = nrun q (firstn (S k) s)) ->
  forall s prev q,
    nsafe q s = true -> nsafe q (re_sub_from m repl prev 0 s) = true.
Proof.
  intros Hprod Htok s.
  induction s as [s IH] using by_matches. intros prev q Hs.
  destruct s as [|c s]; [exact Hs|].
  destruct (re_sub_cases m repl prev c s Hprod) as [[_ ->] | [k [Hm ->]]].
  - simpl in *. apply andb_true_iff in Hs. destruct Hs as [Hc Hs].
    rewrite Hc. apply IH; [simpl; lia | exact Hs].
  - rewrite (firstn_skipn_S k (c :: s)) in Hs at 1.
    rewrite nsafe_app in Hs. apply andb_true_iff in Hs. destruct Hs as [Hf Hs].
    destruct (Htok prev (c :: s) k q Hm Hf) as [Hr Hrun].
    rewrite nsafe_app, Hr, Hrun.
    apply IH; [apply skipn_S_shorter | exact Hs].
Qed.

Lemma firstn_span_Forall (p : ascii -> bool) (s : str) :
  Forall (fun c => p c = true) (firstn (span_len p s) s).
Proof.
  induction s as [|c s IH]; simpl; [constructor|].
  destruct (p c) eqn:E; simpl; [|constructor]. now constructor.
Qed.

Lemma nonword_nstep (q : nstate) (c : ascii) : is_word c = false -> nstep q c = NB.
Proof.
  intros Hw. unfold nstep. rewrite Hw.
  destruct (is_digit c) eqn:Ed; [|reflexivity].
  apply digit_is_word in Ed. congruence.
Qed.

Lemma nrun_cons (q : nstate) (c : ascii) (l : str) :
  nrun q (c :: l) = nrun (nstep q c) l.
Proof. reflexivity. Qed.

(** Reading a non-empty run of non-word characters. *)
Lemma nonword_run (l : str) :
  Forall (fun c => is_word c = false) l -> l <> [] ->
  forall q, ncheck q l = negb (at_ND q) /\ nrun q l = NB.
Proof.
  induction 1 as [|c l Hc Hl IH]; intros Hne q; [congruence|].
  rewrite nrun_cons. cbn [ncheck].
  rewrite Hc, (nonword_nstep q c Hc). cbn [negb]. rewrite andb_true_r.
  destruct l as [|d l].
  - split; [apply andb_true_r | reflexivity].
  - destruct (IH ltac:(discriminate) NB) as [Hk Hr].
    rewrite Hk, Hr. split; [apply andb_true_r | reflexivity].
Qed.

Lemma blank_run (q : nstate) :
  ncheck q (tok " ") = negb (at_ND q) /\ nrun q (tok " ") = NB.
Proof. destruct q; split; reflexivity. Qed.

Lemma re_sub_punct_nsafe (s : str) (prev : option ascii) (q : nstate) :
  nsafe q s = true ->
  nsafe q (re_sub_from match_punct (tok " ") prev 0 s) = true.
Proof.
  apply re_sub_nsafe; [exact match_punct_productive|].
  intros prev' t k q' Hm Hc.
  destruct t as [|c t]; [discriminate|]. simpl in Hm.
  destruct (is_punct c) eqn:Ep; [|discriminate]. inversion Hm; subst k.
  assert (Hw : is_word c = false).
  { unfold is_punct in Ep. apply negb_true_iff, orb_false_iff in Ep. tauto. }
  destruct (nonword_run [c] ltac:(now repeat constructor) ltac:(discriminate) q')
    as [Hk Hr].
  destruct (blank_run q') as [Hk' Hr'].
  change (firstn 1 (c :: t)) with [c] in *.
  rewrite Hk', Hr', Hr. rewrite Hk in Hc. tauto.
Qed.

Lemma match_ws_span (prev : option ascii) (s : str) (k : nat) :
  match_ws prev s = Some (S k) -> span_len is_space s = S k.
Proof.
  unfold match_ws. destruct (1 <=? span_len is_space s); [|discriminate].
  congruence.
Qed.

Lemma re_sub_ws_nsafe (s : str) (prev : option ascii) (q : nstate) :
  nsafe q s = true ->
  nsafe q (re_sub_from match_ws (tok " ") prev 0 s) = true.
Proof.
  apply re_sub_nsafe; [exact match_ws_productive|].
  intros prev' t k q' Hm Hc. apply match_ws_span in Hm.
  pose proof (firstn_span_Forall is_space t) as Hall. rewrite Hm in Hall.
  assert (Hnw : Forall (fun c => is_word c = false) (firstn (S k) t)).
  { eapply Forall_impl; [|exact Hall]. intros c. apply space_not_word. }
  assert (Hne : firstn (S k) t <> []).
  { destruct t; [simpl in Hm; discriminate | discriminate]. }
  destruct (nonword_run _ Hnw Hne q') as [Hk Hr].
  destruct (blank_run q') as [Hk' Hr'].
  rewrite Hk', Hr', Hr. rewrite Hk in Hc. tauto.
Qed.

(** *** [strip] *)

Lemma lstrip_split (s : str) :
  exists ws, s = ws ++ lstrip s /\ Forall (fun c => is_space c = true) ws.
Proof.
  induction s as [|c s [ws [IH Hws]]]; [exists []; split; [reflexivity|constructor]|].
  simpl. destruct (is_space c) eqn:E.
  - exists (c :: ws). split; [simpl; now f_equal | now constructor].
  - exists []. split; [reflexivity | constructor].
Qed.

Lemma lstrip_head (s : str) :
  match lstrip s with
  | c :: _ => is_space c = false
  | [] => True
  end.
Proof.
  induction s as [|c s IH]; simpl; [exact I|].
  destruct (is_space c) eqn:E; [exact IH | exact E].
Qed.

Lemma strip_split (s : str) :
  exists ws1 ws2,
    s = ws1 ++ strip s ++ ws2
    /\ Forall (fun c => is_space c = true) ws1
    /\ Forall (fun c => is_space c = true) ws2.
Proof.
  destruct (lstrip_split s) as [ws1 [H1 Hws1]].
  destruct (lstrip_split (rev (lstrip s))) as [ws2 [H2 Hws2]].
  exists ws1, (rev ws2). split; [|split; [assumption|]].
  - unfold strip. rewrite <- rev_app_distr, <- H2, rev_involutive. exact H1.
  - now apply Forall_rev.
Qed.

Lemma lstrip_id (s : str) :
  match s with c :: _ => is_space c = false | [] => True end -> lstrip s = s.
Proof.
  destruct s as [|c s]; [reflexivity|]. simpl. now intros ->.
Qed.

Lemma strip_id (s : str) :
  match s with c :: _ => is_space c = false | [] => True end ->
  match rev s with c :: _ => is_space c = false | [] => True end ->
  strip s = s.
Proof.
  intros Hh Hl. unfold strip. rewrite (lstrip_id s Hh), (lstrip_id _ Hl).
  apply rev_involutive.
Qed.

(** The first and the last character of a stripped text are not
    blanks. *)
Lemma strip_ends (s : str) :
  match strip s with c :: _ => is_space c = false | [] => True end
  /\ match rev (strip s) with c :: _ => is_space c = false | [] => True end.
Proof.
  unfold strip. rewrite rev_involutive. split; [|apply lstrip_head].
  pose proof (lstrip_head s) as Hh.
  destruct (lstrip_split (rev (lstrip s))) as [ws [Hsplit Hws]].
  set (r := lstrip (rev (lstrip s))) in *.
  assert (E : lstrip s = rev r ++ rev ws).
  { rewrite <- rev_app_distr, <- Hsplit. now rewrite rev_involutive. }
  destruct (rev r) as [|c r'] eqn:Er; [exact I|].
  rewrite E in Hh. exact Hh.
Qed.

Lemma strip_Forall (P : ascii -> Prop) (s : str) :
  Forall P s -> Forall P (strip s).
Proof.
  intros H. destruct (strip_split s) as [ws1 [ws2 [E _]]].
  rewrite E in H. apply Forall_app in H. destruct H as [_ H].
  apply Forall_app in H. tauto.
Qed.

Lemma space_hstep (q : hstate) (c : ascii) : is_space c = true -> hstep q c = H0.
Proof. destruct q; each_char c. Qed.

Lemma spaces_hrun (ws : str) :
  Forall (fun c => is_space c = true) ws -> forall q, hle (hrun q ws) q.
Proof.
  induction 1 as [|c ws Hc Hws IH]; intros q; [now right|].
  simpl. rewrite (space_hstep q c Hc).
  destruct (IH H0) as [E | E]; left; exact E.
Qed.

Lemma strip_safe (p : ascii -> bool) (s : str) :
  safe p H0 s = true -> safe p H0 (strip s) = true.
Proof.
  intros Hs. destruct (strip_split s) as [ws1 [ws2 [E [H1 _]]]].
  rewrite E in Hs. rewrite safe_app in Hs. apply andb_true_iff in Hs.
  destruct Hs as [_ Hs].
  rewrite safe_app in Hs. apply andb_true_iff in Hs. destruct Hs as [Hs _].
  destruct (spaces_hrun ws1 H1 H0) as [E0 | E0]; now rewrite E0 in Hs.
Qed.

Lemma spaces_nrun (ws : str) :
  Forall (fun c => is_space c = true) ws -> nrun NB ws = NB.
Proof.
  induction 1 as [|c ws Hc Hws IH]; [reflexivity|].
  simpl. rewrite nonword_nstep; [exact IH | now apply space_not_word].
Qed.

Lemma spaces_nsafe (ws : str) (q : nstate) :
  Forall (fun c => is_space c = true) ws -> nsafe q ws = true ->
  at_ND q = false.
Proof.
  intros Hws Hs. destruct Hws as [|c ws Hc _]; simpl in Hs.
  - now apply negb_true_iff in Hs.
  - apply andb_true_iff in Hs. destruct Hs as [Hs _].
    rewrite (space_not_word c Hc) in Hs. simpl in Hs.
    rewrite andb_true_r in Hs. now apply negb_true_iff in Hs.
Qed.

Lemma strip_nsafe (s : str) :
  nsafe NB s = true -> nsafe NB (strip s) = true.
Proof.
  intros Hs. destruct (strip_split s) as [ws1 [ws2 [E [H1 H2]]]].
  rewrite E in Hs. rewrite nsafe_app in Hs. apply andb_true_iff in Hs.
  destruct Hs as [_ Hs]. rewrite (spaces_nrun ws1 H1) in Hs.
  rewrite nsafe_app in Hs. apply andb_true_iff in Hs. destruct Hs as [Hc Hs].
  rewrite nsafe_ncheck, Hc. simpl.
  apply negb_true_iff. now apply (spaces_nsafe ws2).
Qed.

(** *** The shape of a generalised text *)

Definition word_or_space (c : ascii) : Prop :=
  is_word c = true \/ is_space c = true.

Definition word_or_blank (c : ascii) : Prop :=
  is_word c = true \/ c = " "%char.

Definition lowered (c : ascii) : Prop := lower_char c = c.

(** Every character is a word character, or a blank that a word
    character follows or that ends the text. *)
Fixpoint spaced (s : str) : Prop :=
  match s with
  | [] => True
  | c :: s' =>
      (is_word c = true
       \/ (c = " "%char
           /\ match s' with [] => True | c' :: _ => is_word c' = true end))
      /\ spaced s'
  end.

Lemma spaced_Forall (s : str) : spaced s -> Forall word_or_blank s.
Proof.
  induction s as [|c s IH]; simpl; [constructor|].
  intros [Hc Hs]. constructor; [|now apply IH].
  destruct Hc as [Hc | [Hc _]]; [now left | now right].
Qed.

Lemma spaced_app_r (l1 l2 : str) : spaced (l1 ++ l2) -> spaced l2.
Proof. induction l1 as [|c l1 IH]; simpl; [auto | intros [_ H]; auto]. Qed.

Lemma spaced_app_l (l1 l2 : str) : spaced (l1 ++ l2) -> spaced l1.
Proof.
  induction l1 as [|c l1 IH]; simpl; [auto|]. intros [Hc Hs].
  split; [|now apply IH].
  destruct Hc as [Hc | [Hc Hn]]; [now left|]. right. split; [exact Hc|].
  destruct l1; [exact I | exact Hn].
Qed.

Lemma strip_spaced (s : str) : spaced s -> spaced (strip s).
Proof.
  intros H. destruct (strip_split s) as [ws1 [ws2 [E _]]].
  rewrite E in H. apply spaced_app_r in H. now apply spaced_app_l in H.
Qed.

Lemma punct_output (s : str) :
  forall prev k,
    Forall word_or_space (re_sub_from match_punct (tok " ") prev k s).
Proof.
  induction s as [|c s IH]; intros prev k; simpl; [constructor|].
  destruct k as [|k]; [|apply IH].
  destruct (is_punct c) eqn:E.
  - simpl. constructor; [right; reflexivity | apply IH].
  - constructor; [now apply not_punct_cases | apply IH].
Qed.

Lemma skipn_span_head (p : ascii -> bool) (s : str) :
  match skipn (span_len p s) s with
  | d :: _ => p d = false
  | [] => True
  end.
Proof.
  induction s as [|c s IH]; simpl; [exact I|].
  destruct (p c) eqn:E; [exact IH | exact E].
Qed.

Lemma Forall_skipn_keep {A : Type} (P : A -> Prop) (n : nat) (l : list A) :
  Forall P l -> Forall P (skipn n l).
Proof.
  intros H. rewrite <- (firstn_skipn n l) in H.
  apply Forall_app in H. tauto.
Qed.

Lemma match_ws_None (prev : option ascii) (c : ascii) (s : str) :
  match_ws prev (c :: s) = None -> is_space c = false.
Proof.
  unfold match_ws. simpl. destruct (is_space c); [discriminate | reflexivity].
Qed.

Lemma word_not_space (c : ascii) : is_word c = true -> is_space c = false.
Proof.
  intros Hw. destruct (is_space c) eqn:E; [|reflexivity].
  apply space_not_word in E. congruence.
Qed.

(** After the whitespace pattern every run of whitespace is one blank. *)
Lemma ws_output (s : str) :
  forall prev,
    Forall word_or_space s ->
    spaced (re_sub_from match_ws (tok " ") prev 0 s).
Proof.
  induction s as [s IH] using by_matches. intros prev Hs.
  destruct s as [|c s]; [exact I|].
  destruct (re_sub_cases match_ws (tok " ") prev c s match_ws_productive)
    as [[Hm ->] | [k [Hm ->]]].
  - inversion Hs as [|? ? Hc Hs']; subst. split.
    + left. apply match_ws_None in Hm. destruct Hc; [assumption | congruence].
    + apply IH; [simpl; lia | assumption].
  - apply match_ws_span in Hm.
    pose proof (skipn_span_head is_space (c :: s)) as Hhead. rewrite Hm in Hhead.
    pose proof (Forall_skipn_keep _ (S k) _ Hs) as Hrest.
    assert (Hsp : spaced (re_sub_from match_ws (tok " ")
                            (nth_error (c :: s) k) 0 (skipn (S k) (c :: s)))).
    { apply IH; [apply skipn_S_shorter | exact Hrest]. }
    change (tok " " ++ ?r) with (" "%char :: r).
    split; [|exact Hsp]. right. split; [reflexivity|].
    destruct (skipn (S k) (c :: s)) as [|d r] eqn:Er; [exact I|].
    inversion Hrest as [|? ? Hd _]; subst.
    assert (Hdw : is_word d = true) by (destruct Hd; [assumption | congruence]).
    rewrite re_sub_copy; [exact Hdw|].
    unfold match_ws. now rewrite (span_len_cons_false _ _ _ Hhead).
Qed.

(** *** The steps on a generalised text *)

Lemma lower_lowered (s : str) : Forall lowered s -> lower s = s.
Proof.
  induction 1 as [|c s Hc Hs IH]; [reflexivity|].
  unfold lower in *. cbn [map]. unfold lowered in Hc. now rewrite Hc, IH.
Qed.

Lemma lower_Forall (s : str) : Forall lowered (lower s).
Proof.
  induction s as [|c s IH]; simpl; constructor; [apply lower_char_idem | exact IH].
Qed.

Lemma quiet_suffix (m : matcher) (Q : str -> Prop) :
  (forall c s, Q (c :: s) -> Q s) ->
  (forall prev s, Q s -> m prev s = None) ->
  forall s prev, Q s -> quiet m prev s.
Proof.
  intros Hsuf Hq. induction s as [|c s IH]; intros prev H; simpl; [exact I|].
  split; [now apply Hq | apply IH; now apply (Hsuf c)].
Qed.

Lemma In_skipn {A : Type} (x : A) (n : nat) (l : list A) :
  In x (skipn n l) -> In x l.
Proof.
  intros H. rewrite <- (firstn_skipn n l). apply in_or_app. now right.
Qed.

Lemma match_ip_dot (prev : option ascii) (s : str) (n : nat) :
  match_ip prev s = Some n -> In "."%char s.
Proof.
  unfold match_ip. destruct (word_boundary prev (hd_error s)); [|discriminate].
  rewrite match_octets_eq. cbv zeta.
  destruct ((1 <=? span_len is_digit s) && (span_len is_digit s <=? 3));
    [|discriminate].
  destruct (skipn (span_len is_digit s) s) as [|d r] eqn:E; [discriminate|].
  destruct (Ascii.eqb_spec d "."); subst.
  - intros _. apply (In_skipn _ (span_len is_digit s)). rewrite E. now left.
  - destruct d as [[] [] [] [] [] [] [] []]; try discriminate; congruence.
Qed.

Lemma word_or_blank_quiet_ip (s : str) (prev : option ascii) :
  Forall word_or_blank s -> quiet match_ip prev s.
Proof.
  apply (quiet_suffix match_ip (Forall word_or_blank)).
  - intros c t H. now inversion H.
  - intros p t H. destruct (match_ip p t) as [n|] eqn:E; [|reflexivity].
    apply match_ip_dot in E. rewrite Forall_forall in H.
    destruct (H _ E) as [Hw | Hb]; discriminate.
Qed.

Lemma word_or_blank_quiet_path (s : str) (prev : option ascii) :
  Forall word_or_blank s -> quiet match_path prev s.
Proof.
  apply (quiet_suffix match_path (Forall word_or_blank)).
  - intros c t H. now inversion H.
  - intros p t H. destruct (match_path p t) as [n|] eqn:E; [|reflexivity].
    apply match_path_slash in E. destruct E as [t' ->].
    inversion H as [|? ? [Hw | Hb] _]; discriminate.
Qed.

Lemma word_or_blank_quiet_punct (s : str) (prev : option ascii) :
  Forall word_or_blank s -> quiet match_punct prev s.
Proof.
  apply (quiet_suffix match_punct (Forall word_or_blank)).
  - intros c t H. now inversion H.
  - intros p t H. destruct t as [|c t]; [reflexivity|]. simpl.
    inversion H as [|? ? [Hw | Hb] _]; subst; unfold is_punct.
    + now rewrite Hw.
    + reflexivity.
Qed.

Lemma safe_quiet_hex (s : str) :
  forall q prev, safe is_hex q s = true -> quiet match_hex prev s.
Proof.
  induction s as [|c s IH]; intros q prev Hs; simpl quiet; [exact I|].
  pose proof Hs as Hs0.
  cbn [safe] in Hs. apply andb_true_iff in Hs. destruct Hs as [_ Hs].
  split; [|now apply (IH (hstep q c))].
  unfold match_hex.
  destruct (Ascii.eqb_spec c "0");
    [subst | destruct c as [[] [] [] [] [] [] [] []]; try reflexivity; congruence].
  destruct s as [|b s]; [reflexivity|].
  destruct (Ascii.eqb_spec b "x");
    [subst | destruct b as [[] [] [] [] [] [] [] []]; try reflexivity; congruence].
  destruct s as [|d s]; [reflexivity|].
  cbn [safe] in Hs. apply andb_true_iff in Hs. destruct Hs as [_ Hs].
  apply andb_true_iff in Hs. destruct Hs as [Hd _].
  change (hstep (hstep q "0") "x") with H2 in Hd. simpl in Hd.
  apply negb_true_iff in Hd. simpl. now rewrite Hd.
Qed.

(** A digit run read from its first digit, when a boundary follows it,
    stands alone. *)
Lemma digit_run_alone (s : str) :
  1 <= span_len is_digit s ->
  opt_word (nth_error s (span_len is_digit s)) = false ->
  forall q, q <> NW -> nsafe q s = false.
Proof.
  induction s as [|c s IH]; intros Hn Hb q Hq; [simpl in Hn; lia|].
  simpl in Hn. destruct (is_digit c) eqn:Ed; [|lia].
  rewrite (span_len_cons_true _ _ _ Ed) in Hb. cbn [nth_error] in Hb.
  cbn [nsafe]. apply andb_false_iff. right.
  assert (Hstep : nstep q c = ND).
  { unfold nstep. rewrite Ed. destruct q; congruence. }
  rewrite Hstep.
  destruct s as [|d s].
  - reflexivity.
  - simpl in Hb. destruct (is_digit d) eqn:Edd.
    + apply IH; [simpl; rewrite Edd; lia | | discriminate].
      simpl. now rewrite Edd.
    + simpl in Hb. cbn [nsafe]. rewrite Hb. reflexivity.
Qed.

Definition state_of (prev : option ascii) (q : nstate) : Prop :=
  q = NB <-> opt_word prev = false.

Lemma state_of_step (q : nstate) (c : ascii) :
  state_of (Some c) (nstep q c).
Proof.
  unfold state_of, nstep. simpl.
  destruct (is_digit c) eqn:Ed.
  - rewrite (digit_is_word c Ed). destruct q; split; discriminate.
  - destruct (is_word c); split; congruence.
Qed.

Lemma nsafe_quiet_number (s : str) :
  forall q prev, state_of prev q -> nsafe q s = true ->
                 quiet match_number prev s.
Proof.
  induction s as [|c s IH]; intros q prev Hq Hs; simpl quiet; [exact I|].
  split.
  - destruct (match_number prev (c :: s)) as [n|] eqn:E; [|reflexivity].
    exfalso. pose proof (match_number_Some_boundary _ _ _ E) as Hb.
    apply Hq in Hb. subst q.
    rewrite match_number_eq in E.
    destruct (1 <=? span_len is_digit (c :: s)) eqn:E1; [|discriminate].
    apply Nat.leb_le in E1.
    destruct (word_boundary prev (hd_error (c :: s))); [|discriminate].
    cbn [andb] in E.
    destruct (word_boundary _ _) eqn:E2 in E; [|discriminate].
    destruct (nth_error_span_digit (c :: s) (span_len is_digit (c :: s) - 1))
      as [d [Hd Hdd]]; [lia|].
    rewrite Hd in E2. unfold word_boundary in E2. cbn [opt_word] in E2.
    rewrite (digit_is_word d Hdd) in E2.
    assert (Hnb : opt_word (nth_error (c :: s) (span_len is_digit (c :: s))) = false).
    { destruct (opt_word _); [discriminate | reflexivity]. }
    rewrite (digit_run_alone (c :: s) E1 Hnb NB) in Hs; discriminate.
  - cbn [nsafe] in Hs. apply andb_true_iff in Hs. destruct Hs as [_ Hs].
    apply (IH (nstep q c)); [apply state_of_step | exact Hs].
Qed.

Lemma spaced_ws_fixed (s : str) :
  forall prev, spaced s -> re_sub_from match_ws (tok " ") prev 0 s = s.
Proof.
  induction s as [|c s IH]; intros prev Hs; [reflexivity|].
  destruct Hs as [Hc Hs]. destruct Hc as [Hw | [-> Hn]].
  - rewrite re_sub_copy; [f_equal; now apply IH|].
    unfold match_ws.
    now rewrite (span_len_cons_false _ _ _ (word_not_space c Hw)).
  - assert (Hm : match_ws prev (" "%char :: s) = Some 1).
    { unfold match_ws. rewrite span_len_cons_true by reflexivity.
      destruct s as [|d s]; [reflexivity|].
      now rewrite (span_len_cons_false _ _ _ (word_not_space d Hn)). }
    rewrite (re_sub_match match_ws (tok " ") prev (" "%char :: s) 0);
      [|discriminate | exact Hm].
    cbn [skipn nth_error]. change (tok " " ++ ?r) with (" "%char :: r).
    f_equal. now apply IH.
Qed.

(** *** The generaliser *)

Lemma tokens_lowered :
  Forall lowered (tok "ip address") /\ Forall lowered (tok "hex value")
  /\ Forall lowered (tok "file path") /\ Forall lowered (tok "number")
  /\ Forall lowered (tok " ").
Proof. repeat split; repeat constructor. Qed.

(** What every generalised text looks like. *)
Lemma generalize_shape (s : str) :
  let o := generalize s in
  Forall lowered o
  /\ spaced o
  /\ match o with c :: _ => is_space c = false | [] => True end
  /\ match rev o with c :: _ => is_space c = false | [] => True end
  /\ nsafe NB o = true.
Proof.
  intros o. unfold o, generalize, re_sub.
  destruct tokens_lowered as [Tip [Thex [Tpath [Tnum Tsp]]]].
  split; [|split; [|split; [|split]]].
  - apply strip_Forall.
    repeat (apply re_sub_from_Forall; [assumption|]).
    apply lower_Forall.
  - apply strip_spaced. apply ws_output. apply punct_output.
  - apply strip_ends.
  - apply strip_ends.
  - apply strip_nsafe. apply re_sub_ws_nsafe. apply re_sub_punct_nsafe.
    apply re_sub_number_nsafe. reflexivity.
Qed.

(** A text without [0x/] is generalised to a text without hexadecimal
    literal. *)
Lemma generalize_hex_safe (s : str) :
  contains (tok "0x/") (lower s) = false ->
  safe is_hex H0 (generalize s) = true.
Proof.
  intros Hno. unfold generalize.
  apply strip_safe, re_sub_ws_hex_safe, re_sub_punct_hex_safe,
    re_sub_number_hex_safe, re_sub_path_hex_safe.
  apply (safe_or is_hex is_slash).
  - apply re_sub_hex_safe. exact I.
  - apply re_sub_hex_slash_safe, re_sub_ip_slash_safe.
    now apply no_0x_slash_safe.
Qed.

(** A text of that shape, free of hexadecimal literals, is left as it
    is by every step. *)
Lemma generalize_fixed (o : str) :
  Forall lowered o ->
  spaced o ->
  match o with c :: _ => is_space c = false | [] => True end ->
  match rev o with c :: _ => is_space c = false | [] => True end ->
  nsafe NB o = true ->
  safe is_hex H0 o = true ->
  generalize o = o.
Proof.
  intros Hlow Hsp Hhd Hlast Hnum Hhex.
  pose proof (spaced_Forall o Hsp) as Hwb.
  unfold generalize, re_sub.
  rewrite (lower_lowered o Hlow).
  rewrite (re_sub_from_quiet match_ip) by now apply word_or_blank_quiet_ip.
  rewrite (re_sub_from_quiet match_hex) by now apply (safe_quiet_hex o H0).
  rewrite (re_sub_from_quiet match_path) by now apply word_or_blank_quiet_path.
  rewrite (re_sub_from_quiet match_number).
  2:{ apply (nsafe_quiet_number o NB); [|assumption]. split; reflexivity. }
  rewrite (re_sub_from_quiet match_punct) by now apply word_or_blank_quiet_punct.
  rewrite (spaced_ws_fixed o None Hsp).
  now apply strip_id.
Qed.

Lemma generalize_idempotent (s : str) :
  contains (tok "0x/") (lower s) = false ->
  generalize (generalize s) = generalize s.
Proof.
  intros Hno.
  destruct (generalize_shape s) as [Hlow [Hsp [Hhd [Hlast Hnum]]]].
  apply generalize_fixed; try assumption.
  now apply generalize_hex_safe.
Qed.

Open Scope string_scope.

Example generalize_ip :
  generalize_message "Connection from 192.168.1.100 failed"
  = "connection from ip address failed".
Proof. vm_compute. reflexivity. Qed.

Example generalize_line_and_path :
  generalize_message "Error at line 42 in /var/log/app.log"
  = "error at line number in file path".
Proof. vm_compute. reflexivity. Qed.

Example generalize_hex :
  generalize_message "Memory address 0xABCD1234" = "memory address hex value".
Proof. vm_compute. reflexivity. Qed.

(** C5, as the code has it.  Applying [generalize_message] twice equals
    applying it once, for every string whose lower-cased form does not
    contain [0x] immediately followed by a slash. *)
Theorem generalize_message_idempotent (s : string) :
  contains (tok "0x/") (lower (list_ascii_of_string s)) = false ->
  generalize_message (generalize_message s) = generalize_message s.
Proof.
  intros Hno. unfold generalize_message.
  rewrite list_ascii_of_string_of_list_ascii. f_equal.
  now apply generalize_idempotent.
Qed.

(** C5, the counterexample: the path after [0x] becomes [file path], and
    on the second application [0xf] is a hexadecimal literal. *)
Lemma generalize_message_not_idempotent :
  generalize_message "0x/abc" = "0xfile path"
  /\ generalize_message (generalize_message "0x/abc") = "hex valueile path"
  /\ generalize_message (generalize_message "0x/abc")
     <> generalize_message "0x/abc".
Proof.
  split; [vm_compute; reflexivity|].
  split; [vm_compute; reflexivity|].
  vm_compute. discriminate.
Qed.

(** C5 on a message with a line number and a path. *)
Lemma generalize_message_idempotent_witness :
  generalize_message
    (generalize_message "Error at line 42 in /var/log/app.log")
  = generalize_message "Error at line 42 in /var/log/app.log".
Proof.
  apply (generalize_message_idempotent "Error at line 42 in /var/log/app.log").
  vm_compute. reflexivity.
Defined.

(** C6, as the code has it.  Every character of a generalised message
    is a word character (a letter, a digit or the underscore) or a
    blank, so the punctuation pattern matches none of them and the only
    punctuation left is the underscore.  Blanks are single and none is
    at an end.  No run of digits stands alone as a word: the number
    pattern matches nowhere in the text. *)
Theorem generalize_message_shape (s : string) :
  let o := list_ascii_of_string (generalize_message s) in
  Forall (fun c => is_word c = true \/ c = " "%char) o
  /\ Forall (fun c => is_punct c = false) o
  /\ spaced o
  /\ hd_error o <> Some " "%char
  /\ hd_error (rev o) <> Some " "%char
  /\ quiet match_number None o.
Proof.
  intros o. unfold o, generalize_message.
  rewrite list_ascii_of_string_of_list_ascii.
  destruct (generalize_shape (list_ascii_of_string s))
    as [_ [Hsp [Hhd [Hlast Hnum]]]].
  pose proof (spaced_Forall _ Hsp) as Hwb.
  split; [exact Hwb|]. split.
  { eapply Forall_impl; [|exact Hwb]. intros c [Hw | ->].
    - unfold is_punct. now rewrite Hw.
    - reflexivity. }
  split; [exact Hsp|]. split.
  { destruct (generalize _) as [|c r]; [discriminate|].
    simpl. intros E. inversion E; subst. discriminate. }
  split.
  { destruct (rev (generalize _)) as [|c r]; [discriminate|].
    simpl. intros E. inversion E; subst. discriminate. }
  apply (nsafe_quiet_number _ NB); [split; reflexivity | exact Hnum].
Qed.

(** C6, the counterexample: digits inside a word and underscores are
    kept. *)
Lemma generalize_message_keeps_digits :
  generalize_message "node42 retry_count exceeded"
  = "node42 retry_count exceeded"
  /\ existsb is_digit
       (list_ascii_of_string
          (generalize_message "node42 retry_count exceeded")) = true
  /\ existsb (Ascii.eqb "_")
       (list_ascii_of_string
          (generalize_message "node42 retry_count exceeded")) = true.
Proof. repeat split; vm_compute; reflexivity. Qed.

End TextFacts.

(* ===================================================================== *)
(** ** processing/report_generator.py : the incident report              *)
(* ===================================================================== *)

Module IncidentReport.

Import KnowledgeBase Report Orchestrator.

(** The description printed for an incident: the text of the knowledge
    base, or the fixed sentence of the report when there is none. *)
Inductive incident_text :=
| IncidentKbText (text : cell)
| DescriptionNotFound.

Definition incident_text_of (problems_kb : list ProblemEntry) (problem : Z)
  : incident_text :=
  match filter (fun e => (problem_id e =? problem)%Z) problems_kb with
  | e :: _ => IncidentKbText (Problem_Text e)
  | [] => DescriptionNotFound
  end.

(** The three lines appended to the report for one incident. *)
Record IncidentEntry := {
  ie_rank : Z;
  ie_problem_text : incident_text;
  ie_problem_id : Z;
  ie_impact_score : Z;
  ie_anomaly_count : Z;
  ie_systems_affected : Z
}.

(** The loop over the rows of [impact_metrics]: a problem without an
    entry in [error_map] is passed over, and [rank] moves on only when
    an entry is written. *)
Fixpoint incident_entries (error_details : frame)
         (problems_kb : list ProblemEntry) (rank : Z)
         (impact_metrics : list ImpactRow) : list IncidentEntry :=
  match impact_metrics with
  | [] => []
  | metrics :: rest =>
      let problem := impact_problem_id metrics in
      match error_map_get error_details problem with
      | None => incident_entries error_details problems_kb rank rest
      | Some _ =>
          {| ie_rank := rank;
             ie_problem_text := incident_text_of problems_kb problem;
             ie_problem_id := problem;
             ie_impact_score := Impact_Score metrics;
             ie_anomaly_count := anomaly_count metrics;
             ie_systems_affected := unique_systems_affected metrics |}
          :: incident_entries error_details problems_kb (rank + 1) rest
      end
  end.

(** The file [Incident_Report_<case_name>.txt]: its heading names the
    case, its body is the entries. *)
Record IncidentFile := {
  if_case_name : string;
  if_entries : list IncidentEntry
}.

(** The heading and the entries the function assembles in [report]
    before it opens the file; [None] when the impact metrics are empty
    and it returns at once. *)
Definition assemble_incident_report `{Pandas} (case_name : string)
           (classified_logs : frame) (problems_kb : list ProblemEntry)
  : option IncidentFile :=
  let impact_metrics := calculate_impact_metrics classified_logs in
  match impact_metrics with
  | [] => None
  | _ =>
      Some {| if_case_name := case_name;
              if_entries :=
                incident_entries (error_details classified_logs)
                                 problems_kb 1 impact_metrics |}
  end.

(** The directory of the reports, as the function sees it: whether
    [open(os.path.join(reports_dir, name), 'w')] and the writing
    succeed for a name, or raise. *)
Class ReportsDir : Type := { open_for_writing : string -> bool }.

(** [f"Incident_Report_{case_name}.txt"] *)
Definition report_filename (case_name : string) : string :=
  ("Incident_Report_" ++ case_name ++ ".txt")%string.

Inductive incident_outcome :=
| NothingToReport                  (* returns without a file *)
| Written (file : IncidentFile)    (* returns with the file written *)
| WriteFailed.                     (* the opening or the writing raises *)

(** [generate_detailed_incident_report] *)
Definition generate_detailed_incident_report `{Pandas} `{ReportsDir}
           (case_name : string) (classified_logs : frame)
           (problems_kb : list ProblemEntry) : incident_outcome :=
  match assemble_incident_report case_name classified_logs problems_kb with
  | None => NothingToReport
  | Some report =>
      if open_for_writing (report_filename case_name)
      then Written report
      else WriteFailed
  end.

End IncidentReport.

(* ===================================================================== *)
(** ** Further properties of the report generator                        *)
(* ===================================================================== *)

Module ReportMore.

Import KnowledgeBase Report Orchestrator IncidentReport ReportFacts
       OrchestratorFacts.

Open Scope Z_scope.

Lemma drop_duplicates_from_length {A K : Type} (eqb : K -> K -> bool)
      (key : A -> K) (l : list A) :
  forall seen, (length (drop_duplicates_from eqb key seen l) <= length l)%nat.
Proof.
  induction l as [|x l IH]; intros seen; simpl; [lia|].
  destruct (existsb (eqb (key x)) seen); simpl.
  - specialize (IH seen). lia.
  - specialize (IH (key x :: seen)). lia.
Qed.

Lemma nunique_bounds (l : list string) :
  l <> [] -> 1 <= nunique l <= Z.of_nat (length l).
Proof.
  intros Hl. unfold nunique, drop_duplicates.
  pose proof (drop_duplicates_from_length String.eqb (fun x => x) l []) as Hle.
  destruct l as [|x l]; [congruence|]. simpl in *. lia.
Qed.

Lemma calculate_impact_metrics_row `{Pandas} (logs : frame) (row : ImpactRow) :
  In row (calculate_impact_metrics logs) ->
  let g := group_of (impact_problem_id row) (deduplicated logs) in
  g <> []
  /\ anomaly_count row = Z.of_nat (length g)
  /\ unique_systems_affected row = nunique (map file_name g)
  /\ Impact_Score row = anomaly_count row * unique_systems_affected row.
Proof.
  intros Hrow g.
  apply (Permutation_in _ (Permutation_sym (calculate_impact_metrics_perm logs)))
    in Hrow.
  destruct (impact_data_row logs row Hrow) as [Hid [Hc [Hu Hs]]].
  split; [|tauto].
  apply in_map_iff in Hid. destruct Hid as [r [Hr Hin]].
  intros Hnil. assert (Hg : In r g) by (apply group_of_In; tauto).
  rewrite Hnil in Hg. exact Hg.
Qed.

(** X1.  Every row [calculate_impact_metrics] returns counts at least
    one anomaly and at least one system, never more systems than
    anomalies; so its [Impact_Score] lies between the anomaly count and
    the square of the anomaly count. *)
Theorem impact_score_bounds (pd : Pandas) (logs : frame) (row : ImpactRow) :
  In row (calculate_impact_metrics logs) ->
  1 <= unique_systems_affected row <= anomaly_count row
  /\ anomaly_count row <= Impact_Score row
     <= anomaly_count row * anomaly_count row.
Proof.
  intros Hrow.
  destruct (calculate_impact_metrics_row logs row Hrow) as [Hne [Hc [Hu Hs]]].
  set (g := group_of (impact_problem_id row) (deduplicated logs)) in *.
  assert (Hb : 1 <= nunique (map file_name g) <= Z.of_nat (length (map file_name g))).
  { apply nunique_bounds. destruct g; [congruence | discriminate]. }
  rewrite length_map in Hb. rewrite Hs, Hu, Hc. nia.
Qed.

Definition Zsum (l : list Z) : Z := fold_right Z.add 0 l.

Lemma Zsum_cons (a : Z) (l : list Z) : Zsum (a :: l) = a + Zsum l.
Proof. reflexivity. Qed.

Lemma Zsum_perm (l l' : list Z) : Permutation l l' -> Zsum l = Zsum l'.
Proof.
  induction 1; simpl; try lia.
Qed.

Lemma Zsum_one_hot (k : Z) (ids : list Z) :
  NoDup ids -> In k ids ->
  Zsum (map (fun p => if k =? p then 1 else 0) ids) = 1.
Proof.
  induction ids as [|q ids IH]; intros Hnd Hin; [contradiction|].
  inversion Hnd as [|? ? Hnotin Hnd']; subst. simpl.
  destruct Hin as [-> | Hin].
  - rewrite Z.eqb_refl.
    assert (Hz : Zsum (map (fun p => if k =? p then 1 else 0) ids) = 0).
    { clear IH Hnd Hnd'. induction ids as [|r ids IH]; [reflexivity|]. simpl.
      destruct (Z.eqb_spec k r).
      - subst. exfalso. apply Hnotin. now left.
      - rewrite IH; [reflexivity|]. intros Hk. apply Hnotin. now right. }
    lia.
  - destruct (Z.eqb_spec k q); [subst; contradiction|].
    rewrite IH; auto.
Qed.

(** The groups of a frame by problem id add up to the frame. *)
Lemma group_lengths_total (l : frame) (ids : list Z) :
  NoDup ids -> (forall r, In r l -> In (final_problem_id r) ids) ->
  Zsum (map (fun p => Z.of_nat (length (group_of p l))) ids)
  = Z.of_nat (length l).
Proof.
  intros Hnd. induction l as [|x l IH]; intros Hcover.
  - clear Hnd Hcover. induction ids as [|p ids IHi]; [reflexivity|].
    simpl in *. lia.
  - assert (Hsplit :
      forall ids',
        Zsum (map (fun p => Z.of_nat (length (group_of p (x :: l)))) ids')
        = Zsum (map (fun p => if final_problem_id x =? p then 1 else 0) ids')
          + Zsum (map (fun p => Z.of_nat (length (group_of p l))) ids')).
    { induction ids' as [|p ids' IHi]; [reflexivity|].
      rewrite !map_cons, !Zsum_cons, IHi.
      assert (Hx : Z.of_nat (length (group_of p (x :: l)))
                   = (if final_problem_id x =? p then 1 else 0)
                     + Z.of_nat (length (group_of p l))).
      { unfold group_of. cbn [filter].
        destruct (final_problem_id x =? p); cbn [length]; lia. }
      lia. }
    rewrite Hsplit, IH by (intros r Hr; apply Hcover; now right).
    rewrite Zsum_one_hot; [simpl length; lia | assumption |].
    apply Hcover. now left.
Qed.

(** X2.  The anomaly counts of the rows [calculate_impact_metrics]
    returns add up to the number of deduplicated reportable warnings:
    every such warning is counted for exactly one problem. *)
Theorem impact_counts_total (pd : Pandas) (logs : frame) :
  Zsum (map anomaly_count (calculate_impact_metrics logs))
  = Z.of_nat (length (deduplicated logs)).
Proof.
  rewrite <- (Zsum_perm _ _ (Permutation_map anomaly_count
                                (calculate_impact_metrics_perm logs))).
  unfold impact_data, groupby_agg. rewrite !map_map. simpl.
  rewrite <- (Zsum_perm _ _
    (Permutation_map (fun p => Z.of_nat (length (group_of p (deduplicated logs))))
       (sort_keys_perm (unique (map final_problem_id (deduplicated logs)))))).
  apply group_lengths_total.
  - apply unique_NoDup.
  - intros r Hr. apply unique_In. now apply in_map.
Qed.

(** *** The incident report *)

Lemma impact_problem_ids `{Pandas} (logs : frame) (p : Z) :
  In p (map impact_problem_id (calculate_impact_metrics logs)) <->
  exists w, In w logs /\ Level w = "WARNING"%string
            /\ final_problem_id w <> 0 /\ final_problem_id w = p.
Proof.
  assert (Hids : Permutation (unique (map final_problem_id (deduplicated logs)))
                   (map impact_problem_id (calculate_impact_metrics logs))).
  { etransitivity; [apply sort_keys_perm|].
    rewrite <- impact_data_ids. apply Permutation_map.
    apply calculate_impact_metrics_perm. }
  split.
  - intros Hp. apply (Permutation_in _ (Permutation_sym Hids)) in Hp.
    apply (proj1 (unique_In _ _)) in Hp.
    apply in_map_iff in Hp. destruct Hp as [r [Hr Hin]].
    apply deduplicated_In in Hin. exists r. tauto.
  - intros [w [Hw [Hl [Hnz Hp]]]].
    apply (Permutation_in _ Hids). apply unique_In.
    destruct (deduplicated_keys logs w Hw Hl Hnz) as [k [Hk Hkey]].
    apply in_map_iff. exists k. split; [|assumption].
    unfold pair_key in Hkey. inversion Hkey. congruence.
Qed.

Lemma calculate_impact_metrics_NoDup `{Pandas} (logs : frame) :
  NoDup (map impact_problem_id (calculate_impact_metrics logs)).
Proof.
  assert (Hids : Permutation (unique (map final_problem_id (deduplicated logs)))
                   (map impact_problem_id (calculate_impact_metrics logs))).
  { etransitivity; [apply sort_keys_perm|].
    rewrite <- impact_data_ids. apply Permutation_map.
    apply calculate_impact_metrics_perm. }
  apply (Permutation_NoDup Hids). apply unique_NoDup.
Qed.

(** An entry of the map of first errors is an ERROR record of the
    problem. *)
Lemma error_map_get_sound `{Pandas} (logs : frame) (p : Z) (e : ClassifiedLog) :
  error_map_get (error_details logs) p = Some e ->
  In e logs /\ Level e = "ERROR"%string /\ final_problem_id e = p /\ p <> 0.
Proof.
  unfold error_map_get, error_details. intros E.
  apply find_some in E. destruct E as [Hin Hp]. apply Z.eqb_eq in Hp.
  apply drop_duplicates_In in Hin; [|apply Z.eqb_eq].
  apply sort_values_In in Hin. apply filter_In in Hin. destruct Hin as [Hin Hk].
  apply is_known_error_iff in Hk. subst p. tauto.
Qed.

(** The rows of the impact table that reach the report. *)
Definition has_error_entry (error_details : frame) (row : ImpactRow) : bool :=
  match error_map_get error_details (impact_problem_id row) with
  | Some _ => true
  | None => false
  end.

Definition entry_figures (e : IncidentEntry) : Z * Z * Z * Z :=
  (ie_problem_id e, ie_impact_score e, ie_anomaly_count e, ie_systems_affected e).

Definition row_figures (r : ImpactRow) : Z * Z * Z * Z :=
  (impact_problem_id r, Impact_Score r, anomaly_count r, unique_systems_affected r).

Lemma incident_entries_figures (ed : frame) (kb : list ProblemEntry)
      (metrics : list ImpactRow) :
  forall rank,
    map entry_figures (incident_entries ed kb rank metrics)
    = map row_figures (filter (has_error_entry ed) metrics).
Proof.
  induction metrics as [|m metrics IH]; intros rank; [reflexivity|].
  simpl. unfold has_error_entry at 1.
  destruct (error_map_get ed (impact_problem_id m)); simpl; [f_equal|]; apply IH.
Qed.

Lemma incident_entries_ranks (ed : frame) (kb : list ProblemEntry)
      (metrics : list ImpactRow) :
  forall rank,
    map ie_rank (incident_entries ed kb rank metrics)
    = map (fun i => rank + Z.of_nat i)
          (seq 0 (length (incident_entries ed kb rank metrics))).
Proof.
  induction metrics as [|m metrics IH]; intros rank; [reflexivity|].
  simpl. destruct (error_map_get ed (impact_problem_id m)); [|apply IH].
  simpl. f_equal; [lia|]. rewrite IH, <- seq_shift, map_map.
  apply map_ext. intros i. lia.
Qed.

Lemma StronglySorted_map_iff {A B : Type} (f : A -> B) (R : B -> B -> Prop)
      (l : list A) :
  StronglySorted (fun x y => R (f x) (f y)) l -> StronglySorted R (map f l).
Proof.
  induction 1 as [|x l Hs IH Hall]; simpl; constructor; [exact IH|].
  rewrite Forall_forall in *. intros y Hy. apply in_map_iff in Hy.
  destruct Hy as [z [<- Hz]]. now apply Hall.
Qed.

(** Rows with distinct keys keep distinct keys when some are dropped. *)
Lemma distinct_keys_kept {Row Key : Type} (key : Row -> Key)
      (keep : Row -> bool) (rows : list Row) :
  NoDup (map key rows) -> NoDup (map key (filter keep rows)).
Proof.
  intros Hnd. induction rows as [|r rows IH]; simpl; [constructor|].
  inversion Hnd as [|? ? Hnotin Hnd']; subst.
  destruct (keep r); simpl; [|now apply IH].
  constructor; [|now apply IH].
  intros Hin. apply Hnotin. apply in_map_iff in Hin.
  destruct Hin as [x [Hx Hin]]. apply filter_In in Hin.
  apply in_map_iff. exists x. tauto.
Qed.

Lemma assembled_report_ranks `{Pandas} (case_name : string)
        (logs : frame) (kb : list ProblemEntry) (file : IncidentFile) :
  assemble_incident_report case_name logs kb = Some file ->
  map ie_rank (if_entries file)
  = map (fun i => 1 + Z.of_nat i) (seq 0 (length (if_entries file)))
  /\ StronglySorted (fun a b => b <= a) (map ie_impact_score (if_entries file))
  /\ NoDup (map ie_problem_id (if_entries file)).
Proof.
  unfold assemble_incident_report. intros Hf.
  assert (E : if_entries file
              = incident_entries (error_details logs) kb 1
                                 (calculate_impact_metrics logs)).
  { destruct (calculate_impact_metrics logs); [discriminate|].
    inversion Hf. reflexivity. }
  rewrite E. clear E Hf.
  pose proof (incident_entries_figures (error_details logs) kb
                (calculate_impact_metrics logs) 1) as Hfig.
  split; [apply incident_entries_ranks|]. split.
  - replace (map ie_impact_score _)
      with (map (fun t => snd (fst (fst t)))
                (map entry_figures
                     (incident_entries (error_details logs) kb 1
                                       (calculate_impact_metrics logs))))
      by (rewrite map_map; reflexivity).
    rewrite Hfig, map_map. apply StronglySorted_map_iff.
    apply StronglySorted_filter_keep. apply calculate_impact_metrics_sorted.
  - replace (map ie_problem_id _)
      with (map (fun t => fst (fst (fst t)))
                (map entry_figures
                     (incident_entries (error_details logs) kb 1
                                       (calculate_impact_metrics logs))))
      by (rewrite map_map; reflexivity).
    rewrite Hfig, map_map.
    change (fun x => fst (fst (fst (row_figures x)))) with impact_problem_id.
    apply distinct_keys_kept. apply calculate_impact_metrics_NoDup.
Qed.

Lemma assembled_report_entries `{Pandas} (case_name : string)
        (logs : frame) (kb : list ProblemEntry) :
  (assemble_incident_report case_name logs kb = None <->
   forall w, In w logs -> Level w = "WARNING"%string -> final_problem_id w = 0)
  /\ forall file,
       assemble_incident_report case_name logs kb = Some file ->
       if_case_name file = case_name
       /\ forall p,
            In p (map ie_problem_id (if_entries file)) <->
            (exists w, In w logs /\ Level w = "WARNING"%string
                       /\ final_problem_id w = p /\ p <> 0)
            /\ (exists e, In e logs /\ Level e = "ERROR"%string
                          /\ final_problem_id e = p).
Proof.
  unfold assemble_incident_report. split.
  - split.
    + intros Hnone w Hw Hl.
      destruct (Z.eq_dec (final_problem_id w) 0) as [E | E]; [exact E|].
      exfalso.
      assert (Hin : In (final_problem_id w)
                       (map impact_problem_id (calculate_impact_metrics logs))).
      { apply impact_problem_ids. exists w. tauto. }
      destruct (calculate_impact_metrics logs); [exact Hin | discriminate].
    + intros Hall.
      destruct (calculate_impact_metrics logs) as [|r l] eqn:E; [reflexivity|].
      exfalso.
      assert (Hin : In (impact_problem_id r)
                       (map impact_problem_id (calculate_impact_metrics logs))).
      { rewrite E. now left. }
      apply impact_problem_ids in Hin.
      destruct Hin as [w [Hw [Hl [Hnz _]]]]. apply Hnz. now apply Hall.
  - intros file Hf.
    assert (E : file
                = {| if_case_name := case_name;
                     if_entries := incident_entries (error_details logs) kb 1
                                     (calculate_impact_metrics logs) |}).
    { destruct (calculate_impact_metrics logs); [discriminate|].
      now inversion Hf. }
    subst file. simpl. split; [reflexivity|]. intros p.
    replace (map ie_problem_id _)
      with (map (fun t => fst (fst (fst t)))
                (map entry_figures
                     (incident_entries (error_details logs) kb 1
                                       (calculate_impact_metrics logs))))
      by (rewrite map_map; reflexivity).
    rewrite incident_entries_figures, map_map.
    change (fun x => fst (fst (fst (row_figures x)))) with impact_problem_id.
    rewrite in_map_iff. split.
    + intros [row [Hp Hrow]]. apply filter_In in Hrow. destruct Hrow as [Hrow Herr].
      assert (Hin : In p (map impact_problem_id (calculate_impact_metrics logs))).
      { apply in_map_iff. exists row. tauto. }
      apply impact_problem_ids in Hin. destruct Hin as [w [Hw [Hl [Hnz Hpw]]]].
      split; [exists w; repeat split; congruence|].
      unfold has_error_entry in Herr. rewrite Hp in Herr.
      destruct (error_map_get (error_details logs) p) as [e|] eqn:Ee;
        [|discriminate].
      apply error_map_get_sound in Ee. exists e. tauto.
    + intros [[w [Hw [Hl [Hpw Hnz]]]] [e [He [Hle Hpe]]]].
      assert (Hin : In p (map impact_problem_id (calculate_impact_metrics logs))).
      { apply impact_problem_ids. exists w. repeat split; congruence. }
      apply in_map_iff in Hin. destruct Hin as [row [Hp Hrow]].
      exists row. split; [exact Hp|]. apply filter_In. split; [exact Hrow|].
      unfold has_error_entry. rewrite Hp.
      destruct (error_map_get_Some logs p e He Hle Hpe Hnz) as [e0 ->].
      reflexivity.
Qed.

(** X3.  In the file [generate_detailed_incident_report] writes, the
    ranks are 1, 2, 3, ... without a gap, the impact scores do not
    increase along the ranks, and no problem is listed twice. *)
Theorem incident_report_ranks (pd : Pandas) (rd : ReportsDir)
        (case_name : string) (logs : frame) (kb : list ProblemEntry)
        (file : IncidentFile) :
  generate_detailed_incident_report case_name logs kb = Written file ->
  map ie_rank (if_entries file)
  = map (fun i => 1 + Z.of_nat i) (seq 0 (length (if_entries file)))
  /\ StronglySorted (fun a b => b <= a) (map ie_impact_score (if_entries file))
  /\ NoDup (map ie_problem_id (if_entries file)).
Proof.
  unfold generate_detailed_incident_report. intros Hf.
  destruct (assemble_incident_report case_name logs kb) as [report|] eqn:E;
    [|discriminate].
  destruct (open_for_writing (report_filename case_name)); [|discriminate].
  inversion Hf; subst report. now apply (assembled_report_ranks case_name logs kb).
Qed.

(** X4.  [generate_detailed_incident_report] returns without a file
    exactly when every WARNING record has problem id 0.  Otherwise it
    opens Incident_Report_<case name>.txt in the directory of the
    reports: it raises exactly when that fails, and writes the file
    exactly when it succeeds.  The file names the case, and a problem
    is listed in it exactly when it has a WARNING record with that
    problem id, other than 0, and also an ERROR record: a problem known
    from warnings alone is left out, and takes no rank. *)
Theorem incident_report_entries (pd : Pandas) (rd : ReportsDir)
        (case_name : string) (logs : frame) (kb : list ProblemEntry) :
  let reportable :=
    exists w, In w logs /\ Level w = "WARNING"%string
              /\ final_problem_id w <> 0 in
  let opened :=
    open_for_writing ("Incident_Report_" ++ case_name ++ ".txt")%string in
  (generate_detailed_incident_report case_name logs kb = NothingToReport
   <-> ~ reportable)
  /\ (generate_detailed_incident_report case_name logs kb = WriteFailed
      <-> reportable /\ opened = false)
  /\ ((exists file,
         generate_detailed_incident_report case_name logs kb = Written file)
      <-> reportable /\ opened = true)
  /\ forall file,
       generate_detailed_incident_report case_name logs kb = Written file ->
       if_case_name file = case_name
       /\ forall p,
            In p (map ie_problem_id (if_entries file)) <->
            (exists w, In w logs /\ Level w = "WARNING"%string
                       /\ final_problem_id w = p /\ p <> 0)
            /\ (exists e, In e logs /\ Level e = "ERROR"%string
                          /\ final_problem_id e = p).
Proof.
  intros reportable opened.
  destruct (assembled_report_entries case_name logs kb) as [Hnone Hsome].
  assert (Hrep : assemble_incident_report case_name logs kb = None
                 <-> ~ reportable).
  { rewrite Hnone. unfold reportable. split.
    - intros Hall [w [Hw [Hl Hnz]]]. apply Hnz. now apply Hall.
    - intros Hno w Hw Hl.
      destruct (Z.eq_dec (final_problem_id w) 0) as [E | E]; [exact E|].
      exfalso. apply Hno. exists w. tauto. }
  assert (Hyes : forall report,
             assemble_incident_report case_name logs kb = Some report ->
             reportable).
  { intros report Hr. unfold assemble_incident_report in Hr.
    destruct (calculate_impact_metrics logs) as [|row l] eqn:Em; [discriminate|].
    assert (Hin : In (impact_problem_id row)
                     (map impact_problem_id (calculate_impact_metrics logs)))
      by (rewrite Em; now left).
    apply impact_problem_ids in Hin. destruct Hin as [w [Hw [Hl [Hnz _]]]].
    exists w. tauto. }
  unfold generate_detailed_incident_report.
  change (open_for_writing (report_filename case_name)) with opened.
  destruct (assemble_incident_report case_name logs kb) as [report|] eqn:E.
  - pose proof (Hyes report eq_refl) as Hy.
    destruct opened eqn:Eo.
    + split; [split; [discriminate | intros Hn; now contradiction Hn]|].
      split; [split; [discriminate | intros [_ Hf]; discriminate]|].
      split; [split; [intros _; tauto | intros _; now exists report]|].
      intros file Hf. inversion Hf; subst file. now apply Hsome.
    + split; [split; [discriminate | intros Hn; now contradiction Hn]|].
      split; [split; [intros _; tauto | reflexivity]|].
      split; [split; [intros [f Hf]; discriminate | intros [_ Hf]; discriminate]|].
      intros file Hf. discriminate.
  - pose proof (proj1 Hrep eq_refl) as Hn.
    split; [split; [intros _; exact Hn | reflexivity]|].
    split; [split; [discriminate | intros [Hy _]; now contradiction Hn]|].
    split; [split; [intros [f Hf]; discriminate
                   | intros [Hy _]; now contradiction Hn]|].
    intros file Hf. discriminate.
Qed.

(** *** Predictive alerts *)

(** X5.  [generate_predictive_alerts] has an alert for a problem and an
    anomaly id exactly when the problem has a classified ERROR record,
    the anomaly table has a row for the pair, and no WARNING record of
    the problem carries the anomaly id.  Every alert carries the
    scenario id of the case and the description of the first row of the
    problem table with its problem id. *)
Theorem predictive_alert_pairs (pd : Pandas) (logs : frame)
        (akb : list AnomalyEntry) (pkb : list ProblemEntry) (case_name : string) :
  exists alerts,
    generate_predictive_alerts logs akb pkb case_name = Some alerts
    /\ (forall p a,
          (exists al, In al alerts /\ pa_trigger_problem_id al = p
                      /\ pa_predicted_anomaly_id al = a)
          <-> (exists e, In e logs /\ Level e = "ERROR"%string
                         /\ final_problem_id e = p /\ p <> 0)
              /\ (exists row, In row akb /\ a_problem_id row = p
                              /\ anomaly_id row = a)
              /\ (forall w, In w logs -> Level w = "WARNING"%string ->
                            final_problem_id w = p -> final_anomaly_id w <> a))
    /\ (forall al, In al alerts ->
          pa_scenario_id al = scenario_id case_name
          /\ pa_problem_description al
             = problem_text_of pkb (pa_trigger_problem_id al)
          /\ exists row, In row akb
                         /\ pa_predicted_anomaly_id al = anomaly_id row
                         /\ pa_predicted_text al = Anomaly_Text row).
Proof.
  eexists. split; [apply generate_predictive_alerts_eq|]. split.
  - intros p a. split.
    + intros [al [Hal [Hp Ha]]].
      apply in_flat_map in Hal. destruct Hal as [q [Hq Hal]].
      pose proof (alerts_of_trigger _ _ _ _ _ _ Hal) as Hq'.
      assert (Hqp : q = p) by congruence. clear Hq'. subst q.
      unfold alerts_of in Hal.
      destruct (trigger_of (filter is_known_error logs) p) as [t|] eqn:Et;
        [|simpl in Hal; tauto].
      apply in_map_iff in Hal. destruct Hal as [row [Hrow Hin]].
      unfold missing_rows in Hin. apply filter_In in Hin.
      destruct Hin as [Hin Hno]. apply filter_In in Hin.
      destruct Hin as [Hin Hpr]. apply Z.eqb_eq in Hpr.
      assert (Har : anomaly_id row = a) by (rewrite <- Ha, <- Hrow; reflexivity).
      split; [|split].
      * apply trigger_of_earliest in Et. exists t. tauto.
      * exists row. tauto.
      * intros w Hw Hl Hpw Haw. apply negb_true_iff in Hno.
        apply existsb_eqb_not_In in Hno; [|apply Z.eqb_eq].
        apply Hno. apply occurred_anomalies_In. exists w.
        repeat split; try assumption. congruence.
    + intros [[e [He [Hl [Hp Hnz]]]] [[row [Hrow [Hpr Har]]] Hnew]].
      assert (Hin : In p (map final_problem_id (filter is_known_error logs))).
      { apply in_map_iff. exists e. split; [assumption|].
        apply filter_In. split; [assumption|].
        apply is_known_error_iff. split; congruence. }
      destruct (trigger_of_defined _ _ Hin) as [t Ht].
      exists (alert_of pkb (scenario_id case_name) p t row).
      split; [|split; [reflexivity | exact Har]].
      apply in_flat_map. exists p. split; [now apply unique_In|].
      unfold alerts_of. rewrite Ht. apply in_map.
      unfold missing_rows. apply filter_In. split.
      * apply filter_In. split; [assumption | now apply Z.eqb_eq].
      * apply negb_true_iff. apply existsb_eqb_not_In; [apply Z.eqb_eq|].
        intros Hocc. apply occurred_anomalies_In in Hocc.
        destruct Hocc as [w [Hw [Hlw [Hpw Haw]]]].
        apply (Hnew w Hw Hlw Hpw). congruence.
  - intros al Hal. apply in_flat_map in Hal. destruct Hal as [q [Hq Hal]].
    unfold alerts_of in Hal.
    destruct (trigger_of (filter is_known_error logs) q) as [t|]; [|simpl in Hal; tauto].
    apply in_map_iff in Hal. destruct Hal as [row [<- Hin]]. simpl.
    split; [reflexivity|]. split; [reflexivity|].
    exists row. split; [|tauto].
    unfold missing_rows in Hin. apply filter_In in Hin.
    destruct Hin as [Hin _]. apply filter_In in Hin. tauto.
Qed.

(** *** Novel anomalies *)

(** The function in one piece: the two early returns, the window, the
    loop. *)
Lemma identify_novel_anomalies_eq `{Pandas} `{Config} (logs : frame)
      (case_name : string) :
  identify_novel_anomalies logs case_name
  = match filter is_novel_warning logs, filter is_known_error logs with
    | [], _ => Some []
    | _, [] => Some []
    | _, _ =>
        match timedelta_minutes NOVEL_ANOMALY_WINDOW_MINUTES with
        | None => None
        | Some tw =>
            novel_loop
              (novel_alert_for
                 (sort_values by_Timestamp true (filter is_known_error logs))
                 (scenario_id case_name) tw)
              (novel_warnings logs)
        end
    end.
Proof.
  unfold identify_novel_anomalies, time_window.
  destruct (filter is_novel_warning logs) as [|w ws]; [reflexivity|].
  destruct (filter is_known_error logs) as [|e es] eqn:Ee.
  - now rewrite sort_values_nil.
  - destruct (sort_values by_Timestamp true (e :: es)) as [|k ks] eqn:Ek;
      [|reflexivity].
    exfalso. apply (sort_values_nonempty by_Timestamp true (e :: es));
      [discriminate | exact Ek].
Qed.

Lemma novel_loop_Some_In (body : ClassifiedLog -> option (option NovelAlert))
      (l : frame) :
  forall out,
    novel_loop body l = Some out ->
    (forall w, In w l -> body w <> None)
    /\ (length out <= length l)%nat
    /\ forall a, In a out <-> exists w, In w l /\ body w = Some (Some a).
Proof.
  induction l as [|x l IH]; intros out Hout; simpl in Hout.
  - inversion Hout. split; [intros w []|]. split; [simpl; lia|].
    intros a. split; [intros [] | intros [w [[] _]]].
  - destruct (body x) as [found|] eqn:Ex; [|discriminate].
    destruct (novel_loop body l) as [alerts|]; [|discriminate].
    destruct (IH alerts eq_refl) as [Hb [Hlen Hin]].
    inversion Hout; subst out; clear Hout.
    split; [|split].
    + intros w [<- | Hw]; [congruence | now apply Hb].
    + destruct found; simpl; lia.
    + intros a. destruct found as [b|]; cbn [In]; rewrite Hin; split.
      * intros [-> | [w [Hw Hbw]]]; [exists x | exists w]; simpl; tauto.
      * intros [w [[<- | Hw] Hbw]]; [left; congruence | right; exists w; tauto].
      * intros [w [Hw Hbw]]. exists w. simpl. tauto.
      * intros [w [[<- | Hw] Hbw]]; [congruence | exists w; tauto].
Qed.

(** X6.  Every alert [identify_novel_anomalies] returns has anomaly id
    0, a problem id other than 0 and the scenario id of the case, and
    carries the file, line and raw log of a WARNING record whose
    problem id is 0.  There are no more alerts than novel warnings with
    distinct (generalised message, file) pairs, and none at all when no
    ERROR record has a problem id: the function then returns the empty
    table, whatever the window. *)
Theorem novel_alerts_sound (pd : Pandas) (cfg : Config) (logs : frame)
        (case_name : string) :
  ((forall e, In e logs -> Level e = "ERROR"%string -> final_problem_id e = 0) ->
   identify_novel_anomalies logs case_name = Some [])
  /\ forall out,
       identify_novel_anomalies logs case_name = Some out ->
       (forall a, In a out ->
          na_anomaly_id a = 0 /\ na_problem_id a <> 0
          /\ na_scenario_id a = scenario_id case_name
          /\ exists w, In w logs /\ Level w = "WARNING"%string
                       /\ final_problem_id w = 0
                       /\ na_file_name a = file_name w
                       /\ na_line_number a = line_number w
                       /\ na_log a = log w)
       /\ (length out <= length (novel_warnings logs))%nat
       /\ NoDup (map novel_key (novel_warnings logs))
       /\ ((forall e, In e logs -> Level e = "ERROR"%string ->
                      final_problem_id e = 0) -> out = []).
Proof.
  assert (Hnone : (forall e, In e logs -> Level e = "ERROR"%string ->
                             final_problem_id e = 0) ->
                  identify_novel_anomalies logs case_name = Some []).
  { intros Hno. rewrite identify_novel_anomalies_eq.
    assert (E : filter is_known_error logs = []).
    { apply filter_none. intros e He.
      destruct (is_known_error e) eqn:Ek; [|reflexivity].
      apply is_known_error_iff in Ek. destruct Ek as [Hl Hnz].
      exfalso. apply Hnz. now apply Hno. }
    rewrite E. now destruct (filter is_novel_warning logs). }
  split; [exact Hnone|].
  intros out Hout.
  assert (Hloop : out = []
                  \/ exists tw,
                       novel_loop
                         (novel_alert_for
                            (sort_values by_Timestamp true
                                         (filter is_known_error logs))
                            (scenario_id case_name) tw)
                         (novel_warnings logs) = Some out).
  { rewrite identify_novel_anomalies_eq in Hout.
    destruct (filter is_novel_warning logs); [left; congruence|].
    destruct (filter is_known_error logs); [left; congruence|].
    destruct (timedelta_minutes NOVEL_ANOMALY_WINDOW_MINUTES) as [tw|];
      [|discriminate].
    right. now exists tw. }
  split; [|split; [|split]].
  - intros a Ha. destruct Hloop as [-> | [tw Hloop]]; [destruct Ha|].
    apply novel_loop_Some_In in Hloop. destruct Hloop as [_ [_ Hin]].
    apply Hin in Ha. destruct Ha as [w [Hw Hb]].
    unfold novel_alert_for in Hb.
    destruct (sub_timedelta (Timestamp w) tw) as [start|]; [|discriminate].
    destruct (last_row _) as [c|] eqn:Ec; [|discriminate].
    inversion Hb; subst a; clear Hb. simpl.
    destruct (last_row_Some _ _ Ec) as [l' Hl'].
    assert (Hc : In c (potential_causes
                         (sort_values by_Timestamp true
                                      (filter is_known_error logs))
                         start (Timestamp w))).
    { rewrite Hl'. apply in_or_app. right. now left. }
    apply potential_causes_In in Hc. destruct Hc as [_ [_ [Hnz _]]].
    split; [reflexivity|]. split; [exact Hnz|]. split; [reflexivity|].
    exists w. unfold novel_warnings in Hw.
    apply drop_duplicates_In in Hw; [|apply ss_eqb_eq].
    apply filter_In in Hw. destruct Hw as [Hw Hn].
    apply is_novel_warning_iff in Hn. tauto.
  - destruct Hloop as [-> | [tw Hloop]]; [simpl; lia|].
    now apply novel_loop_Some_In in Hloop.
  - apply drop_duplicates_NoDup. apply ss_eqb_eq.
  - intros Hno. rewrite (Hnone Hno) in Hout. congruence.
Qed.

Lemma hd_error_filter_find {A : Type} (f : A -> bool) (l : list A) :
  hd_error (filter f l) = find f l.
Proof.
  induction l as [|x l IH]; simpl; [reflexivity|].
  destruct (f x); [reflexivity | exact IH].
Qed.

Lemma filter_rev_comm {A : Type} (f : A -> bool) (l : list A) :
  rev (filter f l) = filter f (rev l).
Proof.
  induction l as [|x l IH]; simpl; [reflexivity|].
  rewrite filter_app. simpl. destruct (f x); simpl.
  - now rewrite IH.
  - now rewrite IH, app_nil_r.
Qed.

Lemma last_row_find (f : ClassifiedLog -> bool) (l : frame) :
  last_row (filter f l) = find f (rev l).
Proof.
  unfold last_row. rewrite filter_rev_comm, <- hd_error_filter_find.
  destruct (filter f (rev l)); reflexivity.
Qed.

Lemma StronglySorted_weaken {A : Type} (R R' : A -> A -> Prop) (l : list A) :
  (forall x y, R x y -> R' x y) -> StronglySorted R l -> StronglySorted R' l.
Proof.
  intros HR. induction 1 as [|x l Hs IH Hall]; constructor; [exact IH|].
  eapply Forall_impl; [|exact Hall]. intros y. apply HR.
Qed.

Lemma StronglySorted_rev_flip {A : Type} (R : A -> A -> Prop) (l : list A) :
  StronglySorted R l -> StronglySorted (fun x y => R y x) (rev l).
Proof.
  induction 1 as [|x l Hs IH Hall]; simpl; [constructor|].
  induction (rev l) as [|y r IHr] eqn:E in IH, Hall |- *.
  - simpl. repeat constructor.
  - assert (Hy : forall z, In z (y :: r) -> R x z).
    { intros z Hz. rewrite Forall_forall in Hall. apply Hall.
      apply in_rev. rewrite E. exact Hz. }
    clear E Hall IHr.
    revert Hy IH. generalize (y :: r). clear y r. intros r Hy IH.
    induction IH as [|z r Hs' IH' Hall']; simpl.
    + repeat constructor.
    + constructor.
      * apply IH'. intros w Hw. apply Hy. now right.
      * apply Forall_app. split; [exact Hall'|].
        constructor; [|constructor]. apply Hy. now left.
Qed.

(** In a frame in descending time order, the first row inside a window
    that ends at [hi] stays the first when the window opens earlier. *)
Lemma find_window_wider (lo1 lo2 hi : Z) (l : frame) (c : ClassifiedLog) :
  lo2 <= lo1 ->
  StronglySorted (fun x y => Timestamp y <= Timestamp x) l ->
  find (fun e => (lo1 <=? Timestamp e) && (Timestamp e <=? hi)) l = Some c ->
  find (fun e => (lo2 <=? Timestamp e) && (Timestamp e <=? hi)) l = Some c.
Proof.
  intros Hlo Hs. induction Hs as [|x l Hs IH Hall]; simpl; [discriminate|].
  destruct ((lo1 <=? Timestamp x) && (Timestamp x <=? hi)) eqn:E1.
  - intros Hc. inversion Hc; subst c.
    apply andb_true_iff in E1. rewrite !Z.leb_le in E1.
    assert (E2 : (lo2 <=? Timestamp x) && (Timestamp x <=? hi) = true).
    { apply andb_true_iff. rewrite !Z.leb_le. lia. }
    now rewrite E2.
  - intros Hc. pose proof (find_some _ _ Hc) as [Hin Hw].
    apply andb_true_iff in Hw. rewrite !Z.leb_le in Hw.
    rewrite Forall_forall in Hall. specialize (Hall c Hin).
    assert (E2 : (lo2 <=? Timestamp x) && (Timestamp x <=? hi) = false).
    { apply andb_false_iff. apply andb_false_iff in E1.
      rewrite !Z.leb_gt in *. lia. }
    rewrite E2. now apply IH.
Qed.

(** X7.  Widening the window of [identify_novel_anomalies] loses no
    alert: when the function returns with a window of [m1] minutes and
    with a window of [m2 >= m1] minutes, every alert of the first table
    is in the second, with the same problem id. *)
Theorem novel_window_monotone (pd : Pandas) (logs : frame) (case_name : string)
        (m1 m2 : Z) (out1 out2 : list NovelAlert) (a : NovelAlert) :
  m1 <= m2 ->
  @identify_novel_anomalies pd {| NOVEL_ANOMALY_WINDOW_MINUTES := m1 |}
                            logs case_name = Some out1 ->
  @identify_novel_anomalies pd {| NOVEL_ANOMALY_WINDOW_MINUTES := m2 |}
                            logs case_name = Some out2 ->
  In a out1 -> In a out2.
Proof.
  intros Hm. rewrite !identify_novel_anomalies_eq.
  cbn [NOVEL_ANOMALY_WINDOW_MINUTES].
  destruct (filter is_novel_warning logs) as [|w0 ws];
    [intros H1 _ Ha; inversion H1; subst; destruct Ha|].
  destruct (filter is_known_error logs) as [|e0 es] eqn:Ee;
    [intros H1 _ Ha; inversion H1; subst; destruct Ha|].
  rewrite <- Ee.
  destruct (timedelta_minutes m1) as [tw1|] eqn:E1; [|discriminate].
  destruct (timedelta_minutes m2) as [tw2|] eqn:E2; [|discriminate].
  apply timedelta_minutes_Some in E1, E2.
  destruct E1 as [_ ->]. destruct E2 as [_ ->].
  intros H1 H2 Ha.
  apply novel_loop_Some_In in H1. destruct H1 as [_ [_ Hin1]].
  apply novel_loop_Some_In in H2. destruct H2 as [Hb2 [_ Hin2]].
  apply Hin1 in Ha. destruct Ha as [w [Hw Hb]].
  apply Hin2. exists w. split; [exact Hw|].
  specialize (Hb2 w Hw).
  unfold novel_alert_for, potential_causes in *.
  destruct (sub_timedelta (Timestamp w) (60 * m1)) as [s1|] eqn:Es1;
    [|discriminate].
  destruct (sub_timedelta (Timestamp w) (60 * m2)) as [s2|] eqn:Es2;
    [|now contradiction Hb2].
  apply sub_timedelta_eq in Es1, Es2. subst s1 s2.
  rewrite last_row_find in *.
  set (K := sort_values by_Timestamp true (filter is_known_error logs)) in *.
  destruct (find _ (rev K)) as [c|] eqn:Ec in Hb; [|discriminate].
  rewrite (find_window_wider (Timestamp w - 60 * m1) (Timestamp w - 60 * m2)
                             (Timestamp w) (rev K) c).
  - exact Hb.
  - lia.
  - apply StronglySorted_rev_flip.
    eapply StronglySorted_weaken; [|apply (sort_values_sorted _ by_Timestamp true)].
    intros x y Hxy. simpl in Hxy. now apply Z.leb_le.
  - exact Ec.
Qed.

(** *** The primary report *)

(** The error looked up for a problem is one than which no error of the
    problem is earlier. *)
Lemma error_map_get_earliest `{Pandas} (logs : frame) (p : Z) (e : ClassifiedLog) :
  error_map_get (error_details logs) p = Some e ->
  forall e', In e' logs -> Level e' = "ERROR"%string ->
             final_problem_id e' = p -> Timestamp e <= Timestamp e'.
Proof.
  intros E e' He' Hl' Hp'.
  destruct (error_map_get_sound _ _ _ E) as [_ [_ [Hp Hnz]]].
  unfold error_map_get, error_details in E.
  apply find_some in E. destruct E as [Hin _].
  apply drop_duplicates_first in Hin; [|apply Z.eqb_eq].
  destruct Hin as [l1 [l2 [Hsplit Hl1]]].
  assert (Hs : In e' (sort_values by_Timestamp true (filter is_known_error logs))).
  { apply sort_values_In. apply filter_In. split; [assumption|].
    apply is_known_error_iff. split; congruence. }
  pose proof (sort_values_sorted _ by_Timestamp true
                (filter is_known_error logs)) as Hsorted.
  rewrite Hsplit in Hs, Hsorted.
  apply in_app_or in Hs. destruct Hs as [Hs | [<- | Hs]].
  - exfalso. apply (Hl1 e' Hs). congruence.
  - lia.
  - apply StronglySorted_app_r in Hsorted.
    inversion Hsorted as [|? ? _ Hall]; subst.
    rewrite Forall_forall in Hall. specialize (Hall e' Hs). simpl in Hall.
    now apply Z.leb_le.
Qed.

Definition row_pair (r : ReportRow) : Z * Z := (r_anomaly_id r, r_problem_id r).

Lemma report_rows_In `{Pandas} (logs : frame) (case_name : string) (r : ReportRow) :
  In r (report_rows logs case_name) <->
  exists w e, In w (deduplicated logs)
              /\ error_map_get (error_details logs) (final_problem_id w) = Some e
              /\ r = {| r_scenario_id := scenario_id case_name;
                        r_anomaly_id := final_anomaly_id w;
                        r_problem_id := final_problem_id w;
                        r_error_file_name := file_name e;
                        r_error_line_number := line_number e;
                        r_error_log := log e;
                        r_anomaly_log := log w |}.
Proof.
  unfold report_rows. fold (deduplicated logs). rewrite in_flat_map.
  split.
  - intros [w [Hw Hr]]. unfold join_error in Hr.
    destruct (error_map_get _ _) as [e|] eqn:E; [|destruct Hr].
    destruct Hr as [<- | []]. exists w, e. tauto.
  - intros [w [e [Hw [E ->]]]]. exists w. split; [assumption|].
    unfold join_error. rewrite E. now left.
Qed.

Lemma report_rows_NoDup `{Pandas} (logs : frame) (case_name : string) :
  NoDup (map row_pair (report_rows logs case_name)).
Proof.
  unfold report_rows. fold (deduplicated logs).
  assert (Hnd : NoDup (map pair_key (deduplicated logs)))
    by (apply drop_duplicates_NoDup; apply zz_eqb_eq).
  induction (deduplicated logs) as [|w l IH]; simpl; [constructor|].
  inversion Hnd as [|? ? Hnotin Hnd']; subst.
  rewrite map_app. unfold join_error at 1.
  destruct (error_map_get _ _) as [e|]; simpl; [|now apply IH].
  constructor; [|now apply IH].
  intros Hin. apply Hnotin. apply in_map_iff in Hin.
  destruct Hin as [r [Hr Hin]]. apply in_flat_map in Hin.
  destruct Hin as [w' [Hw' Hin]]. apply join_error_rows in Hin.
  destruct Hin as [Ha [Hp _]]. apply in_map_iff. exists w'.
  split; [|assumption]. unfold row_pair in Hr. simpl in Hr.
  unfold pair_key. congruence.
Qed.

(** X8.  Every row of the primary report carries the scenario id of the
    case, the ids and raw log of a WARNING record with a problem id
    other than 0, and the file, line and raw log of an ERROR record of
    the same problem than which no ERROR record of the problem is
    earlier.  No two rows of the report have the same (anomaly,
    problem) pair. *)
Theorem primary_report_root_cause (pd : Pandas) (logs : frame)
        (case_name : string) (rows : list ReportRow) :
  primary_report logs case_name = Some rows ->
  NoDup (map row_pair rows)
  /\ forall r, In r rows ->
       r_scenario_id r = scenario_id case_name
       /\ r_problem_id r <> 0
       /\ (exists w, In w logs /\ Level w = "WARNING"%string
                     /\ final_anomaly_id w = r_anomaly_id r
                     /\ final_problem_id w = r_problem_id r
                     /\ log w = r_anomaly_log r)
       /\ exists e, In e logs /\ Level e = "ERROR"%string
                    /\ final_problem_id e = r_problem_id r
                    /\ file_name e = r_error_file_name r
                    /\ line_number e = r_error_line_number r
                    /\ log e = r_error_log r
                    /\ forall e', In e' logs -> Level e' = "ERROR"%string ->
                                  final_problem_id e' = r_problem_id r ->
                                  Timestamp e <= Timestamp e'.
Proof.
  unfold primary_report.
  destruct (filter is_reportable_warning logs); [discriminate|].
  intros Hrows. inversion Hrows; subst rows. clear Hrows.
  pose proof (order_rows_perm (report_rows logs case_name)) as Hperm.
  split.
  - eapply Permutation_NoDup; [apply Permutation_map; exact Hperm|].
    apply report_rows_NoDup.
  - intros r Hr. apply (Permutation_in _ (Permutation_sym Hperm)) in Hr.
    apply report_rows_In in Hr. destruct Hr as [w [e [Hw [E ->]]]]. simpl.
    destruct (deduplicated_In logs w Hw) as [Hwin [Hwl Hwnz]].
    destruct (error_map_get_sound _ _ _ E) as [He [Hel [Hep _]]].
    split; [reflexivity|]. split; [assumption|]. split.
    + exists w. tauto.
    + exists e. repeat split; try assumption.
      now apply error_map_get_earliest.
Qed.

(** *** The final ordering of the primary report *)

Definition row_key `{Pandas} (r : ReportRow) : option (option Z) :=
  extract_timestamp_for_sort (r_anomaly_log r).

Lemma sort_keys_of_Some `{Pandas} (rows : list ReportRow) :
  (forall r, In r rows -> row_key r <> None) ->
  sort_keys_of rows = Some (map (fun r => (r, match row_key r with
                                              | Some k => k
                                              | None => None
                                              end)) rows).
Proof.
  induction rows as [|r rows IH]; simpl; intros Hk; [reflexivity|].
  rewrite IH by (intros q Hq; apply Hk; now right).
  specialize (Hk r (or_introl eq_refl)). unfold row_key in *.
  destruct (extract_timestamp_for_sort (r_anomaly_log r)); [reflexivity|].
  now contradiction Hk.
Qed.

Lemma sort_keys_of_None `{Pandas} (rows : list ReportRow) (r : ReportRow) :
  In r rows -> row_key r = None -> sort_keys_of rows = None.
Proof.
  induction rows as [|q rows IH]; simpl; [contradiction|].
  intros [-> | Hr] Hk.
  - unfold row_key in Hk. now rewrite Hk.
  - rewrite (IH Hr Hk).
    now destruct (extract_timestamp_for_sort (r_anomaly_log q)).
Qed.

(** The order of two rows by the timestamps found in their warnings'
    logs, a row without timestamp after the others. *)
Definition key_before `{Pandas} (a b : ReportRow) : Prop :=
  exists ka kb, row_key a = Some ka /\ row_key b = Some kb
                /\ key_le true ka kb = true.

(** X9.  The final ordering of the report rearranges its rows.  When a
    timestamp found in a warning's log does not convert, the rows stay
    as they were; otherwise they come out in the order of the
    timestamps found in the warnings' logs, rows without one last. *)
Theorem order_rows_sorted (pd : Pandas) (rows : list ReportRow) :
  Permutation rows (order_rows rows)
  /\ ((exists r, In r rows /\ row_key r = None) -> order_rows rows = rows)
  /\ ((forall r, In r rows -> row_key r <> None) ->
      StronglySorted key_before (order_rows rows)).
Proof.
  split; [apply order_rows_perm|]. split.
  - intros [r [Hr Hk]]. unfold order_rows.
    now rewrite (sort_keys_of_None rows r Hr Hk).
  - intros Hk. unfold order_rows. rewrite (sort_keys_of_Some rows Hk).
    set (keyed := map _ rows).
    assert (Hkeyed : forall d, In d keyed -> row_key (fst d) = Some (snd d)).
    { intros d Hd. unfold keyed in Hd. apply in_map_iff in Hd.
      destruct Hd as [r [<- Hr]]. simpl.
      specialize (Hk r Hr). now destruct (row_key r). }
    assert (Hsorted : forall l,
               (forall d, In d l -> row_key (fst d) = Some (snd d)) ->
               StronglySorted (fun x y : ReportRow * option Z =>
                                 key_le true (snd x) (snd y) = true) l ->
               StronglySorted key_before (map fst l)).
    { intros l Hl. induction 1 as [|d l' Hs IH Hall]; simpl; constructor.
      - apply IH. intros q Hq. apply Hl. now right.
      - rewrite Forall_forall in *. intros b Hb. apply in_map_iff in Hb.
        destruct Hb as [q [<- Hq]]. exists (snd d), (snd q).
        split; [apply Hl; now left|]. split; [apply Hl; now right|].
        now apply Hall. }
    apply Hsorted; [|apply sort_values_sorted].
    intros d Hd. apply Hkeyed. now apply sort_values_In in Hd.
Qed.

End ReportMore.

(* ===================================================================== *)
(** ** The parser: where its records come from                           *)
(* ===================================================================== *)

Module ParserMore.

Import Text LogParser Orchestrator ParserFacts TextFacts.

Open Scope Z_scope.

Lemma is_warning_or_error_iff (level : string) :
  is_warning_or_error level = true
  <-> level = "WARNING"%string \/ level = "ERROR"%string.
Proof.
  unfold is_warning_or_error. rewrite orb_true_iff, !String.eqb_eq. tauto.
Qed.

(** What a line gives when it is kept. *)
Lemma scan_line_Some (filename : string) (i : Z) (line : string) (r : RawLog) :
  scan_line filename i line = Some r <->
  str_strip line <> ""%string
  /\ contains (tok " INFO ") (list_ascii_of_string (str_strip line)) = false
  /\ (exists category,
        parse_log_line (str_strip line)
        = (raw_Timestamp r, raw_Level r, category, raw_Message r))
  /\ (raw_Level r = "WARNING"%string \/ raw_Level r = "ERROR"%string)
  /\ raw_file_name r = filename
  /\ raw_line_number r = i + 1
  /\ raw_log r = str_strip line.
Proof.
  unfold scan_line.
  destruct (String.eqb (str_strip line) "") eqn:Ee; simpl.
  - apply String.eqb_eq in Ee. split; [discriminate | tauto].
  - apply String.eqb_neq in Ee.
    destruct (contains _ _) eqn:Ec.
    + split; [discriminate | intros [_ [H _]]; discriminate].
    + destruct (parse_log_line (str_strip line)) as [[[t l] c] m].
      destruct (is_warning_or_error l) eqn:El.
      * split.
        -- intros Hr. inversion Hr; subst r; clear Hr. simpl.
           apply is_warning_or_error_iff in El.
           repeat split; try assumption. now exists c.
        -- intros [_ [_ [[c' Hp] [_ [Hf [Hn Hlog]]]]]].
           inversion Hp; subst. destruct r; simpl in *. congruence.
      * split; [discriminate|].
        intros [_ [_ [[c' Hp] [Hl _]]]]. inversion Hp; subst.
        apply is_warning_or_error_iff in Hl. congruence.
Qed.

(** The records of a file are those of its kept lines, each with the
    index of its line. *)
Lemma scan_lines_In (filename : string) (lines : list string) :
  forall (i : Z) (r : RawLog),
    In r (scan_lines filename i lines) <->
    exists n line, nth_error lines n = Some line
                   /\ scan_line filename (i + Z.of_nat n) line = Some r.
Proof.
  induction lines as [|l ls IH]; intros i r.
  - simpl. split; [contradiction|].
    intros [n [line [Hn _]]]. destruct n; discriminate.
  - assert (Hrest : In r (scan_lines filename (i + 1) ls) <->
                    exists n line, nth_error ls n = Some line
                                   /\ scan_line filename (i + Z.of_nat (S n)) line
                                      = Some r).
    { rewrite IH. split; intros [n [line [H1 H2]]]; exists n, line;
        (split; [assumption|]).
      - replace (i + Z.of_nat (S n)) with (i + 1 + Z.of_nat n) by lia. exact H2.
      - replace (i + 1 + Z.of_nat n) with (i + Z.of_nat (S n)) by lia. exact H2. }
    cbn [scan_lines].
    destruct (scan_line filename i l) as [r0|] eqn:E.
    + cbn [In]. rewrite Hrest. split.
      * intros [<- | [n [line [H1 H2]]]].
        -- exists 0%nat, l. split; [reflexivity|].
           now replace (i + Z.of_nat 0) with i by lia.
        -- exists (S n), line. split; assumption.
      * intros [[|n] [line [H1 H2]]].
        -- cbn [nth_error] in H1. inversion H1; subst line.
           replace (i + Z.of_nat 0) with i in H2 by lia. left. congruence.
        -- right. exists n, line. split; assumption.
    + rewrite Hrest. split.
      * intros [n [line [H1 H2]]]. exists (S n), line. split; assumption.
      * intros [[|n] [line [H1 H2]]].
        -- cbn [nth_error] in H1. inversion H1; subst line.
           replace (i + Z.of_nat 0) with i in H2 by lia. congruence.
        -- exists n, line. split; assumption.
Qed.

Lemma dropna_timestamp_In (stamps : list (option Z)) :
  forall (l : list RawLog) (d : Z * RawLog),
    In d (dropna_timestamp stamps l) <->
    exists i, nth_error stamps i = Some (Some (fst d))
              /\ nth_error l i = Some (snd d).
Proof.
  induction stamps as [|o stamps IH]; intros l d.
  - simpl. split; [contradiction|]. intros [i [Hi _]]. destruct i; discriminate.
  - destruct l as [|r l].
    + rewrite ParserFacts.dropna_timestamp_nil. split; [contradiction|].
      intros [i [_ Hi]]. destruct i; discriminate.
    + destruct o as [z|]; cbn [dropna_timestamp In]; rewrite IH; split.
      * intros [<- | [i [H1 H2]]]; [exists 0%nat | exists (S i)]; auto.
      * intros [[|i] [H1 H2]]; cbn [nth_error] in *.
        -- left. destruct d. simpl in *. congruence.
        -- right. exists i. auto.
      * intros [i [H1 H2]]. exists (S i). auto.
      * intros [[|i] [H1 H2]]; cbn [nth_error] in *;
          [discriminate | exists i; auto].
Qed.

(** The line a collected record was read from: the file, the index of
    the line in it, and what the line gave. *)
Definition kept_line (files : list log_file) (raw : RawLog)
           (filename : string) (n : nat) (line : string) : Prop :=
  (exists lines, In (filename, lines) files /\ nth_error lines n = Some line)
  /\ str_strip line <> ""%string
  /\ contains (tok " INFO ") (list_ascii_of_string (str_strip line)) = false
  /\ (exists t category,
        parse_log_line (str_strip line)
        = (Some t, raw_Level raw, category, raw_Message raw)
        /\ raw_Timestamp raw = Some t)
  /\ (raw_Level raw = "WARNING"%string \/ raw_Level raw = "ERROR"%string)
  /\ raw_file_name raw = filename
  /\ raw_line_number raw = Z.of_nat n + 1
  /\ raw_log raw = str_strip line.

(** A line whose level is WARNING or ERROR has matched the pattern, so
    it has a timestamp. *)
Lemma parsed_level_timestamp (line level category message : string)
      (timestamp : option string) :
  parse_log_line line = (timestamp, level, category, message) ->
  level = "WARNING"%string \/ level = "ERROR"%string ->
  exists t, timestamp = Some t.
Proof.
  unfold parse_log_line.
  destruct (match_line (list_ascii_of_string line)) as [[[[t0 l0] c0] m0]|].
  - intros Hp _. inversion Hp. eexists. reflexivity.
  - intros Hp Hl. inversion Hp; subst. destruct Hl; discriminate.
Qed.

Lemma collect_In (files : list log_file) (raw : RawLog) :
  In raw (collect files) <->
  exists filename n line, kept_line files raw filename n line.
Proof.
  unfold collect. rewrite in_flat_map. split.
  - intros [[f lines] [Hf Hraw]]. simpl in Hraw.
    apply scan_lines_In in Hraw. destruct Hraw as [n [line [Hn Hs]]].
    apply scan_line_Some in Hs.
    destruct Hs as [Hne [Hinfo [[c Hp] [Hl [Hfile [Hln Hlog]]]]]].
    destruct (parsed_level_timestamp _ _ _ _ _ Hp Hl) as [t Ht].
    exists f, n, line. unfold kept_line.
    split; [exists lines; auto|]. split; [assumption|]. split; [assumption|].
    split; [exists t, c; rewrite Hp, Ht; auto|].
    split; [assumption|]. split; [assumption|].
    split; [rewrite Hln; lia | assumption].
  - intros [f [n [line [[lines [Hf Hn]] [Hne [Hinfo [[t [c [Hp Ht]]]
             [Hl [Hfile [Hln Hlog]]]]]]]]]].
    exists (f, lines). split; [assumption|]. simpl.
    apply scan_lines_In. exists n, line. split; [assumption|].
    apply scan_line_Some.
    repeat split; try assumption; try lia.
    exists c. now rewrite Ht.
Qed.

(** The record made of a collected record and its timestamp. *)
Definition record_of (z : Z) (raw : RawLog) : LogRecord :=
  {| Timestamp := z;
     Level := raw_Level raw;
     Message := raw_Message raw;
     file_name := raw_file_name raw;
     line_number := raw_line_number raw;
     log := raw_log raw;
     Generalized_Message := generalize_message (raw_Message raw) |}.

Lemma process_all_logs_In `{Pandas} (files : list log_file) (r : LogRecord) :
  In r (process_all_logs_for_case files) <->
  exists i raw z,
    nth_error (collect files) i = Some raw
    /\ nth_error (to_datetime_coerce (map raw_Timestamp (collect files))) i
       = Some (Some z)
    /\ r = record_of z raw.
Proof.
  rewrite process_all_logs_for_case_eq, in_map_iff. unfold dated_logs. split.
  - intros [d [<- Hd]]. apply sort_values_In in Hd.
    apply dropna_timestamp_In in Hd. destruct Hd as [i [Hs Hl]].
    exists i, (snd d), (fst d). repeat split; assumption.
  - intros [i [raw [z [Hl [Hs ->]]]]]. exists (z, raw). split; [reflexivity|].
    apply sort_values_In. apply dropna_timestamp_In. exists i. auto.
Qed.

(** X10.  The records [process_all_logs_for_case] collects are those of
    the lines that, stripped, are not empty, do not contain " INFO "
    and parse with level WARNING or ERROR, each with the file's name,
    the line's number counted from 1 and the stripped line.  A record
    is in the frame returned exactly when it is made of a collected
    record and of the date that the conversion of the column of
    collected timestamps gives at its position, with the
    generalisation of its message. *)
Theorem parsed_record_origin (pd : Pandas) (files : list log_file) :
  (forall raw,
     In raw (collect files) <->
     exists filename n line, kept_line files raw filename n line)
  /\ forall r,
       In r (process_all_logs_for_case files) <->
       exists i raw z,
         nth_error (collect files) i = Some raw
         /\ nth_error (to_datetime_coerce (map raw_Timestamp (collect files))) i
            = Some (Some z)
         /\ r = {| Timestamp := z;
                   Level := raw_Level raw;
                   Message := raw_Message raw;
                   file_name := raw_file_name raw;
                   line_number := raw_line_number raw;
                   log := raw_log raw;
                   Generalized_Message := generalize_message (raw_Message raw) |}.
Proof.
  split; [apply collect_In | apply process_all_logs_In].
Qed.

(** *** The parser and the sort key of the report *)

Lemma search_timestamp_head (s r : str) :
  match_shape timestamp_shape s = Some r ->
  search_timestamp s = Some (firstn 19 s).
Proof.
  intros Hm. destruct s as [|c s]; [discriminate|].
  unfold search_timestamp; fold search_timestamp. now rewrite Hm.
Qed.

Lemma parse_log_line_timestamp (line t level category message : string) :
  parse_log_line line = (Some t, level, category, message) ->
  search_timestamp (list_ascii_of_string line) = Some (list_ascii_of_string t).
Proof.
  unfold parse_log_line.
  destruct (match_line (list_ascii_of_string line)) as [[[[t0 l0] c0] m0]|] eqn:E;
    [|discriminate].
  intros Hp. inversion Hp; subst. clear Hp.
  unfold match_line in E.
  destruct (match_shape timestamp_shape (list_ascii_of_string line)) as [r1|] eqn:Em;
    [|discriminate].
  rewrite (search_timestamp_head _ _ Em), list_ascii_of_string_of_list_ascii.
  f_equal.
  repeat match type of E with
         | (if ?b then _ else _) = _ => destruct b; [|discriminate]
         | match ?x with _ => _ end = _ => destruct x; try discriminate
         | (let '(_, _) := ?x in _) = _ => destruct x
         end.
  all: inversion E; reflexivity.
Qed.

(** X11.  For every record of the frame [process_all_logs_for_case]
    returns, the text [extract_timestamp_for_sort] finds in the
    record's raw log is the timestamp the parser read at its head; so
    the sort key of the record is the conversion of that one text, the
    call raising when the text does not convert, and is never the
    missing key of a log without timestamp. *)
Theorem parsed_log_sort_key (pd : Pandas) (files : list log_file)
        (r : LogRecord) :
  In r (process_all_logs_for_case files) ->
  exists t category,
    parse_log_line (log r) = (Some t, Level r, category, Message r)
    /\ search_timestamp (list_ascii_of_string (log r))
       = Some (list_ascii_of_string t)
    /\ extract_timestamp_for_sort (log r)
       = match to_datetime t with
         | Some z => Some (Some z)
         | None => None
         end.
Proof.
  intros Hr. apply process_all_logs_In in Hr.
  destruct Hr as [i [raw [z [Hraw [_ ->]]]]].
  apply nth_error_In, collect_In in Hraw.
  destruct Hraw as [f [n [line [_ [_ [_ [[t [c [Hp _]]] [_ [_ [_ Hlog]]]]]]]]]].
  exists t, c. cbn [record_of log Level Message]. rewrite Hlog.
  split; [exact Hp|].
  pose proof (parse_log_line_timestamp _ _ _ _ _ Hp) as Hs.
  split; [exact Hs|].
  unfold extract_timestamp_for_sort.
  now rewrite Hs, string_of_list_ascii_of_string.
Qed.

(** *** What a line that parses looks like *)

Open Scope list_scope.

Lemma span_len_le (p : ascii -> bool) (s : str) : (span_len p s <= length s)%nat.
Proof.
  induction s as [|c s IH]; simpl; [lia|]. destruct (p c); simpl; lia.
Qed.

Lemma firstn_span_nonempty (p : ascii -> bool) (s : str) :
  (1 <= span_len p s)%nat -> firstn (span_len p s) s <> [].
Proof.
  destruct s as [|c s]; simpl; [lia|]. destruct (p c); [discriminate | lia].
Qed.

Lemma match_shape_split (sh : list shape_item) :
  forall s r, match_shape sh s = Some r ->
              s = firstn (length sh) s ++ r
              /\ match_shape sh (firstn (length sh) s) = Some [].
Proof.
  induction sh as [|i sh IH]; intros s r Hm.
  - simpl in *. inversion Hm. split; reflexivity.
  - destruct s as [|c s]; [destruct i; discriminate|].
    destruct i as [|a]; cbn [match_shape] in Hm; cbn [length firstn match_shape].
    + destruct (is_digit c); [|discriminate].
      destruct (IH s r Hm) as [H1 H2]. split; [simpl; now f_equal | exact H2].
    + destruct (Ascii.eqb a c); [|discriminate].
      destruct (IH s r Hm) as [H1 H2]. split; [simpl; now f_equal | exact H2].
Qed.

Lemma space_not_colon (c : ascii) : is_space c = true -> not_colon c = true.
Proof.
  intros Hs. unfold not_colon, is_colon.
  destruct (Ascii.eqb c ":") eqn:E; [|reflexivity].
  apply Ascii.eqb_eq in E. subst c. discriminate.
Qed.

(** A run of blanks, [\s+]. *)
Definition blanks (s : str) : Prop :=
  s <> [] /\ Forall (fun c => is_space c = true) s.

(** The line is the four groups with what the pattern has between
    them, and [rest], what follows the message. *)
Definition line_groups (line t level category message rest : str) : Prop :=
  exists b1 b2 b3,
    line = t ++ b1 ++ level ++ b2 ++ category ++ ":"%char :: b3 ++ message ++ rest
    /\ blanks b1 /\ blanks b2 /\ blanks b3.

Lemma blanks_span (s : str) :
  (1 <=? span_len is_space s)%nat = true ->
  blanks (firstn (span_len is_space s) s).
Proof.
  intros H. apply Nat.leb_le in H. split.
  - now apply firstn_span_nonempty.
  - apply firstn_span_Forall.
Qed.

Lemma match_line_groups (line t level category message : str) :
  match_line line = Some (t, level, category, message) ->
  match_shape timestamp_shape t = Some []
  /\ level <> [] /\ Forall (fun c => is_word c = true) level
  /\ category <> [] /\ Forall (fun c => not_colon c = true) category
  /\ Forall (fun c => not_newline c = true) message
  /\ (forall d m, message = d :: m -> is_space d = false)
  /\ exists rest,
       line_groups line t level category message rest
       /\ forall d r, rest = d :: r -> is_code 10 d = true.
Proof.
  unfold match_line.
  destruct (match_shape timestamp_shape line) as [r1|] eqn:Em; [|discriminate].
  destruct (match_shape_split _ _ _ Em) as [Hline Hts].
  change (length timestamp_shape) with 19%nat in Hline, Hts.
  set (n1 := span_len is_space r1).
  set (r2 := skipn n1 r1).
  set (n2 := span_len is_word r2).
  set (r3 := skipn n2 r2).
  set (n3 := span_len is_space r3).
  set (r4 := skipn n3 r3).
  set (n4 := span_len not_colon r4).
  destruct (1 <=? n1)%nat eqn:E1; [|discriminate].
  destruct (1 <=? n2)%nat eqn:E2; [|discriminate].
  destruct (1 <=? n3)%nat eqn:E3; [|discriminate].
  cbn [andb].
  assert (H1 : r1 = firstn n1 r1 ++ r2) by (symmetry; apply firstn_skipn).
  assert (H2 : r2 = firstn n2 r2 ++ r3) by (symmetry; apply firstn_skipn).
  assert (H3 : r3 = firstn n3 r3 ++ r4) by (symmetry; apply firstn_skipn).
  pose proof (blanks_span r1 E1) as B1. fold n1 in B1.
  pose proof (blanks_span r3 E3) as B3. fold n3 in B3.
  assert (Hcat : forall category r5 b2,
             r3 = b2 ++ category ++ ":"%char :: r5 -> blanks b2 ->
             category <> [] ->
             Forall (fun c => not_colon c = true) category ->
             (let n5 := span_len is_space r5 in
              let r6 := skipn n5 r5 in
              if (1 <=? n5)%nat
              then Some (firstn 19 line, firstn n2 r2, category,
                         firstn (span_len not_newline r6) r6)
              else None) = Some (t, level, category, message) ->
             match_shape timestamp_shape t = Some []
             /\ level <> [] /\ Forall (fun c => is_word c = true) level
             /\ category <> [] /\ Forall (fun c => not_colon c = true) category
             /\ Forall (fun c => not_newline c = true) message
             /\ (forall d m, message = d :: m -> is_space d = false)
             /\ exists rest,
                 line_groups line t level category message rest
                 /\ forall d r, rest = d :: r -> is_code 10 d = true).
  { clear category. intros category r5 b2 Hr3 B2 Hcne Hcat.
    cbv zeta. destruct (1 <=? span_len is_space r5)%nat eqn:E5; [|discriminate].
    intros Hg. inversion Hg; subst t level message. clear Hg.
    set (r6 := skipn (span_len is_space r5) r5).
    split; [exact Hts|].
    split; [apply firstn_span_nonempty; now apply Nat.leb_le|].
    split; [apply firstn_span_Forall|].
    split; [exact Hcne|]. split; [exact Hcat|].
    split; [apply firstn_span_Forall|].
    split.
    { intros d m Hm. pose proof (skipn_span_head is_space r5) as Hh.
      fold r6 in Hh. destruct r6 as [|d' r6']; [destruct (span_len _ _); discriminate|].
      simpl in Hm. destruct (not_newline d'); [|discriminate].
      inversion Hm; subst. exact Hh. }
    exists (skipn (span_len not_newline r6) r6). split.
    - exists (firstn n1 r1), b2, (firstn (span_len is_space r5) r5).
      split; [|split; [exact B1 | split; [exact B2 | now apply blanks_span]]].
      assert (Hr5 : r5 = firstn (span_len is_space r5) r5
                         ++ firstn (span_len not_newline r6) r6
                         ++ skipn (span_len not_newline r6) r6).
      { rewrite (firstn_skipn _ r6). symmetry. apply firstn_skipn. }
      rewrite <- Hr5, <- Hr3, <- H2, <- H1. exact Hline.
    - intros d r Hr. pose proof (skipn_span_head not_newline r6) as Hh.
      rewrite Hr in Hh. unfold not_newline in Hh.
      now apply negb_false_iff in Hh. }
  destruct (1 <=? n4)%nat eqn:E4.
  - destruct (skipn n4 r4) as [|x r5] eqn:E5; [discriminate|].
    intros Hg.
    assert (category = firstn n4 r4).
    { cbv zeta in Hg. destruct (1 <=? span_len is_space r5)%nat; [|discriminate].
      now inversion Hg. }
    subst category.
    pose proof (skipn_span_head not_colon r4) as Hh. fold n4 in Hh.
    rewrite E5 in Hh. unfold not_colon, is_colon in Hh.
    apply negb_false_iff, Ascii.eqb_eq in Hh. subst x.
    apply (Hcat (firstn n4 r4) r5 (firstn n3 r3)).
    + rewrite <- E5, (firstn_skipn n4 r4). exact H3.
    + exact B3.
    + apply firstn_span_nonempty. now apply Nat.leb_le.
    + apply firstn_span_Forall.
    + exact Hg.
  - destruct r4 as [|x r5] eqn:E5; [discriminate|].
    destruct (2 <=? n3)%nat eqn:E6; [|discriminate].
    intros Hg.
    assert (category = skipn (n3 - 1) (firstn n3 r3)).
    { cbv zeta in Hg. destruct (1 <=? span_len is_space r5)%nat; [|discriminate].
      now inversion Hg. }
    subst category.
    pose proof (skipn_span_head not_colon (x :: r5)) as Hh.
    apply Nat.leb_gt in E4. unfold n4 in E4.
    assert (E0 : span_len not_colon (x :: r5) = 0%nat) by lia.
    rewrite E0 in Hh. cbn [skipn] in Hh. unfold not_colon, is_colon in Hh.
    apply negb_false_iff, Ascii.eqb_eq in Hh. subst x.
    apply Nat.leb_le in E6.
    pose proof (span_len_le is_space r3) as Hle. fold n3 in Hle.
    assert (Hlen : length (firstn n3 r3) = n3) by (apply firstn_length_le; lia).
    destruct B3 as [_ B3].
    rewrite <- (firstn_skipn (n3 - 1) (firstn n3 r3)) in B3.
    apply Forall_app in B3. destruct B3 as [Bl Br].
    apply (Hcat _ r5 (firstn (n3 - 1) (firstn n3 r3))).
    + rewrite app_assoc, (firstn_skipn (n3 - 1) (firstn n3 r3)). exact H3.
    + split; [|exact Bl]. intros Hnil.
      apply (f_equal (@length ascii)) in Hnil.
      rewrite length_firstn, Hlen in Hnil. simpl in Hnil. lia.
    + intros Hnil. apply (f_equal (@length ascii)) in Hnil.
      rewrite length_skipn, Hlen in Hnil. simpl in Hnil. lia.
    + eapply Forall_impl; [|exact Br]. intros c. apply space_not_colon.
    + exact Hg.
Qed.

(** X12.  When [parse_log_line] returns a timestamp, the line is the
    timestamp, blanks, the level, blanks, the category, a colon, blanks
    and the message, followed by nothing or by a line feed.  The
    timestamp has the 19-character shape, the level is a non-empty run
    of word characters, the category is non-empty and has no colon, and
    the message has no line feed and no leading blank. *)
Theorem parse_log_line_groups (line t level category message : string) :
  parse_log_line line = (Some t, level, category, message) ->
  match_shape timestamp_shape (tok t) = Some []
  /\ tok level <> [] /\ Forall (fun c => is_word c = true) (tok level)
  /\ tok category <> [] /\ Forall (fun c => not_colon c = true) (tok category)
  /\ Forall (fun c => not_newline c = true) (tok message)
  /\ (forall d m, tok message = d :: m -> is_space d = false)
  /\ exists rest,
       line_groups (tok line) (tok t) (tok level) (tok category) (tok message) rest
       /\ forall d r, rest = d :: r -> is_code 10 d = true.
Proof.
  unfold parse_log_line, tok.
  destruct (match_line (list_ascii_of_string line)) as [[[[t0 l0] c0] m0]|] eqn:E;
    [|discriminate].
  intros Hp. inversion Hp; subst. clear Hp.
  rewrite !list_ascii_of_string_of_list_ascii.
  now apply match_line_groups.
Qed.

(** *** Lines in the documented format *)

Lemma span_len_app (p : ascii -> bool) (a b : str) :
  Forall (fun c => p c = true) a ->
  (forall d r, b = d :: r -> p d = false) ->
  span_len p (a ++ b) = length a.
Proof.
  intros Ha Hb. induction Ha as [|c a Hc Ha IH]; simpl.
  - destruct b as [|d r]; [reflexivity|]. simpl. now rewrite (Hb d r eq_refl).
  - now rewrite Hc, IH.
Qed.

Lemma match_shape_app (sh : list shape_item) :
  forall t r, match_shape sh t = Some [] ->
              match_shape sh (t ++ r) = Some r /\ length t = length sh.
Proof.
  induction sh as [|i sh IH]; intros t r Hm.
  - simpl in Hm. inversion Hm. subst t. split; reflexivity.
  - destruct t as [|c t]; [destruct i; discriminate|].
    destruct i as [|a]; cbn [match_shape app length] in *.
    + destruct (is_digit c); [|discriminate].
      destruct (IH t r Hm) as [H1 H2]. split; [exact H1 | now f_equal].
    + destruct (Ascii.eqb a c); [|discriminate].
      destruct (IH t r Hm) as [H1 H2]. split; [exact H1 | now f_equal].
Qed.

Lemma firstn_length_app {A : Type} (a b : list A) :
  firstn (length a) (a ++ b) = a.
Proof. induction a as [|x a IH]; simpl; [now destruct b | now rewrite IH]. Qed.

Lemma skipn_length_app {A : Type} (a b : list A) :
  skipn (length a) (a ++ b) = b.
Proof. induction a as [|x a IH]; simpl; [reflexivity | exact IH]. Qed.

Lemma nonempty_length {A : Type} (l : list A) :
  l <> [] -> (1 <=? length l)%nat = true.
Proof. destruct l; [congruence | reflexivity]. Qed.

(** The fields of a line laid out as the module documents: timestamp,
    one space, level, one space, category, colon, one space, message. *)
Definition format_line (t level category message : str) : str :=
  t ++ " "%char :: level ++ " "%char :: category ++ ":"%char :: " "%char :: message.

Lemma match_line_format (t level category message : str) :
  match_shape timestamp_shape t = Some [] ->
  level <> [] -> Forall (fun c => is_word c = true) level ->
  category <> [] -> Forall (fun c => not_colon c = true) category ->
  (forall d r, category = d :: r -> is_space d = false) ->
  Forall (fun c => not_newline c = true) message ->
  (forall d r, message = d :: r -> is_space d = false) ->
  match_line (format_line t level category message)
  = Some (t, level, category, message).
Proof.
  intros Ht Hl Hlw Hc Hcc Hcs Hm Hms. unfold match_line, format_line.
  destruct (match_shape_app _ t
              (" "%char :: level ++ " "%char :: category
                 ++ ":"%char :: " "%char :: message) Ht) as [Hshape Hlen].
  rewrite Hshape.
  change (length timestamp_shape) with 19%nat in Hlen.
  cbv zeta.
  assert (Hf : forall r : str, firstn 19 (t ++ r) = t)
    by (intros r; rewrite <- Hlen; apply firstn_length_app).
  rewrite Hf.
  assert (Hlevel_head : forall d r,
             level ++ " "%char :: category ++ ":"%char :: " "%char :: message
             = d :: r -> is_space d = false).
  { intros d r Hd. destruct level as [|l0 ls]; [congruence|].
    inversion Hd; subst d. inversion Hlw as [|? ? Hw _]; subst.
    clear - Hw. revert Hw. each_char l0. }
  assert (S1 : span_len is_space
                 (" "%char :: level ++ " "%char :: category
                    ++ ":"%char :: " "%char :: message) = 1%nat).
  { apply (span_len_app is_space [" "%char]); [repeat constructor|].
    exact Hlevel_head. }
  rewrite S1. cbn [skipn].
  assert (S2 : span_len is_word
                 (level ++ " "%char :: category ++ ":"%char :: " "%char :: message)
               = length level).
  { apply span_len_app; [exact Hlw|]. intros d r Hd. inversion Hd. reflexivity. }
  rewrite S2, firstn_length_app, skipn_length_app.
  assert (S3 : span_len is_space
                 (" "%char :: category ++ ":"%char :: " "%char :: message) = 1%nat).
  { apply (span_len_app is_space [" "%char]); [repeat constructor|].
    intros d r Hd. destruct category as [|c0 cs]; [congruence|].
    inversion Hd; subst d. now apply (Hcs c0 cs). }
  rewrite S3. cbn [skipn].
  assert (S4 : span_len not_colon (category ++ ":"%char :: " "%char :: message)
               = length category).
  { apply span_len_app; [exact Hcc|]. intros d r Hd. inversion Hd. reflexivity. }
  rewrite S4, firstn_length_app, skipn_length_app.
  rewrite (nonempty_length _ Hl), (nonempty_length _ Hc).
  cbn [Nat.leb andb].
  assert (S5 : span_len is_space (" "%char :: message) = 1%nat).
  { apply (span_len_app is_space [" "%char]); [repeat constructor | exact Hms]. }
  rewrite S5. cbn [skipn Nat.leb].
  assert (S6 : span_len not_newline message = length message).
  { rewrite <- (app_nil_r message) at 1. apply span_len_app; [exact Hm|].
    intros d r Hd. discriminate. }
  rewrite S6, firstn_all. reflexivity.
Qed.

Lemma list_ascii_of_string_app (a b : string) :
  list_ascii_of_string (a ++ b)%string
  = list_ascii_of_string a ++ list_ascii_of_string b.
Proof. induction a as [|c a IH]; simpl; [reflexivity | now rewrite IH]. Qed.

(** X13.  A line in the documented format parses to its fields: for a
    timestamp of the 19-character shape, a level that is a non-empty
    run of word characters, a non-empty category without colon or
    leading blank and a message without line feed or leading blank,
    [parse_log_line] of "timestamp level category: message" returns the
    four of them. *)
Theorem parse_log_line_format (t level category message : string) :
  match_shape timestamp_shape (tok t) = Some [] ->
  level <> ""%string -> Forall (fun c => is_word c = true) (tok level) ->
  category <> ""%string ->
  Forall (fun c => not_colon c = true) (tok category) ->
  (forall d r, tok category = d :: r -> is_space d = false) ->
  Forall (fun c => not_newline c = true) (tok message) ->
  (forall d r, tok message = d :: r -> is_space d = false) ->
  parse_log_line (t ++ " " ++ level ++ " " ++ category ++ ": " ++ message)%string
  = (Some t, level, category, message).
Proof.
  intros Ht Hl Hlw Hc Hcc Hcs Hm Hms. unfold parse_log_line.
  rewrite !list_ascii_of_string_app.
  change (list_ascii_of_string " ") with [" "%char].
  change (list_ascii_of_string ": ") with [":"%char; " "%char].
  cbn [app].
  pose proof (match_line_format (tok t) (tok level) (tok category) (tok message))
    as Hf.
  unfold format_line, tok in *. rewrite Hf; try assumption.
  - now rewrite !string_of_list_ascii_of_string.
  - destruct level; [congruence | discriminate].
  - destruct category; [congruence | discriminate].
Qed.

(** A line of the module's own example, in the documented format. *)
Lemma parse_log_line_format_witness :
  parse_log_line "2024-01-15T10:30:45 ERROR Database: Connection timeout"
  = (Some "2024-01-15T10:30:45", "ERROR", "Database", "Connection timeout")%string.
Proof.
  apply (parse_log_line_format "2024-01-15T10:30:45" "ERROR" "Database"
                               "Connection timeout").
  - reflexivity.
  - discriminate.
  - repeat constructor.
  - discriminate.
  - repeat constructor.
  - intros d r Hd. inversion Hd. reflexivity.
  - repeat constructor.
  - intros d r Hd. inversion Hd. reflexivity.
Defined.

(** A line that parses, taken apart. *)
Lemma parse_log_line_groups_witness :
  exists rest,
    line_groups (tok "2024-01-15T10:30:45  WARNING  Pool : no free connection")
                (tok "2024-01-15T10:30:45") (tok "WARNING") (tok "Pool ")
                (tok "no free connection") rest.
Proof.
  destruct (parse_log_line_groups
              "2024-01-15T10:30:45  WARNING  Pool : no free connection"
              "2024-01-15T10:30:45" "WARNING" "Pool " "no free connection")
    as [_ [_ [_ [_ [_ [_ [_ [rest [Hg _]]]]]]]]].
  - vm_compute. reflexivity.
  - exists rest. exact Hg.
Defined.

(** The first record of two lines of the same second. *)
Definition first_of_same_second : LogRecord :=
  {| Timestamp := 37845; Level := "ERROR";
     Message := "connection timeout"; file_name := "app.txt";
     line_number := 1;
     log := "2024-01-15T10:30:45 ERROR Database: connection timeout";
     Generalized_Message := "connection timeout" |}%string.

Lemma parsed_log_sort_key_witness :
  In first_of_same_second (@process_all_logs_for_case stable_pandas same_second)
  /\ @extract_timestamp_for_sort stable_pandas (log first_of_same_second)
     = Some (Some 37845).
Proof.
  assert (Hin : In first_of_same_second
                   (@process_all_logs_for_case stable_pandas same_second))
    by (vm_compute; left; reflexivity).
  split; [exact Hin|].
  destruct (parsed_log_sort_key stable_pandas same_second first_of_same_second
                                Hin) as [t [c [Hp [_ Hk]]]].
  rewrite Hk. vm_compute in Hp. inversion Hp. reflexivity.
Defined.

End ParserMore.

(* ===================================================================== *)
(** ** The incident, continued                                           *)
(* ===================================================================== *)

Module IncidentMore.

Import KnowledgeBase Report Orchestrator IncidentReport.
Import ReportFacts OrchestratorFacts Incident ReportMore.

Open Scope Z_scope.
Open Scope string_scope.

(** The one row of the impact metrics of the incident. *)
Definition incident_impact_row : ImpactRow :=
  {| impact_problem_id := 10; anomaly_count := 2;
     unique_systems_affected := 2; Impact_Score := 4 |}.

Lemma impact_score_bounds_witness :
  In incident_impact_row (@calculate_impact_metrics stable_pandas incident_logs)
  /\ 1 <= 2 <= 2 /\ 2 <= 4 <= 2 * 2.
Proof.
  assert (Hin : In incident_impact_row
                   (@calculate_impact_metrics stable_pandas incident_logs))
    by (vm_compute; left; reflexivity).
  split; [exact Hin|].
  exact (impact_score_bounds stable_pandas incident_logs incident_impact_row Hin).
Defined.

(** The file written for the incident. *)
Definition incident_file : IncidentFile :=
  {| if_case_name := "case_13";
     if_entries :=
       [ {| ie_rank := 1;
            ie_problem_text := IncidentKbText (TextCell "Connection timeout");
            ie_problem_id := 10; ie_impact_score := 4;
            ie_anomaly_count := 2; ie_systems_affected := 2 |} ] |}.

(** A directory of reports without subdirectories: a file can be
    opened for writing when its name has no slash. *)
Definition flat_directory : ReportsDir :=
  {| open_for_writing :=
       fun name => negb (Text.contains (Text.tok "/") (Text.tok name)) |}.

Lemma incident_report_ranks_witness :
  @generate_detailed_incident_report stable_pandas flat_directory "case_13"
                                     incident_logs incident_problems
  = Written incident_file
  /\ map ie_rank (if_entries incident_file) = [1].
Proof.
  assert (Hf : @generate_detailed_incident_report stable_pandas flat_directory
                 "case_13" incident_logs incident_problems
               = Written incident_file)
    by (vm_compute; reflexivity).
  split; [exact Hf|].
  exact (proj1 (incident_report_ranks stable_pandas flat_directory "case_13"
                                      incident_logs incident_problems
                                      incident_file Hf)).
Defined.

(** In the flat directory the report of case_13 is written, and that
    of a case named sub/case_13 cannot be opened. *)
Lemma incident_report_entries_witness :
  @generate_detailed_incident_report stable_pandas flat_directory "sub/case_13"
                                     incident_logs incident_problems
  = WriteFailed
  /\ exists file,
       @generate_detailed_incident_report stable_pandas flat_directory
                                          "case_13" incident_logs
                                          incident_problems
       = Written file.
Proof.
  assert (Hw : exists w, In w incident_logs /\ Level w = "WARNING"
                         /\ final_problem_id w <> 0).
  { exists second_occurrence. split; [simpl; tauto|].
    split; [reflexivity | discriminate]. }
  split.
  - apply (proj1 (proj2 (incident_report_entries stable_pandas flat_directory
                           "sub/case_13" incident_logs incident_problems))).
    split; [exact Hw | reflexivity].
  - apply (proj1 (proj2 (proj2 (incident_report_entries stable_pandas
                                  flat_directory "case_13" incident_logs
                                  incident_problems)))).
    split; [exact Hw | reflexivity].
Defined.

(** An error and, nine seconds later, a warning no entry of the
    knowledge base matches. *)
Definition unmatched_warning : frame :=
  [ record 0 "ERROR" "db.txt" 1 "connection timeout" 0 10;
    record 9 "WARNING" "db.txt" 2 "unusual checksum" 0 0 ].

Definition unmatched_alert : NovelAlert :=
  {| na_scenario_id := "13"; na_anomaly_id := 0; na_problem_id := 10;
     na_file_name := "db.txt"; na_line_number := 2;
     na_log := "2024-01-15T10:30:09 WARNING Db: unusual checksum" |}.

Lemma novel_window_monotone_witness :
  @identify_novel_anomalies stable_pandas
     {| NOVEL_ANOMALY_WINDOW_MINUTES := 1 |} unmatched_warning "case_13"
  = Some [unmatched_alert]
  /\ @identify_novel_anomalies stable_pandas
        {| NOVEL_ANOMALY_WINDOW_MINUTES := 5 |} unmatched_warning "case_13"
     = Some [unmatched_alert]
  /\ In unmatched_alert [unmatched_alert].
Proof.
  assert (H1 : @identify_novel_anomalies stable_pandas
                 {| NOVEL_ANOMALY_WINDOW_MINUTES := 1 |} unmatched_warning
                 "case_13" = Some [unmatched_alert])
    by (vm_compute; reflexivity).
  assert (H2 : @identify_novel_anomalies stable_pandas
                 {| NOVEL_ANOMALY_WINDOW_MINUTES := 5 |} unmatched_warning
                 "case_13" = Some [unmatched_alert])
    by (vm_compute; reflexivity).
  split; [exact H1|]. split; [exact H2|].
  apply (novel_window_monotone stable_pandas unmatched_warning "case_13" 1 5
                               [unmatched_alert] [unmatched_alert]
                               unmatched_alert); [lia | exact H1 | exact H2|].
  now left.
Defined.


(** The primary report of the incident. *)
Definition incident_rows : list ReportRow :=
  [ {| r_scenario_id := "13"; r_anomaly_id := 1; r_problem_id := 10;
       r_error_file_name := "db.txt"; r_error_line_number := 1;
       r_error_log := "2024-01-15T10:30:00 ERROR Db: connection timeout";
       r_anomaly_log := "2024-01-15T10:30:01 WARNING Db: pool exhausted" |};
    {| r_scenario_id := "13"; r_anomaly_id := 2; r_problem_id := 10;
       r_error_file_name := "db.txt"; r_error_line_number := 1;
       r_error_log := "2024-01-15T10:30:00 ERROR Db: connection timeout";
       r_anomaly_log := "2024-01-15T10:30:03 WARNING Db: slow response" |} ].

Lemma primary_report_root_cause_witness :
  @primary_report stable_pandas incident_logs "case_13" = Some incident_rows
  /\ NoDup (map row_pair incident_rows).
Proof.
  assert (Hr : @primary_report stable_pandas incident_logs "case_13"
               = Some incident_rows) by (vm_compute; reflexivity).
  split; [exact Hr|].
  exact (proj1 (primary_report_root_cause stable_pandas incident_logs "case_13"
                                          incident_rows Hr)).
Defined.

End IncidentMore.

(* ===================================================================== *)
(** ** log_parser.get_context_snippet                                    *)
(* ===================================================================== *)

Module Snippet.

Import Text LogParser.

Open Scope Z_scope.

(** A text file as the loop over it sees it: the lines it delivers,
    and the exception that ends the reading after them, if any (an
    [open] that raises delivers no line). *)
Record TextFile := {
  delivered : list string;
  failure : option string
}.

(** The three texts the function returns: the two messages, which name
    the file (and the exception), and the snippet. *)
Inductive snippet_result :=
| FileNotFound (filename : string)
| ReadFailed (filename : string) (e : string)
| SnippetText (text : string).

(** [f"{i}"] *)
Definition decimal (i : Z) : string :=
  DecimalString.NilZero.string_of_int (Z.to_int i).

Definition target_prefix : string := ">> ".
Definition context_prefix : string := "   ".

(** [f"{prefix}{i}: {line.strip()}"] *)
Definition snippet_line (line_number i : Z) (line : string) : string :=
  ((if (i =? line_number)%Z then target_prefix else context_prefix)
     ++ decimal i ++ ": " ++ str_strip line)%string.

(** The loop [for i, line in enumerate(f, 1)], from line [i] on:
    the snippet, or the exception raised by the reading. *)
Fixpoint read_context (start_line end_line line_number i : Z)
         (lines : list string) (failure : option string)
         (snippet : list string) : list string + string :=
  match lines with
  | [] =>
      match failure with
      | Some e => inr e
      | None => inl snippet
      end
  | line :: rest =>
      let snippet :=
        if (start_line <=? i) && (i <=? end_line)
        then snippet ++ [snippet_line line_number i line]
        else snippet in
      if end_line <? i then inl snippet
      else read_context start_line end_line line_number (i + 1) rest
                        failure snippet
  end.

Definition line_feed : string := String (ascii_of_nat 10) EmptyString.

(** [get_context_snippet]; [case_directory] gives the file of a name,
    if there is one. *)
Definition get_context_snippet (case_directory : string -> option TextFile)
           (filename : string) (line_number context_lines : Z)
  : snippet_result :=
  match case_directory filename with
  | None => FileNotFound filename
  | Some f =>
      let start_line := Z.max 1 (line_number - context_lines) in
      let end_line := line_number + context_lines in
      match read_context start_line end_line line_number 1
                         (delivered f) (failure f) [] with
      | inl snippet => SnippetText (String.concat line_feed snippet)
      | inr e => ReadFailed filename e
      end
  end.

End Snippet.

Module SnippetFacts.

Import Text LogParser Snippet.

Open Scope Z_scope.

(** The lines of a file with their numbers, the first being [i]. *)
Fixpoint numbered (i : Z) (lines : list string) : list (Z * string) :=
  match lines with
  | [] => []
  | line :: rest => (i, line) :: numbered (i + 1) rest
  end.

(** The numbered lines from [lo] to [hi]. *)
Definition window (lo hi : Z) (l : list (Z * string)) : list (Z * string) :=
  filter (fun p => (lo <=? fst p) && (fst p <=? hi)) l.

Definition render (line_number : Z) (p : Z * string) : string :=
  snippet_line line_number (fst p) (snd p).

Lemma numbered_In (lines : list string) :
  forall i p, In p (numbered i lines) <->
              exists n, nth_error lines n = Some (snd p)
                        /\ fst p = i + Z.of_nat n.
Proof.
  induction lines as [|l ls IH]; intros i p; simpl.
  - split; [contradiction|]. intros [n [Hn _]]. destruct n; discriminate.
  - rewrite IH. split.
    + intros [<- | [n [Hn Hi]]].
      * exists 0%nat. simpl. split; [reflexivity | lia].
      * exists (S n). simpl. split; [assumption | lia].
    + intros [[|n] [Hn Hi]].
      * left. simpl in Hn. destruct p as [j x]. simpl in *.
        inversion Hn. f_equal. lia.
      * right. exists n. simpl in Hn. split; [assumption | lia].
Qed.

Lemma window_past (lo hi i : Z) (lines : list string) :
  hi < i -> window lo hi (numbered i lines) = [].
Proof.
  revert i. induction lines as [|l ls IH]; intros i Hi; simpl; [reflexivity|].
  replace (i <=? hi) with false by (symmetry; apply Z.leb_gt; lia).
  rewrite andb_false_r. apply IH. lia.
Qed.

(** What the loop returns: the lines of the window, whatever the lines
    read; the exception only when the file gives out before the loop
    has read a line past the window. *)
Lemma read_context_eq (lo hi ln : Z) (failure : option string)
      (lines : list string) :
  forall i snippet,
    read_context lo hi ln i lines failure snippet
    = let all := snippet ++ map (render ln) (window lo hi (numbered i lines)) in
      if Z.of_nat (length lines) <=? Z.max 0 (hi - i + 1)
      then match failure with
           | Some e => inr e
           | None => inl all
           end
      else inl all.
Proof.
  induction lines as [|l ls IH]; intros i snippet; cbv zeta.
  - simpl. rewrite app_nil_r.
    replace (0 <=? Z.max 0 (hi - i + 1)) with true
      by (symmetry; apply Z.leb_le; lia).
    reflexivity.
  - cbn [read_context numbered window filter fst length].
    destruct (hi <? i) eqn:Eb.
    + apply Z.ltb_lt in Eb.
      replace (i <=? hi) with false by (symmetry; apply Z.leb_gt; lia).
      rewrite andb_false_r.
      replace (Z.of_nat (S (length ls)) <=? Z.max 0 (hi - i + 1)) with false
        by (symmetry; apply Z.leb_gt; lia).
      fold (window lo hi (numbered (i + 1) ls)).
      rewrite window_past by lia. simpl. now rewrite app_nil_r.
    + apply Z.ltb_ge in Eb. rewrite IH. cbv zeta.
      fold (window lo hi (numbered (i + 1) ls)).
      assert (Hc : (Z.of_nat (length ls) <=? Z.max 0 (hi - (i + 1) + 1))
                   = (Z.of_nat (S (length ls)) <=? Z.max 0 (hi - i + 1))).
      { destruct (Z.of_nat (length ls) <=? Z.max 0 (hi - (i + 1) + 1)) eqn:E1;
          symmetry.
        - apply Z.leb_le in E1. apply Z.leb_le. lia.
        - apply Z.leb_gt in E1. apply Z.leb_gt. lia. }
      rewrite Hc.
      destruct ((lo <=? i) && (i <=? hi)); cbn [map];
        rewrite <- ?app_assoc; reflexivity.
Qed.

(** The lines of the snippet of a file, when it has one. *)
Definition context_of (f : TextFile) (line_number context_lines : Z)
  : list (Z * string) :=
  window (Z.max 1 (line_number - context_lines)) (line_number + context_lines)
         (numbered 1 (delivered f)).

(** X14.  For a file that is read without an exception,
    [get_context_snippet] returns the lines numbered from
    [max(1, line_number - context_lines)] to
    [line_number + context_lines] that the file has, each stripped and
    with its number, joined by line feeds; stopping the reading after
    the window loses none of them.  There are at most
    [2 * context_lines + 1] of them, and for a name that the directory
    does not have the result is the file-not-found message. *)
Theorem context_snippet_window (case_directory : string -> option TextFile)
        (filename : string) (line_number context_lines : Z) :
  (case_directory filename = None ->
   get_context_snippet case_directory filename line_number context_lines
   = FileNotFound filename)
  /\ forall f,
       case_directory filename = Some f -> failure f = None ->
       get_context_snippet case_directory filename line_number context_lines
       = SnippetText
           (String.concat line_feed
              (map (render line_number)
                   (context_of f line_number context_lines)))
       /\ Z.of_nat (length (context_of f line_number context_lines))
          <= Z.max 0 (2 * context_lines + 1)
       /\ forall i line,
            In (i, line) (context_of f line_number context_lines) <->
            nth_error (delivered f) (Z.to_nat (i - 1)) = Some line
            /\ 1 <= i
            /\ line_number - context_lines <= i <= line_number + context_lines.
Proof.
  unfold get_context_snippet. split.
  - intros ->. reflexivity.
  - intros f -> Hf. rewrite read_context_eq, Hf. cbv zeta. cbn [app].
    split; [now destruct (_ <=? _)|]. split.
    + unfold context_of.
      set (lo := Z.max 1 (line_number - context_lines)).
      set (hi := line_number + context_lines).
      assert (Hlen : forall lines i,
                 lo <= i ->
                 Z.of_nat (length (window lo hi (numbered i lines)))
                 <= Z.max 0 (hi - i + 1)).
      { induction lines as [|l ls IH]; intros i Hi; simpl; [lia|].
        fold (window lo hi (numbered (i + 1) ls)).
        specialize (IH (i + 1) ltac:(lia)).
        destruct ((lo <=? i) && (i <=? hi)) eqn:E.
        - apply andb_true_iff in E. rewrite !Z.leb_le in E.
          cbn [length]. lia.
        - lia. }
      assert (Hskip : forall lines i,
                 i <= lo ->
                 Z.of_nat (length (window lo hi (numbered i lines)))
                 <= Z.max 0 (hi - lo + 1)).
      { induction lines as [|l ls IH]; intros i Hi; simpl; [lia|].
        fold (window lo hi (numbered (i + 1) ls)).
        destruct ((lo <=? i) && (i <=? hi)) eqn:E.
        - apply andb_true_iff in E. rewrite !Z.leb_le in E.
          assert (i = lo) by lia. subst i. cbn [length].
          specialize (Hlen ls (lo + 1) ltac:(lia)). lia.
        - destruct (Z.eq_dec i lo) as [->|Hne].
          + specialize (Hlen ls (lo + 1) ltac:(lia)). lia.
          + apply IH. lia. }
      specialize (Hskip (delivered f) 1 ltac:(unfold lo; lia)).
      unfold lo, hi in *. lia.
    + intros i line. unfold context_of, window.
      rewrite filter_In, numbered_In, andb_true_iff, !Z.leb_le. cbn [fst snd].
      split.
      * intros [[n [Hn Hi]] [Hlo Hhi]]. subst i.
        replace (Z.to_nat (1 + Z.of_nat n - 1)) with n by lia.
        split; [assumption|]. lia.
      * intros [Hn [H1 [Hlo Hhi]]]. split; [|lia].
        exists (Z.to_nat (i - 1)). split; [assumption | lia].
Qed.

(** The file as it would be without the exception. *)
Definition read_to_end (f : TextFile) : TextFile :=
  {| delivered := delivered f; failure := None |}.

(** X15.  When the reading of the file raises after some lines,
    [get_context_snippet] returns the read-error message exactly when
    the file has delivered no more than [line_number + context_lines]
    lines, also when it has delivered every line of the window; when it
    has delivered one line more, the exception is never met and the
    snippet is that of the file read to its end. *)
Theorem context_snippet_read_failure
        (case_directory : string -> option TextFile) (filename : string)
        (line_number context_lines : Z) (f : TextFile) (e : string) :
  case_directory filename = Some f -> failure f = Some e ->
  (Z.of_nat (length (delivered f)) <= Z.max 0 (line_number + context_lines) ->
   get_context_snippet case_directory filename line_number context_lines
   = ReadFailed filename e)
  /\ (Z.max 0 (line_number + context_lines) < Z.of_nat (length (delivered f)) ->
      get_context_snippet case_directory filename line_number context_lines
      = get_context_snippet (fun _ => Some (read_to_end f)) filename
                            line_number context_lines).
Proof.
  intros Hf He. unfold get_context_snippet. rewrite Hf.
  rewrite !read_context_eq, He. cbv zeta. cbn [read_to_end delivered failure app].
  replace (line_number + context_lines - 1 + 1)
    with (line_number + context_lines) by lia.
  split; intros Hlen.
  - apply Z.leb_le in Hlen. now rewrite Hlen.
  - apply Z.leb_gt in Hlen. now rewrite Hlen.
Qed.

Definition is_target (line_number : Z) (p : Z * string) : bool :=
  fst p =? line_number.

Lemma numbered_target (k : Z) (lines : list string) :
  forall i,
    filter (is_target k) (numbered i lines)
    = if i <=? k
      then match nth_error lines (Z.to_nat (k - i)) with
           | Some line => [(k, line)]
           | None => []
           end
      else [].
Proof.
  induction lines as [|l ls IH]; intros i.
  - simpl. destruct (i <=? k); [|reflexivity].
    now destruct (Z.to_nat (k - i)).
  - cbn [numbered filter]. rewrite IH. unfold is_target. cbn [fst].
    destruct (Z.compare_spec i k) as [Heq | Hlt | Hgt].
    + subst i. rewrite Z.eqb_refl.
      replace (k + 1 <=? k) with false by (symmetry; apply Z.leb_gt; lia).
      replace (k <=? k) with true by (symmetry; apply Z.leb_le; lia).
      replace (k - k) with 0 by lia. reflexivity.
    + replace (i =? k) with false by (symmetry; apply Z.eqb_neq; lia).
      replace (i + 1 <=? k) with true by (symmetry; apply Z.leb_le; lia).
      replace (i <=? k) with true by (symmetry; apply Z.leb_le; lia).
      replace (Z.to_nat (k - i)) with (S (Z.to_nat (k - (i + 1)))) by lia.
      reflexivity.
    + replace (i =? k) with false by (symmetry; apply Z.eqb_neq; lia).
      replace (i + 1 <=? k) with false by (symmetry; apply Z.leb_gt; lia).
      replace (i <=? k) with false by (symmetry; apply Z.leb_gt; lia).
      reflexivity.
Qed.

Lemma target_in_window (lo hi k : Z) (l : list (Z * string)) :
  filter (is_target k) (window lo hi l)
  = window lo hi (filter (is_target k) l).
Proof.
  unfold window. induction l as [|p l IH]; simpl; [reflexivity|].
  destruct ((lo <=? fst p) && (fst p <=? hi)) eqn:Ew;
    destruct (is_target k p) eqn:Et; simpl; rewrite ?Ew, ?Et, IH; reflexivity.
Qed.

Lemma snippet_line_prefix (line_number i : Z) (line : string) :
  starts_with (tok target_prefix) (tok (snippet_line line_number i line))
  = (i =? line_number).
Proof.
  unfold snippet_line. destruct (i =? line_number); reflexivity.
Qed.

(** The lines of the window that carry the number of the target. *)
Lemma context_of_target (f : TextFile) (line_number context_lines : Z) :
  filter (is_target line_number) (context_of f line_number context_lines)
  = if (0 <=? context_lines) && (1 <=? line_number)
    then match nth_error (delivered f) (Z.to_nat (line_number - 1)) with
         | Some line => [(line_number, line)]
         | None => []
         end
    else [].
Proof.
  unfold context_of. rewrite target_in_window, numbered_target.
  destruct (1 <=? line_number) eqn:E1; [|now rewrite andb_false_r].
  rewrite andb_true_r. apply Z.leb_le in E1.
  destruct (nth_error (delivered f) (Z.to_nat (line_number - 1))) as [line|];
    [|now destruct (0 <=? context_lines)].
  unfold window. cbn [filter fst].
  destruct (0 <=? context_lines) eqn:E0.
  - apply Z.leb_le in E0.
    replace (Z.max 1 (line_number - context_lines) <=? line_number) with true
      by (symmetry; apply Z.leb_le; lia).
    replace (line_number <=? line_number + context_lines) with true
      by (symmetry; apply Z.leb_le; lia).
    reflexivity.
  - apply Z.leb_gt in E0.
    replace (line_number <=? line_number + context_lines) with false
      by (symmetry; apply Z.leb_gt; lia).
    now rewrite andb_false_r.
Qed.

Lemma marked_lines (line_number : Z) (l : list (Z * string)) :
  filter (fun s => starts_with (tok ">> ") (tok s)) (map (render line_number) l)
  = map (render line_number) (filter (is_target line_number) l).
Proof.
  induction l as [|p l IH]; [reflexivity|].
  cbn [map filter].
  change (starts_with (tok ">> ") (tok (render line_number p)))
    with (starts_with (tok target_prefix)
                      (tok (snippet_line line_number (fst p) (snd p)))).
  rewrite snippet_line_prefix. unfold is_target at 1.
  destruct (fst p =? line_number); cbn [map]; now rewrite IH.
Qed.

(** X16.  For a file that is read without an exception, the text
    [get_context_snippet] returns is the lines the reading loop has
    collected, joined by line feeds.  Of these lines, those that start
    with the marker ">> " are one line, made of the marker, the number
    [line_number], a colon and the stripped line of that number, when
    [context_lines] is not negative and the file has a line of that
    number; there is none otherwise.  Every other line starts with
    three blanks. *)
Theorem context_snippet_target (case_directory : string -> option TextFile)
        (filename : string) (line_number context_lines : Z) (f : TextFile) :
  case_directory filename = Some f -> failure f = None ->
  exists snippet,
    read_context (Z.max 1 (line_number - context_lines))
                 (line_number + context_lines) line_number 1
                 (delivered f) None []
    = inl snippet
    /\ get_context_snippet case_directory filename line_number context_lines
       = SnippetText (String.concat line_feed snippet)
    /\ filter (fun s => starts_with (tok ">> ") (tok s)) snippet
       = (if (0 <=? context_lines) && (1 <=? line_number)
          then match nth_error (delivered f) (Z.to_nat (line_number - 1)) with
               | Some line =>
                   [ (">> " ++ decimal line_number ++ ": "
                           ++ str_strip line)%string ]
               | None => []
               end
          else [])
    /\ forall s, In s snippet ->
                 starts_with (tok ">> ") (tok s) = false ->
                 starts_with (tok "   ") (tok s) = true.
Proof.
  intros Hf Hnone.
  exists (map (render line_number) (context_of f line_number context_lines)).
  assert (Hloop : read_context (Z.max 1 (line_number - context_lines))
                    (line_number + context_lines) line_number 1
                    (delivered f) None []
                  = inl (map (render line_number)
                             (context_of f line_number context_lines))).
  { rewrite read_context_eq. cbv zeta. cbn [app]. now destruct (_ <=? _). }
  split; [exact Hloop|]. split.
  { unfold get_context_snippet. rewrite Hf, Hnone, Hloop. reflexivity. }
  split.
  - rewrite marked_lines, context_of_target.
    destruct ((0 <=? context_lines) && (1 <=? line_number)); [|reflexivity].
    destruct (nth_error (delivered f) (Z.to_nat (line_number - 1))) as [line|];
      [|reflexivity].
    cbn [map]. unfold render, snippet_line. cbn [fst snd].
    now rewrite Z.eqb_refl.
  - intros s Hs. apply in_map_iff in Hs. destruct Hs as [p [<- _]].
    unfold render, snippet_line.
    destruct (fst p =? line_number); [discriminate | reflexivity].
Qed.

(** A log of three lines whose reading fails after the third. *)
Definition failing_log : TextFile :=
  {| delivered := [ "2024-01-15T10:30:45 ERROR Database: connection timeout";
                    "2024-01-15T10:30:46 WARNING Pool: no free connection";
                    "2024-01-15T10:30:47 WARNING Pool: no free connection" ]%string;
     failure := Some "Input/output error"%string |}.

(** The window of line 2 with one line of context ends at the third
    line; the exception that follows it is reported.  With no context
    the loop stops at the third line and returns the second. *)
Lemma context_snippet_read_failure_witness :
  get_context_snippet (fun _ => Some failing_log) "app.txt" 2 1
  = ReadFailed "app.txt" "Input/output error"
  /\ get_context_snippet (fun _ => Some failing_log) "app.txt" 2 0
     = SnippetText ">> 2: 2024-01-15T10:30:46 WARNING Pool: no free connection".
Proof.
  split.
  - apply (context_snippet_read_failure (fun _ => Some failing_log) "app.txt"
                                        2 1 failing_log "Input/output error");
      [reflexivity | reflexivity | simpl; lia].
  - rewrite (proj2 (context_snippet_read_failure
                      (fun _ => Some failing_log) "app.txt" 2 0 failing_log
                      "Input/output error" eq_refl eq_refl));
      [vm_compute; reflexivity | simpl; lia].
Defined.

(** The same log read to its end: of the three lines of the snippet
    of line 2, the second is the marked one. *)
Lemma context_snippet_target_witness :
  exists snippet,
    get_context_snippet (fun _ => Some (read_to_end failing_log)) "app.txt" 2 1
    = SnippetText (String.concat line_feed snippet)
    /\ length snippet = 3%nat
    /\ filter (fun s => starts_with (tok ">> ") (tok s)) snippet
       = [ ">> 2: 2024-01-15T10:30:46 WARNING Pool: no free connection"%string ].
Proof.
  destruct (context_snippet_target (fun _ => Some (read_to_end failing_log))
              "app.txt" 2 1 (read_to_end failing_log) eq_refl eq_refl)
    as [snippet [Hloop [Htext [Hmarked _]]]].
  exists snippet. split; [exact Htext|]. split.
  - vm_compute in Hloop. inversion Hloop. reflexivity.
  - rewrite Hmarked. vm_compute. reflexivity.
Defined.

End SnippetFacts.

(* ===================================================================== *)
(** ** The knowledge base: the two tables and the extension of the file  *)
(* ===================================================================== *)

Module KnowledgeFacts.

Import Text KnowledgeBase Report ReportFacts.

Open Scope Z_scope.

Lemma cell_eqb_eq (a b : cell) : cell_eqb a b = true <-> a = b.
Proof.
  destruct a as [x|x], b as [y|y]; simpl.
  - rewrite String.eqb_eq. split; congruence.
  - split; discriminate.
  - split; discriminate.
  - rewrite Z.eqb_eq. split; congruence.
Qed.

Lemma problem_entry_eqb_eq (a b : ProblemEntry) :
  problem_entry_eqb a b = true <-> a = b.
Proof.
  unfold problem_entry_eqb.
  rewrite !andb_true_iff, Z.eqb_eq, String.eqb_eq, cell_eqb_eq.
  destruct a, b; simpl. split; [intros [[-> ->] ->]; reflexivity|].
  intros H. inversion H. auto.
Qed.

(** Removing duplicate rows does not change which row is the first to
    pass a test, when no row seen before passes it. *)
Lemma find_drop_duplicates_from {A : Type} (eqb : A -> A -> bool)
      (test : A -> bool) (l : list A) :
  (forall a b, eqb a b = true <-> a = b) ->
  forall seen,
    (forall y, In y seen -> test y = false) ->
    find test (drop_duplicates_from eqb (fun e => e) seen l) = find test l.
Proof.
  intros Heq. induction l as [|x l IH]; intros seen Hseen; simpl; [reflexivity|].
  destruct (existsb (eqb x) seen) eqn:E.
  - apply existsb_exists in E. destruct E as [y [Hy Hxy]].
    apply Heq in Hxy. subst y. rewrite (Hseen x Hy). now apply IH.
  - simpl. destruct (test x) eqn:Et; [reflexivity|].
    apply IH. intros y [<- | Hy]; [assumption | now apply Hseen].
Qed.

Lemma find_map {A B : Type} (f : A -> B) (test : B -> bool) (l : list A) :
  find test (map f l) = option_map f (find (fun a => test (f a)) l).
Proof.
  induction l as [|x l IH]; simpl; [reflexivity|].
  destruct (test (f x)); [reflexivity | exact IH].
Qed.

Lemma first_of_filter {A : Type} (test : A -> bool) (l : list A) :
  match filter test l with
  | e :: _ => Some e
  | [] => None
  end = find test l.
Proof.
  induction l as [|x l IH]; simpl; [reflexivity|].
  destruct (test x); [reflexivity | exact IH].
Qed.


(** The problem table is searched as the file is. *)
Lemma problem_text_of_file_rows (kb_df : list KbRow) (problem : Z) :
  problem_text_of (snd (split_tables kb_df)) problem
  = match find (fun r => kb_problem_id r =? problem) kb_df with
    | Some r => KbText (kb_Problem_Text r)
    | None => NotFoundFor problem
    end.
Proof.
  unfold problem_text_of, split_tables, drop_duplicates. cbn [snd].
  pose proof (first_of_filter (fun e => problem_id e =? problem)
                (drop_duplicates_from problem_entry_eqb (fun e => e) []
                                      (map to_problem_entry kb_df))) as Hf.
  rewrite (find_drop_duplicates_from _ _ _ problem_entry_eqb_eq) in Hf
    by (intros y []).
  rewrite find_map in Hf. cbn [to_problem_entry problem_id] in Hf.
  destruct (filter _ _) as [|e rest];
    destruct (find _ kb_df) as [r|]; simpl in Hf; try discriminate.
  - reflexivity.
  - inversion Hf. reflexivity.
Qed.

(** X18.  The description the reports look up for a problem in the
    problem table of a knowledge base is the [Problem_Text] of the
    first row of the file with that problem id, and the not-found text
    exactly when the file has no row with it. *)
Theorem problem_description_first_row (kb_df : list KbRow) (problem : Z) :
  problem_text_of (snd (split_tables kb_df)) problem
  = match find (fun r => kb_problem_id r =? problem) kb_df with
    | Some r => KbText (kb_Problem_Text r)
    | None => NotFoundFor problem
    end.
Proof. apply problem_text_of_file_rows. Qed.

(** *** The alerts a repeated row of the file gives *)



(** *** The extension of a path *)

Open Scope list_scope.

Definition slash : ascii := "/"%char.
Definition dot : ascii := "."%char.

Definition without (c : ascii) (s : str) : Prop :=
  Forall (fun a => Ascii.eqb a c = false) s.

Lemma rfind_from_without (c : ascii) (s : str) :
  without c s -> forall i last, rfind_from c s i last = last.
Proof.
  induction 1 as [|a s Ha Hs IH]; intros i last; simpl; [reflexivity|].
  now rewrite Ha, IH.
Qed.

Lemma rfind_from_last (c : ascii) (a b : str) :
  without c b ->
  forall i last,
    rfind_from c (a ++ c :: b) i last = (i + Z.of_nat (length a))%Z.
Proof.
  intros Hb. induction a as [|x a IH]; intros i last.
  - simpl. rewrite Ascii.eqb_refl, rfind_from_without by assumption. lia.
  - cbn [app rfind_from length]. rewrite IH. lia.
Qed.

Lemma without_app (c : ascii) (a b : str) :
  without c a -> without c b -> without c (a ++ b).
Proof. intros Ha Hb. apply Forall_app. now split. Qed.

(** Where a path begins: nowhere, or after the slash that ends its
    directory. *)
Definition directory_prefix (pre : str) : Prop :=
  pre = [] \/ exists dir, pre = dir ++ [slash].

Lemma rfind_slash_prefix (pre rest : str) :
  directory_prefix pre -> without slash rest ->
  rfind slash (pre ++ rest) = (Z.of_nat (length pre) - 1)%Z.
Proof.
  intros [-> | [dir ->]] Hrest; unfold rfind.
  - simpl. rewrite rfind_from_without by assumption. reflexivity.
  - rewrite <- app_assoc. cbn [app].
    rewrite rfind_from_last by assumption. rewrite length_app. simpl. lia.
Qed.

Lemma lower_char_dot : lower_char dot = dot.
Proof. reflexivity. Qed.

(** [splitext] of a path whose last component is a name, a dot and an
    extension. *)
Lemma splitext_ext_name (pre name ext : str) :
  directory_prefix pre ->
  without slash name -> existsb (fun c => negb (Ascii.eqb c dot)) name = true ->
  without slash ext -> without dot ext ->
  splitext_ext (pre ++ name ++ dot :: ext) = dot :: ext.
Proof.
  intros Hpre Hname Hnd Hes Hed. unfold splitext_ext.
  fold slash. fold dot.
  rewrite (rfind_slash_prefix pre (name ++ dot :: ext) Hpre).
  2:{ apply without_app; [assumption|]. constructor; [reflexivity | assumption]. }
  assert (Hdot : rfind dot (pre ++ name ++ dot :: ext)
                 = Z.of_nat (length pre + length name)).
  { unfold rfind. rewrite app_assoc, rfind_from_last by assumption.
    rewrite length_app. lia. }
  rewrite Hdot.
  replace (Z.of_nat (length pre) - 1 <? Z.of_nat (length pre + length name))%Z
    with true by (symmetry; apply Z.ltb_lt; lia).
  replace (Z.to_nat (Z.of_nat (length pre) - 1 + 1)) with (length pre) by lia.
  replace (Z.to_nat (Z.of_nat (length pre + length name)
                     - (Z.of_nat (length pre) - 1 + 1)))
    with (length name) by lia.
  rewrite Nat2Z.id.
  pose proof (@ParserMore.skipn_length_app ascii) as Hskip.
  pose proof (@ParserMore.firstn_length_app ascii) as Hfirst.
  rewrite Hskip, Hfirst, Hnd.
  rewrite app_assoc, <- length_app. apply Hskip.
Qed.

(** [splitext] of a path whose last component is dots and a name: a
    file whose name begins with its only dots has no extension. *)
Lemma splitext_ext_hidden (pre dots name : str) :
  directory_prefix pre ->
  Forall (fun c => c = dot) dots ->
  without slash name -> without dot name ->
  splitext_ext (pre ++ dots ++ name) = [].
Proof.
  intros Hpre Hdots Hns Hnd. unfold splitext_ext. fold slash. fold dot.
  assert (Hds : without slash dots).
  { eapply Forall_impl; [|exact Hdots]. intros c ->. reflexivity. }
  rewrite (rfind_slash_prefix pre (dots ++ name) Hpre)
    by (now apply without_app).
  induction dots as [|d dots' _] using rev_ind.
  - (* no dot at all in the last component *)
    cbn [app].
    destruct (_ <? rfind dot (pre ++ name))%Z eqn:E; [|reflexivity].
    exfalso. apply Z.ltb_lt in E.
    destruct Hpre as [-> | [dir ->]].
    + unfold rfind in E. cbn [app] in E.
      rewrite rfind_from_without in E by assumption. simpl in E. lia.
    + unfold rfind in E.
      assert (Hle : forall (s : str) i last,
                 (last < i)%Z ->
                 (rfind_from dot s i last < i + Z.of_nat (length s))%Z).
      { induction s as [|x s IH]; intros i last Hl; simpl; [lia|].
        destruct (Ascii.eqb x dot).
        - specialize (IH (i + 1)%Z i ltac:(lia)). lia.
        - specialize (IH (i + 1)%Z last ltac:(lia)). lia. }
      rewrite <- app_assoc in E.
      assert (Hsplit : forall (a b : str) i last,
                 rfind_from dot (a ++ b) i last
                 = rfind_from dot b (i + Z.of_nat (length a))%Z
                              (rfind_from dot a i last)).
      { induction a as [|x a IH]; intros b i last.
        - simpl. now replace (i + 0)%Z with i by lia.
        - cbn [app rfind_from length]. rewrite IH. f_equal. lia. }
      rewrite Hsplit in E. cbn [app] in E.
      change (rfind_from dot (slash :: name) ?i ?l)
        with (rfind_from dot name (i + 1)%Z l) in E.
      rewrite rfind_from_without in E by assumption.
      specialize (Hle dir 0%Z (-1)%Z ltac:(lia)).
      rewrite length_app in E. simpl in E. lia.
  - apply Forall_app in Hdots. destruct Hdots as [Hdots Hd].
    inversion Hd as [|? ? Hdd _]; subst d.
    assert (Hdot : rfind dot (pre ++ (dots' ++ [dot]) ++ name)
                   = Z.of_nat (length pre + length dots')).
    { unfold rfind. rewrite <- app_assoc. cbn [app].
      rewrite app_assoc, rfind_from_last by assumption.
      rewrite length_app. lia. }
    rewrite Hdot.
    destruct (_ <? _)%Z; [|reflexivity].
    replace (Z.to_nat (Z.of_nat (length pre) - 1 + 1)) with (length pre) by lia.
    replace (Z.to_nat (Z.of_nat (length pre + length dots')
                       - (Z.of_nat (length pre) - 1 + 1)))
      with (length dots') by lia.
    pose proof (@ParserMore.skipn_length_app ascii) as Hskip.
    pose proof (@ParserMore.firstn_length_app ascii) as Hfirst.
    rewrite Hskip, <- !app_assoc, Hfirst.
    replace (existsb (fun c => negb (Ascii.eqb c dot)) dots') with false;
      [reflexivity|].
    symmetry. clear - Hdots. induction Hdots as [|c l Hc _ IH]; simpl;
      [reflexivity|].
    subst c. now rewrite IH.
Qed.

Lemma tok_app (a b : string) : tok (a ++ b)%string = tok a ++ tok b.
Proof. unfold tok. induction a as [|c a IH]; simpl; [reflexivity | now rewrite IH]. Qed.

Definition lower_string (s : string) : string :=
  string_of_list_ascii (lower (tok s)).

(** X19.  For a path whose last component is a name with a character
    other than the dot, a dot, and an extension without dot, the
    extension [load_knowledge_base] goes by is the dot and the
    extension in lower case.  So a file that exists and whose extension
    is csv in any mix of cases is read by the CSV reader, and the
    result is the two tables of its rows, or the reader's exception. *)
Theorem knowledge_base_extension_case (fs : FileSystem)
        (dir name ext : string) :
  let kb_path := (dir ++ "/" ++ name ++ "." ++ ext)%string in
  without slash (tok name) ->
  existsb (fun c => negb (Ascii.eqb c dot)) (tok name) = true ->
  without slash (tok ext) -> without dot (tok ext) ->
  file_extension_of kb_path = ("." ++ lower_string ext)%string
  /\ (path_exists kb_path = true -> lower_string ext = "csv"%string ->
      load_knowledge_base kb_path
      = match read_csv kb_path with
        | Some kb_df => Ok (split_tables kb_df)
        | None => Raise ReaderError
        end).
Proof.
  intros kb_path Hns Hnd Hes Hed.
  assert (Hext : file_extension_of kb_path = ("." ++ lower_string ext)%string).
  { unfold file_extension_of, kb_path, lower_string.
    fold (tok (dir ++ "/" ++ name ++ "." ++ ext)%string).
    rewrite !tok_app. change (tok "/") with [slash]. change (tok ".") with [dot].
    rewrite (app_assoc (tok dir)). cbn [app].
    rewrite (splitext_ext_name (tok dir ++ [slash]) (tok name) (tok ext));
      try assumption.
    - reflexivity.
    - right. now exists (tok dir). }
  split; [exact Hext|].
  intros Hex Hcsv. unfold load_knowledge_base.
  rewrite Hex, Hext, Hcsv. cbn [negb]. cbv zeta.
  change (String.eqb ("." ++ "csv") ".csv") with true. cbv iota.
  destruct (read_csv kb_path); reflexivity.
Qed.

(** X20.  A path whose last component has no dot, or only leading
    dots, has no extension, so [load_knowledge_base] rejects a file
    named ".csv", when it exists, as an unsupported format with an
    empty extension. *)
Theorem knowledge_base_hidden_file (fs : FileSystem)
        (dir dots name : string) :
  let kb_path := (dir ++ "/" ++ dots ++ name)%string in
  Forall (fun c => c = dot) (tok dots) ->
  without slash (tok name) -> without dot (tok name) ->
  file_extension_of kb_path = ""%string
  /\ (path_exists kb_path = true ->
      load_knowledge_base kb_path = Raise (UnsupportedFormat "")).
Proof.
  intros kb_path Hdots Hns Hnd.
  assert (Hext : file_extension_of kb_path = ""%string).
  { unfold file_extension_of, kb_path.
    fold (tok (dir ++ "/" ++ dots ++ name)%string).
    rewrite !tok_app. change (tok "/") with [slash].
    rewrite (app_assoc (tok dir)).
    rewrite (splitext_ext_hidden (tok dir ++ [slash]) (tok dots) (tok name));
      try assumption.
    - reflexivity.
    - right. now exists (tok dir). }
  split; [exact Hext|].
  intros Hex. unfold load_knowledge_base. rewrite Hex, Hext. reflexivity.
Qed.

(** *** The extension of any path, and what the loader does with it *)

(** The extension of a path, stated on its text.  The last component
    is what follows the last slash.  When it reads as a name with a
    character other than the dot, a dot, and letters without dot, the
    extension is that dot with these letters; when it has no dot, or
    dots only at its beginning, the extension is empty. *)
Definition path_extension (p ext : str) : Prop :=
  exists pre last,
    p = pre ++ last /\ directory_prefix pre /\ without slash last
    /\ ((exists name e,
           last = name ++ dot :: e
           /\ (exists c, In c name /\ c <> dot)
           /\ without dot e /\ ext = dot :: e)
        \/ (exists dots name,
              last = dots ++ name
              /\ Forall (fun c => c = dot) dots
              /\ without dot name /\ ext = [])).

Lemma last_component (p : str) :
  exists pre last,
    p = pre ++ last /\ directory_prefix pre /\ without slash last.
Proof.
  induction p as [|c q IH] using rev_ind.
  - exists [], []. split; [reflexivity|]. split; [now left | constructor].
  - destruct (Ascii.eqb c slash) eqn:Ec.
    + apply Ascii.eqb_eq in Ec. subst c. exists (q ++ [slash]), [].
      split; [now rewrite app_nil_r|]. split; [right; now exists q | constructor].
    + destruct IH as [pre [last [-> [Hpre Hlast]]]].
      exists pre, (last ++ [c]). split; [now rewrite app_assoc|].
      split; [exact Hpre|]. apply without_app; [exact Hlast|].
      constructor; [exact Ec | constructor].
Qed.

Lemma last_dot (l : str) :
  without dot l
  \/ exists a e, l = a ++ dot :: e /\ without dot e.
Proof.
  induction l as [|c q IH] using rev_ind.
  - left. constructor.
  - destruct (Ascii.eqb c dot) eqn:Ec.
    + apply Ascii.eqb_eq in Ec. subst c. right. exists q, [].
      split; [reflexivity | constructor].
    + destruct IH as [Hq | [a [e [-> He]]]].
      * left. apply without_app; [exact Hq|].
        constructor; [exact Ec | constructor].
      * right. exists a, (e ++ [c]). split.
        -- now rewrite <- app_assoc.
        -- apply without_app; [exact He|].
           constructor; [exact Ec | constructor].
Qed.

Lemma dots_or_name (l : str) :
  Forall (fun c => c = dot) l \/ exists c, In c l /\ c <> dot.
Proof.
  induction l as [|x l [IH | [c [Hc Hd]]]].
  - left. constructor.
  - destruct (Ascii.eqb x dot) eqn:Ex.
    + apply Ascii.eqb_eq in Ex. left. now constructor.
    + apply Ascii.eqb_neq in Ex. right. exists x. split; [now left | exact Ex].
  - right. exists c. split; [now right | exact Hd].
Qed.

Lemma existsb_other_than_dot (name : str) :
  (exists c, In c name /\ c <> dot) ->
  existsb (fun c => negb (Ascii.eqb c dot)) name = true.
Proof.
  intros [c [Hc Hd]]. apply existsb_exists. exists c. split; [exact Hc|].
  apply Ascii.eqb_neq in Hd. now rewrite Hd.
Qed.

(** Every path has an extension in this sense. *)
Lemma path_extension_total (p : str) : exists ext, path_extension p ext.
Proof.
  destruct (last_component p) as [pre [last [Hp [Hpre Hlast]]]].
  destruct (last_dot last) as [Hno | [a [e [Hl He]]]].
  - exists []. exists pre, last. repeat split; try assumption.
    right. exists [], last. repeat split; [constructor | assumption].
  - destruct (dots_or_name a) as [Hdots | Hname].
    + exists []. exists pre, last. repeat split; try assumption.
      right. exists (a ++ [dot]), e. split; [now rewrite <- app_assoc|].
      split; [|split; [assumption | reflexivity]].
      apply Forall_app. split; [exact Hdots | now constructor].
    + exists (dot :: e). exists pre, last. repeat split; try assumption.
      left. exists a, e. repeat split; assumption.
Qed.

(** It is the one [os.path.splitext] gives. *)
Lemma splitext_ext_path_extension (p ext : str) :
  path_extension p ext -> splitext_ext p = ext.
Proof.
  intros [pre [last [-> [Hpre [Hlast Hcase]]]]].
  destruct Hcase as [[name [e [-> [Hname [He ->]]]]]
                    | [dots [name [-> [Hdots [Hname ->]]]]]].
  - apply Forall_app in Hlast. destruct Hlast as [Hn Hde].
    inversion Hde as [|? ? _ Hes]; subst.
    apply splitext_ext_name; try assumption.
    now apply existsb_other_than_dot.
  - apply Forall_app in Hlast. destruct Hlast as [_ Hn].
    now apply splitext_ext_hidden.
Qed.

(** The pandas reader the loader calls for an extension it supports,
    with the engine it names. *)
Definition reader_of `{FileSystem} (kb_path extension : string)
  : option (list KbRow) :=
  if String.eqb extension ".csv" then read_csv kb_path
  else if String.eqb extension ".xlsx"
       then read_excel kb_path (Some "openpyxl"%string)
       else read_excel kb_path None.

(** C9.  [load_knowledge_base] raises [FileNotFoundError], with the
    path, exactly when the path does not exist.  For a path that
    exists, with the extension of its text in lower case: it raises its
    unsupported-format error, with that extension, exactly when the
    extension is none of .csv, .xlsx, .xls; otherwise it raises neither
    and calls the pandas reader of the extension, returns the two
    tables made from the rows exactly when the reader returns rows, and
    raises what the reader raises exactly when it raises. *)
Theorem load_knowledge_base_outcome (fs : FileSystem) (kb_path : string) :
  (exists ext, path_extension (tok kb_path) ext)
  /\ forall ext,
       path_extension (tok kb_path) ext ->
       let extension := string_of_list_ascii (lower ext) in
       let supported :=
         extension = ".csv"%string \/ extension = ".xlsx"%string
         \/ extension = ".xls"%string in
       (forall p, load_knowledge_base kb_path = Raise (FileNotFoundError p)
                  <-> path_exists kb_path = false /\ p = kb_path)
       /\ (path_exists kb_path = true ->
           (forall e, load_knowledge_base kb_path = Raise (UnsupportedFormat e)
                      <-> ~ supported /\ e = extension)
           /\ (forall tables,
                 load_knowledge_base kb_path = Ok tables
                 <-> supported
                     /\ exists kb_df,
                          reader_of kb_path extension = Some kb_df
                          /\ tables = split_tables kb_df)
           /\ (load_knowledge_base kb_path = Raise ReaderError
               <-> supported /\ reader_of kb_path extension = None)).
Proof.
  split; [apply path_extension_total|].
  intros ext Hext extension supported.
  apply splitext_ext_path_extension in Hext.
  assert (Hfe : file_extension_of kb_path = extension).
  { unfold file_extension_of, extension. fold (tok kb_path). now rewrite Hext. }
  clearbody extension. unfold load_knowledge_base, reader_of. rewrite Hfe.
  destruct (path_exists kb_path) eqn:Ex; cbn [negb].
  - assert (Hsup : supported
                   <-> String.eqb extension ".csv" = true
                       \/ String.eqb extension ".xlsx" = true
                       \/ String.eqb extension ".xls" = true).
    { unfold supported. now rewrite !String.eqb_eq. }
    split.
    { intros p. split; [|intros [Hf _]; discriminate].
      destruct (String.eqb extension ".csv");
        [destruct (read_csv kb_path); discriminate|].
      destruct (String.eqb extension ".xlsx" || String.eqb extension ".xls");
        [destruct (read_excel kb_path _); discriminate | discriminate]. }
    intros _.
    destruct (String.eqb extension ".csv") eqn:Ecsv.
    { assert (Hs : supported) by (apply Hsup; now left).
      destruct (read_csv kb_path) as [kb_df|]; (split; [|split]).
      - intros e. split; [discriminate | intros [Hn _]; tauto].
      - intros tables. split.
        + intros Ht. inversion Ht. split; [exact Hs | now exists kb_df].
        + intros [_ [d [Hd ->]]]. inversion Hd. reflexivity.
      - split; [discriminate | intros [_ Hn]; discriminate].
      - intros e. split; [discriminate | intros [Hn _]; tauto].
      - intros tables. split; [discriminate|].
        intros [_ [d [Hd _]]]. discriminate.
      - split; [intros _; now split | reflexivity]. }
    destruct (String.eqb extension ".xlsx") eqn:Exlsx; cbn [orb].
    { assert (Hs : supported) by (apply Hsup; right; now left).
      destruct (read_excel kb_path (Some "openpyxl"%string)) as [kb_df|];
        (split; [|split]).
      - intros e. split; [discriminate | intros [Hn _]; tauto].
      - intros tables. split.
        + intros Ht. inversion Ht. split; [exact Hs | now exists kb_df].
        + intros [_ [d [Hd ->]]]. inversion Hd. reflexivity.
      - split; [discriminate | intros [_ Hn]; discriminate].
      - intros e. split; [discriminate | intros [Hn _]; tauto].
      - intros tables. split; [discriminate|].
        intros [_ [d [Hd _]]]. discriminate.
      - split; [intros _; now split | reflexivity]. }
    destruct (String.eqb extension ".xls") eqn:Exls.
    { assert (Hs : supported) by (apply Hsup; right; now right).
      destruct (read_excel kb_path None) as [kb_df|]; (split; [|split]).
      - intros e. split; [discriminate | intros [Hn _]; tauto].
      - intros tables. split.
        + intros Ht. inversion Ht. split; [exact Hs | now exists kb_df].
        + intros [_ [d [Hd ->]]]. inversion Hd. reflexivity.
      - split; [discriminate | intros [_ Hn]; discriminate].
      - intros e. split; [discriminate | intros [Hn _]; tauto].
      - intros tables. split; [discriminate|].
        intros [_ [d [Hd _]]]. discriminate.
      - split; [intros _; now split | reflexivity]. }
    assert (Hn : ~ supported).
    { intros Hs. apply Hsup in Hs. destruct Hs as [H | [H | H]]; discriminate. }
    split; [|split].
    + intros e. split.
      * intros He. inversion He. now split.
      * intros [_ ->]. reflexivity.
    + intros tables. split; [discriminate | intros [Hs _]; tauto].
    + split; [discriminate | intros [Hs _]; tauto].
  - split.
    + intros p. split.
      * intros Hp. inversion Hp. now split.
      * intros [_ ->]. reflexivity.
    + discriminate.
Qed.

(** A workbook that exists and that pandas cannot read: its reader
    raises. *)
Definition unreadable_workbook : FileSystem :=
  {| path_exists := fun _ => true;
     read_csv := fun _ => None;
     read_excel := fun _ _ => None |}.

(** C9, the counterexample: the path exists and its extension is
    .xls, yet the loader returns no pair of tables, for the exception
    of the reader leaves it. *)
Lemma existing_workbook_reader_raises :
  @path_exists unreadable_workbook "kb/Anomalies_Problems.xls" = true
  /\ path_extension (tok "kb/Anomalies_Problems.xls") (tok ".xls")
  /\ file_extension_of "kb/Anomalies_Problems.xls" = ".xls"%string
  /\ @load_knowledge_base unreadable_workbook "kb/Anomalies_Problems.xls"
     = Raise ReaderError
  /\ forall tables,
       @load_knowledge_base unreadable_workbook "kb/Anomalies_Problems.xls"
       <> Ok tables.
Proof.
  split; [reflexivity|]. split.
  { exists (tok "kb/"), (tok "Anomalies_Problems.xls").
    split; [reflexivity|]. split; [right; now exists (tok "kb")|].
    split; [repeat constructor|].
    left. exists (tok "Anomalies_Problems"), (tok "xls").
    split; [reflexivity|]. split; [|split; [repeat constructor | reflexivity]].
    exists "A"%char. split; [now left | discriminate]. }
  split; [reflexivity|]. split; [reflexivity|].
  intros tables. discriminate.
Qed.

(** A file system with one catalogue, whatever it is called. *)
Definition catalogue_rows : list KbRow :=
  [ {| kb_anomaly_id := 1; kb_Anomaly_Text := TextCell "Pool exhausted"%string;
       kb_problem_id := 10;
       kb_Problem_Text := TextCell "Connection timeout"%string |} ].

Definition any_path : FileSystem :=
  {| path_exists := fun _ => true;
     read_csv := fun _ => Some catalogue_rows;
     read_excel := fun _ _ => None |}.

Lemma knowledge_base_extension_case_witness :
  @load_knowledge_base any_path "case_13/Anomalies_Problems.CSV"
  = Ok (split_tables catalogue_rows).
Proof.
  apply (proj2 (knowledge_base_extension_case any_path "case_13"
                  "Anomalies_Problems" "CSV"
                  ltac:(repeat constructor) ltac:(reflexivity)
                  ltac:(repeat constructor) ltac:(repeat constructor)));
    reflexivity.
Defined.

Lemma knowledge_base_hidden_file_witness :
  @load_knowledge_base any_path "case_13/.csv" = Raise (UnsupportedFormat "").
Proof.
  apply (proj2 (knowledge_base_hidden_file any_path "case_13" "." "csv"
                  ltac:(repeat constructor) ltac:(repeat constructor)
                  ltac:(repeat constructor)));
    reflexivity.
Defined.




Lemma load_knowledge_base_outcome_witness :
  @load_knowledge_base any_path "case_13/Anomalies_Problems.CSV"
  = Ok (split_tables catalogue_rows)
  /\ forall e,
       @load_knowledge_base any_path "case_13/Anomalies_Problems.CSV"
       <> Raise (UnsupportedFormat e).
Proof.
  assert (Hext : path_extension (tok "case_13/Anomalies_Problems.CSV")
                                (tok ".CSV")).
  { exists (tok "case_13/"), (tok "Anomalies_Problems.CSV").
    split; [reflexivity|]. split; [right; now exists (tok "case_13")|].
    split; [repeat constructor|].
    left. exists (tok "Anomalies_Problems"), (tok "CSV").
    split; [reflexivity|]. split; [|split; [repeat constructor | reflexivity]].
    exists "A"%char. split; [now left | discriminate]. }
  pose proof (proj2 (load_knowledge_base_outcome any_path
                       "case_13/Anomalies_Problems.CSV") _ Hext) as H.
  cbv zeta in H. destruct H as [_ H]. specialize (H eq_refl).
  destruct H as [Hunsupported [Hok _]]. split.
  - apply Hok. split; [now left|]. exists catalogue_rows. now split.
  - intros e He. apply Hunsupported in He. destruct He as [Hn _].
    apply Hn. now left.
Defined.

End KnowledgeFacts.

(* ===================================================================== *)
(** ** orchestrator: from the archive to the result                      *)
(* ===================================================================== *)

Module Pipeline.

Import Text KnowledgeBase LogParser Orchestrator.

Open Scope string_scope.

(** The two names the orchestrator takes from the configuration. *)
Class KbConfig : Type := {
  KB_BASE_FILENAME : string;
  KB_SUPPORTED_EXTENSIONS : list string
}.

(** What the analysis takes from outside the modules above.
    [extractall] is the archive unpacked into the temporary directory,
    as [os.walk] lists it from there: the directories with the names of
    their files, [None] when the unpacking raises.  [txt_files] gives
    the text files of a directory with their lines.  [model_loaded] and
    [embeddings_encoded] say whether the model is loaded and whether it
    encodes the catalogue, or an exception is raised there.
    [run_analysis_pipeline] and [generate_playbook_recommendations]
    return their value, or [None] when they raise. *)
Class Environment : Type := {
  extractall : option (list (string * list string));
  txt_files : string -> list log_file;
  model_loaded : bool;
  embeddings_encoded : bool;
  run_analysis_pipeline :
    list LogRecord -> list AnomalyEntry -> list ProblemEntry -> string ->
    option Report.frame;
  generate_playbook_recommendations :
    Report.frame -> list ProblemEntry -> option (string * string)
}.

(** The first component of [os.path.splitext] (POSIX). *)
Definition splitext_root (p : str) : str :=
  let sepIndex := rfind "/" p in
  let dotIndex := rfind "." p in
  if (sepIndex <? dotIndex)%Z then
    let leading :=
      firstn (Z.to_nat (dotIndex - (sepIndex + 1)))
             (skipn (Z.to_nat (sepIndex + 1)) p) in
    if existsb (fun c => negb (Ascii.eqb c ".")) leading
    then firstn (Z.to_nat dotIndex) p
    else p
  else p.

Definition ends_with_slash (s : str) : bool :=
  match rev s with
  | c :: _ => Ascii.eqb c "/"
  | [] => false
  end.

Definition starts_with_slash (s : str) : bool :=
  match s with
  | c :: _ => Ascii.eqb c "/"
  | [] => false
  end.

(** [os.path.join] of two components (POSIX): the second alone when it
    is absolute, else the two with a slash between them unless the
    first is empty or ends with one. *)
Definition path_join (a b : string) : string :=
  if starts_with_slash (list_ascii_of_string b) then b
  else if String.eqb a "" || ends_with_slash (list_ascii_of_string a)
       then a ++ b
       else a ++ "/" ++ b.

Definition lower_of (s : str) : string := string_of_list_ascii (lower s).

(** The test of the search on the name of a file. *)
Definition is_knowledge_base `{KbConfig} (file : string) : bool :=
  let file_name_without_ext := splitext_root (list_ascii_of_string file) in
  let file_extension := file_extension_of file in
  String.eqb (lower_of file_name_without_ext)
             (lower_of (list_ascii_of_string KB_BASE_FILENAME))
  && existsb (String.eqb file_extension) KB_SUPPORTED_EXTENSIONS.

(** The two loops of the search: [kb_path], [case_dir] and
    [found_format] at the first file that passes the test. *)
Fixpoint search_knowledge_base `{KbConfig} (walk : list (string * list string))
  : option (string * string * string) :=
  match walk with
  | [] => None
  | (root, files) :: rest =>
      match find is_knowledge_base files with
      | Some file => Some (path_join root file, root, file_extension_of file)
      | None => search_knowledge_base rest
      end
  end.

(** A value of the dictionary of results. *)
Inductive report_file :=
| SubmitReport (rows : list ReportRow)
| PredictiveAlerts (alerts : list Report.PredictiveAlert)
| NovelAnomalies (alerts : list Report.NovelAlert)
| PlaybookCsv (text : string)
| PlaybookTxt (text : string).

(** [final_reports]: a dictionary, in the order of insertion. *)
Definition reports : Type := list (string * report_file).

Definition when {A : Type} (c : bool) (entry : A) : list A :=
  if c then [entry] else [].

Definition nonempty {A : Type} (l : list A) : bool :=
  match l with [] => false | _ => true end.

Definition truthy (s : string) : bool := negb (String.eqb s "").

(** Stages 8 to 11, from the classified logs on: the dictionary of
    results, [None] when an exception is raised on the way.  The
    incident report of stage 8 is written to the directory of the
    reports and is no part of the results. *)
Definition final_reports `{Pandas} `{Config} `{IncidentReport.ReportsDir}
           `{Environment}
           (classified_logs : Report.frame) (anomalies_kb : list AnomalyEntry)
           (problems_kb : list ProblemEntry) (case_name : string)
  : option reports :=
  match IncidentReport.generate_detailed_incident_report
          case_name classified_logs problems_kb with
  | IncidentReport.WriteFailed => None
  | _ =>
      match Report.generate_predictive_alerts classified_logs anomalies_kb
                                              problems_kb case_name,
            Report.identify_novel_anomalies classified_logs case_name with
      | Some predictive_df, Some novel_df =>
          let submitted :=
            match primary_report classified_logs case_name with
            | Some output_df => [("submit_report.xlsx", SubmitReport output_df)]
            | None => []
            end in
          let predicted :=
            when (nonempty predictive_df)
                 ("predictive_alerts.xlsx", PredictiveAlerts predictive_df) in
          let novel :=
            when (nonempty novel_df)
                 ("novel_anomalies.xlsx", NovelAnomalies novel_df) in
          match generate_playbook_recommendations classified_logs problems_kb with
          | None => None
          | Some (playbook_csv, playbook_text) =>
              Some (submitted ++ predicted ++ novel
                    ++ when (truthy playbook_csv)
                            ("playbooks_recommendations.csv",
                             PlaybookCsv playbook_csv)
                    ++ when (truthy playbook_text)
                            ("playbooks_recommendations.txt",
                             PlaybookTxt playbook_text)
                   )%list
          end
      | _, _ => None
      end
  end.

(** Where [run_full_analysis_from_zip_bytes] gives up with an "error"
    entry. *)
Inductive analysis_error :=
| UnpackFailed          (* the archive cannot be unpacked *)
| KnowledgeBaseMissing  (* no knowledge base in the archive *)
| CriticalError.        (* an exception during the analysis *)

(** The dictionary the function returns. *)
Inductive analysis_result :=
| ErrorEntry (e : analysis_error)
| MessageEntry
| Reports (final_reports : reports).

(** [run_full_analysis_from_zip_bytes], called without a progress
    callback. *)
Definition run_full_analysis_from_zip_bytes
           `{Pandas} `{Config} `{KbConfig} `{FileSystem}
           `{IncidentReport.ReportsDir} `{Environment}
           (zip_filename : string) : analysis_result :=
  match extractall with
  | None => ErrorEntry UnpackFailed
  | Some walk =>
      match search_knowledge_base walk with
      | None => ErrorEntry KnowledgeBaseMissing
      | Some (kb_path, case_dir, found_format) =>
          if negb (path_exists kb_path) then ErrorEntry KnowledgeBaseMissing
          else
            let case_name :=
              string_of_list_ascii
                (splitext_root (list_ascii_of_string zip_filename)) in
            if negb model_loaded then ErrorEntry CriticalError
            else
              match load_knowledge_base kb_path with
              | Raise _ => ErrorEntry CriticalError
              | Ok (anomalies_kb, problems_kb) =>
                  if negb embeddings_encoded then ErrorEntry CriticalError
                  else
                    let logs_df :=
                      process_all_logs_for_case (txt_files case_dir) in
                    match logs_df with
                    | [] => MessageEntry
                    | _ =>
                        match run_analysis_pipeline logs_df anomalies_kb
                                                    problems_kb case_name with
                        | None => ErrorEntry CriticalError
                        | Some classified_logs =>
                            match final_reports classified_logs anomalies_kb
                                                problems_kb case_name with
                            | None => ErrorEntry CriticalError
                            | Some r => Reports r
                            end
                        end
                    end
              end
      end
  end.

(** Why [process_zip_archive] fails. *)
Inductive failure_reason :=
| AnalysisFailed (e : analysis_error)   (* the text of the "error" entry *)
| NoIncidents                           (* no primary report *)
| Unexpected.                           (* an exception of the analysis *)

(** What [process_zip_archive] returns: the archive of the results
    with the metadata, or the reason of the failure. *)
Inductive zip_outcome :=
| Success (zipped : reports) (files_count : Z) (file_names : list string)
| Failure (reason : failure_reason).

Definition has_key (key : string) (r : reports) : bool :=
  existsb (fun entry => String.eqb (fst entry) key) r.

(** [process_zip_archive] on what the analysis returns ([None] when it
    raises). *)
Definition process_zip_archive (results : option analysis_result)
  : zip_outcome :=
  match results with
  | None => Failure Unexpected
  | Some (ErrorEntry e) => Failure (AnalysisFailed e)
  | Some MessageEntry => Failure NoIncidents
  | Some (Reports r) =>
      if has_key "error" r then Failure (AnalysisFailed CriticalError)
      else if has_key "submit_report.xlsx" r
      then Success r (Z.of_nat (length r)) (map fst r)
      else Failure NoIncidents
  end.

End Pipeline.

Module PipelineFacts.

Import Text KnowledgeBase LogParser Report Orchestrator Pipeline.
Import ReportFacts OrchestratorFacts LoaderFacts KnowledgeFacts.

Open Scope Z_scope.
Open Scope list_scope.

(** The names a dictionary of results can have, in the order in which
    they are entered. *)
Definition report_names : list string :=
  [ "submit_report.xlsx"; "predictive_alerts.xlsx"; "novel_anomalies.xlsx";
    "playbooks_recommendations.csv"; "playbooks_recommendations.txt" ]%string.

Lemma has_key_In (key : string) (r : reports) :
  has_key key r = true <-> In key (map fst r).
Proof.
  unfold has_key. rewrite existsb_exists, in_map_iff.
  split; intros [entry [H1 H2]]; exists entry.
  - apply String.eqb_eq in H2. tauto.
  - split; [tauto|]. now apply String.eqb_eq.
Qed.

Lemma primary_report_Some `{Pandas} (logs : frame) (case_name : string) :
  (exists rows, primary_report logs case_name = Some rows)
  <-> exists w, In w logs /\ Level w = "WARNING"%string
                /\ final_problem_id w <> 0.
Proof.
  unfold primary_report.
  destruct (filter is_reportable_warning logs) as [|w ws] eqn:E.
  - split; [intros [rows Hr]; discriminate|].
    intros [w [Hw [Hl Hnz]]].
    assert (Hin : In w (filter is_reportable_warning logs)).
    { apply filter_In. split; [assumption|].
      now apply is_reportable_warning_iff. }
    rewrite E in Hin. contradiction.
  - split; [|intros _; eexists; reflexivity].
    intros _. exists w.
    assert (Hin : In w (filter is_reportable_warning logs))
      by (rewrite E; now left).
    apply filter_In in Hin. destruct Hin as [Hin Hr].
    apply is_reportable_warning_iff in Hr. tauto.
Qed.

(** The dictionary of results, when no stage raises. *)
Definition entered (submitted : option (list ReportRow))
           (predictive_df : list PredictiveAlert) (novel_df : list NovelAlert)
           (csv txt : string) : reports :=
  match submitted with
  | Some output_df => [("submit_report.xlsx"%string, SubmitReport output_df)]
  | None => []
  end
  ++ when (nonempty predictive_df)
          ("predictive_alerts.xlsx"%string, PredictiveAlerts predictive_df)
  ++ when (nonempty novel_df)
          ("novel_anomalies.xlsx"%string, NovelAnomalies novel_df)
  ++ when (truthy csv) ("playbooks_recommendations.csv"%string, PlaybookCsv csv)
  ++ when (truthy txt) ("playbooks_recommendations.txt"%string, PlaybookTxt txt).

Lemma final_reports_Some `{Pandas} `{Config} `{IncidentReport.ReportsDir}
      `{Environment} (logs : frame) (akb : list AnomalyEntry)
      (pkb : list ProblemEntry) (case_name : string) (r : reports) :
  final_reports logs akb pkb case_name = Some r ->
  exists predictive_df novel_df csv txt,
    generate_predictive_alerts logs akb pkb case_name = Some predictive_df
    /\ identify_novel_anomalies logs case_name = Some novel_df
    /\ IncidentReport.generate_detailed_incident_report case_name logs pkb
       <> IncidentReport.WriteFailed
    /\ r = entered (primary_report logs case_name) predictive_df novel_df
                   csv txt.
Proof.
  unfold final_reports. intros Hr.
  assert (Hw : IncidentReport.generate_detailed_incident_report case_name logs pkb
               <> IncidentReport.WriteFailed).
  { intros E. rewrite E in Hr. discriminate. }
  destruct (generate_predictive_alerts logs akb pkb case_name)
    as [predictive_df|];
    [|destruct (IncidentReport.generate_detailed_incident_report _ _ _);
      discriminate].
  destruct (identify_novel_anomalies logs case_name) as [novel_df|];
    [|destruct (IncidentReport.generate_detailed_incident_report _ _ _);
      discriminate].
  destruct (generate_playbook_recommendations logs pkb) as [[csv txt]|];
    [|destruct (IncidentReport.generate_detailed_incident_report _ _ _);
      discriminate].
  exists predictive_df, novel_df, csv, txt.
  split; [reflexivity|]. split; [reflexivity|]. split; [exact Hw|].
  destruct (IncidentReport.generate_detailed_incident_report _ _ _);
    [inversion Hr; reflexivity | inversion Hr; reflexivity | discriminate].
Qed.

(** X21.  The dictionary of results has its names among the five
    report names, in their order and none twice, and never the name
    "error".  It has the primary report exactly when some WARNING
    record has a problem id other than 0, then as its first entry; the
    predictive alerts exactly when there is an alert, and the novel
    anomalies exactly when there is one. *)
Theorem final_reports_names (pd : Pandas) (cfg : Config)
        (rd : IncidentReport.ReportsDir) (env : Environment)
        (logs : frame) (akb : list AnomalyEntry) (pkb : list ProblemEntry)
        (case_name : string) (r : reports) :
  final_reports logs akb pkb case_name = Some r ->
  chosen_from (map fst r) report_names
  /\ NoDup (map fst r)
  /\ has_key "error" r = false
  /\ (has_key "submit_report.xlsx" r = true
      <-> exists w, In w logs /\ Level w = "WARNING"%string
                    /\ final_problem_id w <> 0)
  /\ (has_key "submit_report.xlsx" r = true ->
      exists rows rest,
        primary_report logs case_name = Some rows
        /\ r = ("submit_report.xlsx"%string, SubmitReport rows) :: rest)
  /\ (has_key "predictive_alerts.xlsx" r = true
      <-> exists alert alerts,
            generate_predictive_alerts logs akb pkb case_name
            = Some (alert :: alerts))
  /\ (has_key "novel_anomalies.xlsx" r = true
      <-> exists alert alerts,
            identify_novel_anomalies logs case_name = Some (alert :: alerts)).
Proof.
  intros Hr. apply final_reports_Some in Hr.
  destruct Hr as [predictive_df [novel_df [csv [txt [Ep [En [_ ->]]]]]]].
  rewrite Ep, En.
  pose proof (primary_report_Some logs case_name) as Hprimary.
  assert (Hchosen : chosen_from
                      (map fst (entered (primary_report logs case_name)
                                        predictive_df novel_df csv txt))
                      report_names).
  { unfold entered, report_names, when.
    destruct (primary_report logs case_name);
      destruct (nonempty predictive_df); destruct (nonempty novel_df);
      destruct (truthy csv); destruct (truthy txt); simpl;
      repeat (first [ apply chosen_nil | apply chosen_take | apply chosen_skip ]). }
  split; [exact Hchosen|].
  split.
  { apply (chosen_from_NoDup _ _ Hchosen). unfold report_names.
    repeat constructor; simpl; intuition discriminate. }
  split.
  { destruct (has_key "error" _) eqn:E; [|reflexivity].
    apply has_key_In in E. apply (chosen_from_In _ _ _ Hchosen) in E.
    simpl in E. intuition discriminate. }
  split.
  { rewrite <- Hprimary. unfold entered, when.
    destruct (primary_report logs case_name) as [rows|].
    - split; [intros _; now exists rows | reflexivity].
    - split; [|intros [rows Hrows]; discriminate].
      destruct (nonempty predictive_df); destruct (nonempty novel_df);
        destruct (truthy csv); destruct (truthy txt); discriminate. }
  split.
  { unfold entered, when. destruct (primary_report logs case_name) as [rows|].
    - intros _. eexists. eexists. split; reflexivity.
    - destruct (nonempty predictive_df); destruct (nonempty novel_df);
        destruct (truthy csv); destruct (truthy txt); discriminate. }
  split.
  { unfold entered, when. destruct predictive_df as [|alert alerts].
    - split; [|intros [a [l Hl]]; discriminate].
      destruct (primary_report logs case_name); destruct (nonempty novel_df);
        destruct (truthy csv); destruct (truthy txt); discriminate.
    - split; [intros _; now exists alert, alerts|]. intros _.
      destruct (primary_report logs case_name); reflexivity. }
  unfold entered, when. destruct novel_df as [|a l].
  - split; [|intros [x [y Hxy]]; discriminate].
    destruct (primary_report logs case_name); destruct (nonempty predictive_df);
      destruct (truthy csv); destruct (truthy txt); discriminate.
  - split; [intros _; now exists a, l|]. intros _.
    destruct (primary_report logs case_name); destruct (nonempty predictive_df);
      reflexivity.
Qed.

(** X22.  On the dictionary of results of an analysis,
    [process_zip_archive] succeeds exactly when some WARNING record has
    a problem id other than 0, whether or not the primary report has a
    row; it then returns every report with the number and the names of
    the reports.  Otherwise it fails for want of incidents, and the
    predictive alerts and novel anomalies of the dictionary are not
    returned. *)
Theorem process_zip_archive_reports (pd : Pandas) (cfg : Config)
        (rd : IncidentReport.ReportsDir) (env : Environment) (logs : frame)
        (akb : list AnomalyEntry) (pkb : list ProblemEntry)
        (case_name : string) (r : reports) :
  final_reports logs akb pkb case_name = Some r ->
  process_zip_archive (Some (Reports r))
  = if existsb is_reportable_warning logs
    then Success r (Z.of_nat (length r)) (map fst r)
    else Failure NoIncidents.
Proof.
  intros Hr. apply final_reports_Some in Hr.
  destruct Hr as [predictive_df [novel_df [csv [txt [_ [_ [_ ->]]]]]]].
  unfold process_zip_archive.
  assert (Herr : has_key "error"
                         (entered (primary_report logs case_name)
                                  predictive_df novel_df csv txt) = false).
  { unfold entered, when.
    destruct (primary_report logs case_name);
      destruct (nonempty predictive_df); destruct (nonempty novel_df);
      destruct (truthy csv); destruct (truthy txt); reflexivity. }
  rewrite Herr.
  assert (Hsub : has_key "submit_report.xlsx"
                         (entered (primary_report logs case_name)
                                  predictive_df novel_df csv txt)
                 = existsb is_reportable_warning logs).
  { unfold primary_report, entered, when.
    assert (Hex : existsb is_reportable_warning logs
                  = nonempty (filter is_reportable_warning logs)).
    { clear. induction logs as [|w l IH]; simpl; [reflexivity|].
      destruct (is_reportable_warning w); [reflexivity | exact IH]. }
    rewrite Hex.
    destruct (filter is_reportable_warning logs); simpl.
    - destruct (nonempty predictive_df); destruct (nonempty novel_df);
        destruct (truthy csv); destruct (truthy txt); reflexivity.
    - reflexivity. }
  rewrite Hsub. reflexivity.
Qed.

(** *** The search for the knowledge base *)

Lemma rfind_from_snoc (c x : ascii) (s : str) :
  forall i last,
    rfind_from c (s ++ [x]) i last
    = if Ascii.eqb x c then i + Z.of_nat (length s) else rfind_from c s i last.
Proof.
  induction s as [|a s IH]; intros i last.
  - simpl. destruct (Ascii.eqb x c); [lia | reflexivity].
  - cbn [app rfind_from length]. rewrite IH.
    destruct (Ascii.eqb x c); [lia | reflexivity].
Qed.

(** The last index of a character does not depend on where the
    counting starts. *)
Lemma rfind_from_shift (c : ascii) (s : str) :
  -1 <= rfind c s < Z.of_nat (length s)
  /\ forall i last,
       rfind_from c s i last = if rfind c s <? 0 then last else i + rfind c s.
Proof.
  unfold rfind. induction s as [|x s [Hb IH]] using rev_ind.
  - simpl. split; [lia | reflexivity].
  - rewrite rfind_from_snoc, length_app. cbn [length].
    destruct (Ascii.eqb x c) eqn:E.
    + split; [lia|]. intros i last. rewrite rfind_from_snoc, E.
      replace (0 + Z.of_nat (length s) <? 0) with false
        by (symmetry; apply Z.ltb_ge; lia).
      lia.
    + split; [lia|]. intros i last. rewrite rfind_from_snoc, E. apply IH.
Qed.

Lemma rfind_from_app (c : ascii) (a b : str) :
  forall i last,
    rfind_from c (a ++ b) i last
    = rfind_from c b (i + Z.of_nat (length a)) (rfind_from c a i last).
Proof.
  induction a as [|x a IH]; intros i last.
  - simpl. now replace (i + 0) with i by lia.
  - cbn [app rfind_from length]. rewrite IH. f_equal. lia.
Qed.

(** The extension of a path is that of its last component. *)
Lemma splitext_ext_prefix (pre file : str) :
  directory_prefix pre -> without slash file ->
  splitext_ext (pre ++ file) = splitext_ext file.
Proof.
  intros Hpre Hfile. unfold splitext_ext. fold slash. fold dot.
  rewrite (rfind_slash_prefix pre file Hpre Hfile).
  assert (Hsep : rfind slash file = -1)
    by (unfold rfind; now apply rfind_from_without).
  rewrite Hsep.
  destruct (rfind_from_shift dot file) as [Hbound Hshift].
  destruct (rfind_from_shift dot pre) as [Hpbound _].
  assert (Hdot : rfind dot (pre ++ file)
                 = if rfind dot file <? 0 then rfind dot pre
                   else Z.of_nat (length pre) + rfind dot file).
  { unfold rfind at 1. rewrite rfind_from_app, Hshift. reflexivity. }
  rewrite Hdot.
  destruct (rfind dot file <? 0) eqn:Ed.
  - apply Z.ltb_lt in Ed.
    replace (Z.of_nat (length pre) - 1 <? rfind dot pre) with false
      by (symmetry; apply Z.ltb_ge; lia).
    replace (-1 <? rfind dot file) with false
      by (symmetry; apply Z.ltb_ge; lia).
    reflexivity.
  - apply Z.ltb_ge in Ed.
    replace (Z.of_nat (length pre) - 1 <? Z.of_nat (length pre) + rfind dot file)
      with true by (symmetry; apply Z.ltb_lt; lia).
    replace (-1 <? rfind dot file) with true
      by (symmetry; apply Z.ltb_lt; lia).
    replace (Z.to_nat (Z.of_nat (length pre) - 1 + 1)) with (length pre) by lia.
    replace (Z.to_nat (Z.of_nat (length pre) + rfind dot file
                       - (Z.of_nat (length pre) - 1 + 1)))
      with (Z.to_nat (rfind dot file)) by lia.
    replace (Z.to_nat (rfind dot file - (-1 + 1)))
      with (Z.to_nat (rfind dot file)) by lia.
    replace (Z.to_nat (-1 + 1)) with 0%nat by lia.
    replace (Z.to_nat (Z.of_nat (length pre) + rfind dot file))
      with (length pre + Z.to_nat (rfind dot file))%nat by lia.
    rewrite ParserMore.skipn_length_app. cbn [skipn].
    assert (Hskip : forall (n : nat) (a b : str),
               skipn (length a + n) (a ++ b) = skipn n b)
      by (intros n a b; induction a; simpl; auto).
    now rewrite Hskip.
Qed.

Lemma path_join_prefix (root file : string) :
  without slash (tok file) ->
  exists pre, directory_prefix pre
              /\ tok (path_join root file) = pre ++ tok file.
Proof.
  intros Hfile. unfold path_join. fold (tok file). fold (tok root).
  assert (Hs : starts_with_slash (tok file) = false).
  { destruct (tok file) as [|c s]; [reflexivity|].
    inversion Hfile; subst. assumption. }
  rewrite Hs.
  destruct (String.eqb root "") eqn:Er.
  - apply String.eqb_eq in Er. subst root. exists []. split; [now left|].
    reflexivity.
  - cbn [orb]. destruct (ends_with_slash (tok root)) eqn:Ee.
    + exists (tok root). split; [|apply tok_app].
      right. unfold ends_with_slash in Ee.
      destruct (rev (tok root)) as [|c r] eqn:Erev; [discriminate|].
      apply Ascii.eqb_eq in Ee. subst c. exists (rev r).
      rewrite <- (rev_involutive (tok root)), Erev. reflexivity.
    + exists (tok root ++ [slash]). split; [right; now exists (tok root)|].
      rewrite !tok_app. change (tok "/") with [slash].
      now rewrite <- app_assoc.
Qed.

Lemma file_extension_of_join (root file : string) :
  without slash (tok file) ->
  file_extension_of (path_join root file) = file_extension_of file.
Proof.
  intros Hfile. destruct (path_join_prefix root file Hfile) as [pre [Hpre Hp]].
  unfold file_extension_of. fold (tok (path_join root file)). fold (tok file).
  now rewrite Hp, splitext_ext_prefix.
Qed.

(** The names [os.walk] lists are those of directory entries: none has
    a slash. *)
Definition plain_names (walk : list (string * list string)) : Prop :=
  forall root files file,
    In (root, files) walk -> In file files -> without slash (tok file).

Definition none_passes `{KbConfig} (walk : list (string * list string)) : Prop :=
  forall root files file,
    In (root, files) walk -> In file files -> is_knowledge_base file = false.

(** X23.  The search for the knowledge base returns the first file, in
    the order of the walk, whose name without extension is the
    configured base name in any mix of cases and whose lower-cased
    extension is a configured one, with its directory as the directory
    of the case; it finds none exactly when no file passes.  The
    extension [load_knowledge_base] then sees in the joined path is the
    one the search matched, so that, when the configured extensions are
    among .csv, .xlsx and .xls, the loader does not reject the format of
    a file the search found. *)
Theorem found_knowledge_base (kc : KbConfig) (fs : FileSystem)
        (walk : list (string * list string)) :
  plain_names walk ->
  match search_knowledge_base walk with
  | None => none_passes walk
  | Some (kb_path, case_dir, found_format) =>
      (exists before files after file,
         walk = before ++ (case_dir, files) :: after
         /\ none_passes before
         /\ find is_knowledge_base files = Some file
         /\ kb_path = path_join case_dir file)
      /\ file_extension_of kb_path = found_format
      /\ In found_format KB_SUPPORTED_EXTENSIONS
      /\ ((forall e, In e KB_SUPPORTED_EXTENSIONS -> In e supported_extensions) ->
          forall e, load_knowledge_base kb_path <> Raise (UnsupportedFormat e))
  end.
Proof.
  induction walk as [|[root files] walk IH]; intros Hplain.
  - simpl. intros root files file [].
  - cbn [search_knowledge_base].
    destruct (find is_knowledge_base files) as [file|] eqn:Ef.
    + pose proof (find_some _ _ Ef) as [Hin Htest].
      assert (Hfile : without slash (tok file))
        by (apply (Hplain root files file); [now left | assumption]).
      assert (Hext : file_extension_of (path_join root file)
                     = file_extension_of file)
        by now apply file_extension_of_join.
      assert (Hsup : In (file_extension_of file) KB_SUPPORTED_EXTENSIONS).
      { unfold is_knowledge_base in Htest. apply andb_true_iff in Htest.
        destruct Htest as [_ Hex]. apply existsb_exists in Hex.
        destruct Hex as [e [He Heq]]. apply String.eqb_eq in Heq.
        now rewrite Heq. }
      split; [|split; [exact Hext | split; [exact Hsup|]]].
      * exists [], files, walk, file. repeat split; try assumption.
        intros r f x [].
      * intros Hconf e. specialize (Hconf _ Hsup).
        apply supported_extensions_In in Hconf.
        unfold load_knowledge_base. rewrite Hext.
        destruct (negb (path_exists (path_join root file))); [discriminate|].
        cbv zeta.
        destruct (String.eqb (file_extension_of file) ".csv") eqn:Ec.
        -- destruct (read_csv _); discriminate.
        -- destruct Hconf as [Hc | Hx]; [discriminate|].
           rewrite Hx. destruct (read_excel _ _); discriminate.
    + assert (Hplain' : plain_names walk).
      { intros r f x Hr Hx. apply (Hplain r f x); [now right | assumption]. }
      specialize (IH Hplain').
      assert (Hhere : forall file, In file files -> is_knowledge_base file = false)
        by (intros file Hin; apply (find_none _ _ Ef file Hin)).
      destruct (search_knowledge_base walk) as [[[kb_path case_dir] fmt]|].
      * destruct IH as [[before [fs' [after [file [Hw [Hb [Hfind Hp]]]]]]] Hrest].
        split; [|exact Hrest].
        exists ((root, files) :: before), fs', after, file.
        split; [now rewrite Hw|]. split; [|split; assumption].
        intros r f x [Hr | Hr] Hx.
        -- inversion Hr; subst. now apply Hhere.
        -- now apply (Hb r f x).
      * intros r f x [Hr | Hr] Hx.
        -- inversion Hr; subst. now apply Hhere.
        -- now apply (IH r f x).
Qed.

(** *** An archive *)

Open Scope string_scope.

(** The names of the knowledge base, as the orchestrator documents
    them. *)
Definition documented_names : KbConfig :=
  {| KB_BASE_FILENAME := "anomalies_problems";
     KB_SUPPORTED_EXTENSIONS := [".csv"; ".xlsx"; ".xls"] |}.

Definition archive_walk : list (string * list string) :=
  [ ("tmp", ["readme.md"]);
    ("tmp/case_13", ["app.txt"; "Anomalies_Problems.CSV"]) ].

(** An environment in which everything outside the modules works, and
    the classification gives the logs of the incident. *)
Definition incident_environment : Environment :=
  {| extractall := Some archive_walk;
     txt_files := fun _ => ParserFacts.same_second;
     model_loaded := true;
     embeddings_encoded := true;
     run_analysis_pipeline := fun _ _ _ _ => Some Incident.incident_logs;
     generate_playbook_recommendations :=
       fun _ _ => Some ("problem_id;playbook", "") |}.

Definition ten_minutes : Config := {| NOVEL_ANOMALY_WINDOW_MINUTES := 10 |}.

Lemma archive_walk_plain : plain_names archive_walk.
Proof.
  intros root files file [Hr | [Hr | []]] Hin; inversion Hr; subst;
    simpl in Hin; repeat (destruct Hin as [<- | Hin]; [repeat constructor|]);
    contradiction.
Qed.

Lemma found_knowledge_base_witness :
  @search_knowledge_base documented_names archive_walk
  = Some ("tmp/case_13/Anomalies_Problems.CSV", "tmp/case_13", ".csv")
  /\ file_extension_of "tmp/case_13/Anomalies_Problems.CSV" = ".csv".
Proof.
  assert (Hs : @search_knowledge_base documented_names archive_walk
               = Some ("tmp/case_13/Anomalies_Problems.CSV", "tmp/case_13",
                       ".csv")) by (vm_compute; reflexivity).
  split; [exact Hs|].
  pose proof (found_knowledge_base documented_names any_path archive_walk
                                   archive_walk_plain) as H.
  rewrite Hs in H. exact (proj1 (proj2 H)).
Defined.

Definition incident_report_names : list string :=
  [ "submit_report.xlsx"; "predictive_alerts.xlsx";
    "playbooks_recommendations.csv" ].

Lemma final_reports_names_witness :
  exists r,
    @final_reports stable_pandas ten_minutes IncidentMore.flat_directory
                   incident_environment
                   Incident.incident_logs Incident.incident_anomalies
                   Incident.incident_problems "case_13" = Some r
    /\ map fst r = incident_report_names
    /\ NoDup (map fst r).
Proof.
  destruct (@final_reports stable_pandas ten_minutes IncidentMore.flat_directory
              incident_environment
              Incident.incident_logs Incident.incident_anomalies
              Incident.incident_problems "case_13") as [r|] eqn:E;
    [|vm_compute in E; discriminate].
  exists r. split; [reflexivity|]. split.
  - vm_compute in E. inversion E. reflexivity.
  - exact (proj1 (proj2 (final_reports_names stable_pandas ten_minutes
                           IncidentMore.flat_directory
                           incident_environment _ _ _ _ r E))).
Defined.

Lemma process_zip_archive_reports_witness :
  exists r,
    @final_reports stable_pandas ten_minutes IncidentMore.flat_directory
                   incident_environment
                   Incident.incident_logs Incident.incident_anomalies
                   Incident.incident_problems "case_13" = Some r
    /\ process_zip_archive (Some (Reports r))
       = Success r 3 incident_report_names.
Proof.
  destruct (@final_reports stable_pandas ten_minutes IncidentMore.flat_directory
              incident_environment
              Incident.incident_logs Incident.incident_anomalies
              Incident.incident_problems "case_13") as [r|] eqn:E;
    [|vm_compute in E; discriminate].
  exists r. split; [reflexivity|].
  rewrite (process_zip_archive_reports stable_pandas ten_minutes
             IncidentMore.flat_directory incident_environment _ _ _ _ r E).
  vm_compute in E. inversion E. reflexivity.
Defined.

End PipelineFacts.

(* ===================================================================== *)
(** ** api/v1/tasks: the statistics of a finished task                   *)
(* ===================================================================== *)

Module TaskStatistics.

Import Text Orchestrator.

Open Scope string_scope.

(** A cell of a table read back from the archive of results. *)
Inductive value :=
| Str (s : string)
| Int (z : Z).

(** An item of [DataFrame.to_dict('records')]: the cells of a row by
    the names of the columns. *)
Definition row_dict : Type := list (string * value).

(** The columns [output_df] is written with, as the task reads them
    back from submit_report.xlsx.  (The scenario id comes back as a
    number when it is one; the statistics do not read it.) *)
Definition submit_record (r : ReportRow) : row_dict :=
  [ ("ID сценария", Str (r_scenario_id r));
    ("ID аномалии", Int (r_anomaly_id r));
    ("ID проблемы", Int (r_problem_id r));
    ("Файл с проблемой", Str (r_error_file_name r));
    ("№ строки проблемы", Int (r_error_line_number r));
    ("Строка лога проблемы", Str (r_error_log r));
    ("Строка лога аномалии", Str (r_anomaly_log r)) ].

(** [item.get(key)] *)
Definition dict_get (key : string) (item : row_dict) : option value :=
  option_map snd (find (fun entry => String.eqb (fst entry) key) item).

(** [set.add] *)
Definition set_add (s : string) (set : list string) : list string :=
  if existsb (String.eqb s) set then set else s :: set.

(** The loop over the items of the primary report: the two sets of log
    lines, [None] when the test [in] is applied to a cell that is not a
    string and raises. *)
Fixpoint count_log_lines (items : list row_dict)
         (unique_errors unique_warnings : list string)
  : option (list string * list string) :=
  match items with
  | [] => Some (unique_errors, unique_warnings)
  | item :: rest =>
      match dict_get "Строка из лога" item with
      | Some (Int _) => None
      | found =>
          let log_line := match found with Some (Str s) => s | _ => "" end in
          if contains (tok "ERROR") (tok log_line)
          then count_log_lines rest (set_add log_line unique_errors)
                               unique_warnings
          else if contains (tok "WARNING") (tok log_line)
          then count_log_lines rest unique_errors
                               (set_add log_line unique_warnings)
          else count_log_lines rest unique_errors unique_warnings
      end
  end.

Record Statistics := {
  total_anomalies : Z;
  total_errors : Z;
  total_warnings : Z
}.

(** The three counts [process_task_background] takes from the primary
    report of a finished task. *)
Definition task_statistics (submit_report : list row_dict) : option Statistics :=
  match count_log_lines submit_report [] [] with
  | Some (unique_errors, unique_warnings) =>
      Some {| total_anomalies := Z.of_nat (length submit_report);
              total_errors := Z.of_nat (length unique_errors);
              total_warnings := Z.of_nat (length unique_warnings) |}
  | None => None
  end.

(** X24.  For every primary report the orchestrator writes, the
    statistics of the task count one anomaly for each row and no error
    and no warning at all: the column they read the log line from is
    none of the columns of the report. *)
Theorem task_statistics_of_report (rows : list ReportRow) :
  task_statistics (map submit_record rows)
  = Some {| total_anomalies := Z.of_nat (length rows);
            total_errors := 0;
            total_warnings := 0 |}.
Proof.
  unfold task_statistics.
  assert (Hcount : count_log_lines (map submit_record rows) [] [] = Some ([], [])).
  { induction rows as [|r rows IH]; [reflexivity|].
    cbn [map count_log_lines].
    change (dict_get "Строка из лога" (submit_record r)) with (@None value).
    cbv iota.
    change (contains (tok "ERROR") (tok "")) with false.
    change (contains (tok "WARNING") (tok "")) with false.
    cbv iota. exact IH. }
  rewrite Hcount, length_map. reflexivity.
Qed.

End TaskStatistics.
